(** * The chat relay server of [async_chat/server.py]

    A shallow embedding of [ChatServer]: its registries, the handlers run by
    the dispatcher, the room broadcast and the connection cleanup, followed by
    the properties the specification states about them.

    Conventions of the embedding:
    - a [Client] object is known by its identity (a number, Python's
      [id(self)]); the objects themselves live in a store, so that the
      registries and the events alias the same object;
    - a coroutine is a function from the server state to a result that is
      either a value, a raised exception, or a suspension inside
      [await q.put(..)] on a full queue, with the rest of the coroutine as
      its continuation;
    - [utc_ts()] and [uuid.uuid4().hex] read two oracles of the state. *)

From Stdlib Require Import ZArith String Ascii List Lia.
From stdpp Require Import gmap strings list fin_maps pretty sorting.

#[local] Set Warnings "-clear-no-such-hyp".
Local Open Scope Z_scope.

(** ** Python strings and values *)

Module Py.

(** [str.isspace] on one character (code points below 256). *)
Definition isspace (ch : ascii) : bool :=
  let n := nat_of_ascii ch in
  ((9 <=? n) && (n <=? 13) || (28 <=? n) && (n <=? 32)
   || (n =? 133) || (n =? 160))%nat.

Definition is_empty (s : string) : bool :=
  match s with EmptyString => true | String _ _ => false end.

Fixpoint lstrip_with (p : ascii -> bool) (s : string) : string :=
  match s with
  | EmptyString => EmptyString
  | String ch s' => if p ch then lstrip_with p s' else s
  end.

Fixpoint rstrip_with (p : ascii -> bool) (s : string) : string :=
  match s with
  | EmptyString => EmptyString
  | String ch s' =>
      let r := rstrip_with p s' in
      if is_empty r && p ch then EmptyString else String ch r
  end.

(** [s.strip()] *)
Definition strip (s : string) : string :=
  rstrip_with isspace (lstrip_with isspace s).

(** [s.rstrip("\n")] *)
Definition rstrip_nl (s : string) : string :=
  rstrip_with (fun ch => Ascii.eqb ch "010"%char) s.

(** [any(p(ch) for ch in s)] *)
Fixpoint any (p : ascii -> bool) (s : string) : bool :=
  match s with
  | EmptyString => false
  | String ch s' => p ch || any p s'
  end.

(** [s[:n]] *)
Fixpoint take (n : nat) (s : string) : string :=
  match n, s with
  | S n', String ch s' => String ch (take n' s')
  | _, _ => EmptyString
  end.

Definition len (s : string) : Z := Z.of_nat (String.length s).

(** A [float]: a finite one is [m * 2^e]. *)
Inductive float : Type :=
| Finite (m e : Z)
| Inf (negative : bool)
| NaN.

(** A value decoded by [json.loads].  A float comes with its [str()]
    rendering; arrays and objects are kept as what the server can observe
    of them, their [str()] rendering and their truth value.  An integer has
    at most 4300 digits: [json.loads] refuses a longer literal. *)
Inductive value : Type :=
| VNone
| VBool (b : bool)
| VInt (n : Z)
| VFloat (shown : string) (x : float)
| VStr (s : string)
| VCompound (shown : string) (nonempty : bool).

(** [str(v)] *)
Definition str (v : value) : string :=
  match v with
  | VNone => "None"
  | VBool true => "True"
  | VBool false => "False"
  | VInt n => pretty n
  | VFloat shown _ => shown
  | VStr s => s
  | VCompound shown _ => shown
  end.

(** Truth value, as tested by [not v] and [v or d]. *)
Definition truthy (v : value) : bool :=
  match v with
  | VNone => false
  | VBool b => b
  | VInt n => negb (n =? 0)
  | VFloat _ (Finite m _) => negb (m =? 0)
  | VFloat _ _ => true
  | VStr s => negb (is_empty s)
  | VCompound _ nonempty => nonempty
  end.

(** [v or d] *)
Definition or (v d : value) : value := if truthy v then v else d.

Definition digit_of (ch : ascii) : option Z :=
  let n := nat_of_ascii ch in
  if ((48 <=? n) && (n <=? 57))%nat then Some (Z.of_nat (n - 48)) else None.

(** Decimal digits, single underscores allowed between two digits. *)
Fixpoint int_digits (s : string) (acc : Z) (after_digit : bool) : option Z :=
  match s with
  | EmptyString => if after_digit then Some acc else None
  | String ch s' =>
      match digit_of ch with
      | Some d => int_digits s' (10 * acc + d) true
      | None =>
          if Ascii.eqb ch "_"%char && after_digit
          then int_digits s' acc false
          else None
      end
  end.

(** [sys.get_int_max_str_digits()] *)
Definition int_max_str_digits : nat := 4300.

Fixpoint count_digits (s : string) : nat :=
  match s with
  | EmptyString => 0%nat
  | String ch s' =>
      match digit_of ch with
      | Some _ => S (count_digits s')
      | None => count_digits s'
      end
  end.

(** The digits of a literal after its sign; more than 4300 of them are
    refused. *)
Definition int_literal (s : string) : option Z :=
  if (int_max_str_digits <? count_digits s)%nat then None
  else int_digits s 0 false.

(** The whitespace [int()] skips around a literal: unlike [str.isspace], it
    leaves out the separators of code points 28 to 31. *)
Definition int_space (ch : ascii) : bool :=
  let n := nat_of_ascii ch in
  ((9 <=? n) && (n <=? 13) || (n =? 32) || (n =? 133) || (n =? 160))%nat.

(** [int(s)] for a string: surrounding whitespace, a sign, decimal digits;
    [None] stands for [ValueError]. *)
Definition int_of_str (s : string) : option Z :=
  match rstrip_with int_space (lstrip_with int_space s) with
  | String "-"%char s' => Z.opp <$> int_literal s'
  | String "+"%char s' => int_literal s'
  | s' => int_literal s'
  end.

(** [int(x)] for a float: the integer part, towards zero. *)
Definition trunc (m e : Z) : Z :=
  if 0 <=? e then m * 2 ^ e else Z.quot m (2 ^ (- e)).

Inductive exn : Type :=
| QueueFull | ValueError | TypeError | OverflowError | KeyError.

(** [int(v)] *)
Definition int (v : value) : exn + Z :=
  match v with
  | VNone => inl TypeError
  | VBool b => inr (if b then 1 else 0)
  | VInt n => inr n
  | VFloat _ (Finite m e) => inr (trunc m e)
  | VFloat _ (Inf _) => inl OverflowError
  | VFloat _ NaN => inl ValueError
  | VStr s => match int_of_str s with Some n => inr n | None => inl ValueError end
  | VCompound _ _ => inl TypeError
  end.

(** Truth value of an [Optional[str]] attribute. *)
Definition truthy_opt (o : option string) : bool :=
  match o with Some s => negb (is_empty s) | None => false end.

(** [v == s] for a string literal [s] *)
Definition eq_str (v : value) (s : string) : bool :=
  match v with VStr s' => String.eqb s' s | _ => false end.

Definition b64_char (ch : ascii) : bool :=
  let n := nat_of_ascii ch in
  ((65 <=? n) && (n <=? 90) || (97 <=? n) && (n <=? 122)
   || (48 <=? n) && (n <=? 57) || (n =? 43) || (n =? 47))%nat.

Definition is_pad (ch : ascii) : bool := Ascii.eqb ch "="%char.

(** [binascii.a2b_base64(s, strict_mode=True)] accepts [s], read from the
    position where [quad_pos] characters of the current group of four have
    been taken, [pads] padding characters counted and [padding_started]
    tells whether a [=] has been met. *)
Fixpoint a2b_base64_ok (s : string) (quad_pos pads : nat) (padding_started : bool)
  : bool :=
  match s with
  | EmptyString => (quad_pos =? 0)%nat
  | String ch s' =>
      if is_pad ch then
        if (2 <=? quad_pos)%nat then
          if (4 <=? quad_pos + S pads)%nat then is_empty s'
          else a2b_base64_ok s' quad_pos (S pads) true
        else a2b_base64_ok s' quad_pos pads true
      else if negb (b64_char ch) then false
      else if padding_started then false
      else a2b_base64_ok s' (S quad_pos mod 4) 0 false
  end.

(** [s.encode("ascii")] does not raise. *)
Definition is_ascii (s : string) : bool :=
  negb (any (fun ch => (128 <=? nat_of_ascii ch)%nat) s).

(** [base64.b64decode(s.encode("ascii"), validate=True)] does not raise:
    the strict mode of [a2b_base64] refuses a leading [=], a character
    outside the alphabet, a character after a [=] that does not end the
    input, and an incomplete last group. *)
Definition b64_valid (s : string) : bool :=
  is_ascii s
  && match s with
     | String "="%char _ => false
     | _ => a2b_base64_ok s 0 0 false
     end.

(** An [Optional[str]] inside an f-string. *)
Definition fmt (o : option string) : string :=
  match o with Some s => s | None => "None" end.

End Py.

(** ** Data model *)

(** Identity of a [Client] object. *)
Definition cid : Type := nat.

(** A decoded inbound message: the [dict] built by [json.loads]. *)
Definition msg : Type := gmap string Py.value.

(** [m.get(k, d)] *)
Definition msg_get (m : msg) (k : string) (d : Py.value) : Py.value :=
  default d (m !! k).

(** Values the server puts in the objects it sends. *)
Inductive field : Type :=
| FNone
| FStr (s : string)
| FInt (n : Z)
| FList (l : list string).

#[global] Instance field_eq_dec : EqDecision field.
Proof. solve_decision. Defined.

Definition FOpt (o : option string) : field :=
  match o with Some s => FStr s | None => FNone end.

(** An outbound object: a [dict] literal, keys in insertion order. *)
Definition payload : Type := list (string * field).

(** [p.get(k)] *)
Fixpoint payload_get (p : payload) (k : string) : option field :=
  match p with
  | [] => None
  | (k', v) :: p' => if String.eqb k k' then Some v else payload_get p' k
  end.

(** [{"type": ty, "text": text, "ts": ts}] *)
Definition text_event (ty text ts : string) : payload :=
  [("type", FStr ty); ("text", FStr text); ("ts", FStr ts)].

Module Client.
(** The dispatcher-visible part of [class Client]; [writer], [reader] and
    [addr] are handles of the transport. *)
Record t : Type := mk {
  name : option string;
  room : option string;
  out_q : list payload;
}.

(** [Client(writer=.., reader=.., addr=..)] *)
Definition new : t := {| name := None; room := None; out_q := [] |}.

(** [asyncio.Queue(maxsize=200)] *)
Definition maxsize : nat := 200.
End Client.

(** [class Event] *)
Record Event : Type := mkEvent { client : cid; ev_msg : msg }.

(** The [meta] dict of a transfer; it always has these five keys. *)
Record FileMeta : Type := mkMeta {
  meta_from : option string;
  meta_room : option string;
  meta_filename : string;
  meta_size : Z;
  meta_ts : string;
}.

(** [{"type": "file_start", "id": fid, **meta}] *)
Definition file_start_event (fid : string) (meta : FileMeta) : payload :=
  [("type", FStr "file_start"); ("id", FStr fid);
   ("from", FOpt (meta_from meta)); ("room", FOpt (meta_room meta));
   ("filename", FStr (meta_filename meta)); ("size", FInt (meta_size meta));
   ("ts", FStr (meta_ts meta))].

(** [class ChatServer]: the event queue, the three registries, the store of
    [Client] objects, and the two oracles with the number of readings taken
    from each. *)
Record ChatServer : Type := mkServer {
  _events : list Event;
  _rooms : gmap string (gset cid);
  _clients_by_name : gmap string cid;
  _files : gmap string FileMeta;
  objects : gmap cid Client.t;
  clock : nat -> string;
  ticks : nat;
  uuid4_hex : nat -> string;
  draws : nat;
}.

Definition events_maxsize : nat := 5000.
Definition MAX_LINE_BYTES : Z := 256 * 1024.
Definition DEFAULT_ROOM : string := "lobby".

(** [ChatServer.__init__] *)
Definition init (clk uuid : nat -> string) : ChatServer :=
  {| _events := []; _rooms := ∅; _clients_by_name := ∅; _files := ∅;
     objects := ∅; clock := clk; ticks := 0%nat;
     uuid4_hex := uuid; draws := 0%nat |}.

(** The object behind an identity; one that was never written is as its
    constructor left it. *)
Definition obj (σ : ChatServer) (c : cid) : Client.t :=
  default Client.new (objects σ !! c).

Definition with_events (f : list Event -> list Event) (σ : ChatServer) : ChatServer :=
  mkServer (f (_events σ)) (_rooms σ) (_clients_by_name σ) (_files σ)
           (objects σ) (clock σ) (ticks σ) (uuid4_hex σ) (draws σ).

Definition with_rooms (f : gmap string (gset cid) -> gmap string (gset cid))
    (σ : ChatServer) : ChatServer :=
  mkServer (_events σ) (f (_rooms σ)) (_clients_by_name σ) (_files σ)
           (objects σ) (clock σ) (ticks σ) (uuid4_hex σ) (draws σ).

Definition with_names (f : gmap string cid -> gmap string cid)
    (σ : ChatServer) : ChatServer :=
  mkServer (_events σ) (_rooms σ) (f (_clients_by_name σ)) (_files σ)
           (objects σ) (clock σ) (ticks σ) (uuid4_hex σ) (draws σ).

Definition with_files (f : gmap string FileMeta -> gmap string FileMeta)
    (σ : ChatServer) : ChatServer :=
  mkServer (_events σ) (_rooms σ) (_clients_by_name σ) (f (_files σ))
           (objects σ) (clock σ) (ticks σ) (uuid4_hex σ) (draws σ).

Definition with_obj (c : cid) (f : Client.t -> Client.t) (σ : ChatServer) : ChatServer :=
  mkServer (_events σ) (_rooms σ) (_clients_by_name σ) (_files σ)
           (<[c := f (obj σ c)]> (objects σ)) (clock σ) (ticks σ)
           (uuid4_hex σ) (draws σ).

Definition tick (σ : ChatServer) : ChatServer :=
  mkServer (_events σ) (_rooms σ) (_clients_by_name σ) (_files σ)
           (objects σ) (clock σ) (S (ticks σ)) (uuid4_hex σ) (draws σ).

Definition draw (σ : ChatServer) : ChatServer :=
  mkServer (_events σ) (_rooms σ) (_clients_by_name σ) (_files σ)
           (objects σ) (clock σ) (ticks σ) (uuid4_hex σ) (S (draws σ)).

(** [c.name = n], [c.room = r], and the queue of [c] with [p] appended. *)
Definition set_name (n : option string) (cl : Client.t) : Client.t :=
  Client.mk n (Client.room cl) (Client.out_q cl).
Definition set_room (r : option string) (cl : Client.t) : Client.t :=
  Client.mk (Client.name cl) r (Client.out_q cl).
Definition push (p : payload) (cl : Client.t) : Client.t :=
  Client.mk (Client.name cl) (Client.room cl) (Client.out_q cl ++ [p]).

(** [q.full()] *)
Definition full (σ : ChatServer) (c : cid) : bool :=
  (Client.maxsize <=? length (Client.out_q (obj σ c)))%nat.

(** ** Coroutines *)

(** What running a coroutine on a state gives: it returns, it raises, or it
    is suspended in [await c.out_q.put(..)] because the queue of [c] is
    full.  A suspended coroutine is resumed by the event loop once that
    queue has room, on the state the other tasks have left; the item is
    enqueued then. *)
Inductive res (A : Type) : Type :=
| Ret (a : A) (σ : ChatServer)
| Raise (e : Py.exn) (σ : ChatServer)
| Park (c : cid) (σ : ChatServer) (k : ChatServer -> res A).
Arguments Ret {A} a σ.
Arguments Raise {A} e σ.
Arguments Park {A} c σ k.

Definition Co (A : Type) : Type := ChatServer -> res A.

Fixpoint res_bind {A B : Type} (r : res A) (f : A -> Co B) : res B :=
  match r with
  | Ret a σ => f a σ
  | Raise e σ => Raise e σ
  | Park c σ k => Park c σ (fun σ' => res_bind (k σ') f)
  end.

(** [try: .. except Exception: ..] around a coroutine. *)
Fixpoint res_catch {A : Type} (r : res A) (h : Py.exn -> Co A) : res A :=
  match r with
  | Ret a σ => Ret a σ
  | Raise e σ => h e σ
  | Park c σ k => Park c σ (fun σ' => res_catch (k σ') h)
  end.

Definition ret {A : Type} (a : A) : Co A := fun σ => Ret a σ.
Definition bind {A B : Type} (m : Co A) (f : A -> Co B) : Co B :=
  fun σ => res_bind (m σ) f.
Definition raise {A : Type} (e : Py.exn) : Co A := fun σ => Raise e σ.
Definition try_except {A : Type} (m : Co A) (h : Py.exn -> Co A) : Co A :=
  fun σ => res_catch (m σ) h.

Notation "x <- m ;; f" := (bind m (fun x => f))
  (at level 100, m at next level, f at level 200, right associativity).
Notation "m ;;; f" := (bind m (fun _ => f))
  (at level 100, f at level 200, right associativity).

(** Reading and updating [self] and the objects it refers to. *)
Definition gets {A : Type} (f : ChatServer -> A) : Co A := fun σ => Ret (f σ) σ.
Definition modify (f : ChatServer -> ChatServer) : Co unit := fun σ => Ret tt (f σ).

(** [utc_ts()] *)
Definition utc_ts : Co string := fun σ => Ret (clock σ (ticks σ)) (tick σ).

(** [uuid.uuid4().hex] *)
Definition uuid4 : Co string := fun σ => Ret (uuid4_hex σ (draws σ)) (draw σ).

(** [await c.out_q.put(p)] *)
Definition put (c : cid) (p : payload) : Co unit :=
  fun σ =>
    if full σ c
    then Park c σ (fun σ' => Ret tt (with_obj c (push p) σ'))
    else Ret tt (with_obj c (push p) σ).

(** [c.out_q.put_nowait(p)] *)
Definition put_nowait (c : cid) (p : payload) : Co unit :=
  fun σ =>
    if full σ c then Raise Py.QueueFull σ else Ret tt (with_obj c (push p) σ).

(** [for x in xs: body(x)] *)
Fixpoint for_each {A : Type} (xs : list A) (body : A -> Co unit) : Co unit :=
  match xs with
  | [] => ret tt
  | x :: xs' => body x ;;; for_each xs' body
  end.

(** ** The server's coroutines *)

(** [await c.out_q.put({"type": ty, "text": text, "ts": utc_ts()})] *)
Definition put_text (c : cid) (ty text : string) : Co unit :=
  ts <- utc_ts ;;
  put c (text_event ty text ts).

(** [int(v)], raising what Python raises. *)
Definition to_int (v : Py.value) : Co Z :=
  match Py.int v with
  | inr n => ret n
  | inl e => raise e
  end.

(** [self._rooms.get(room, set())] *)
Definition members (σ : ChatServer) (room : string) : gset cid :=
  default ∅ (_rooms σ !! room).

(** One turn of the loop of [_broadcast]: the excluded connection is
    skipped; a full queue raises [QueueFull], which is passed over. *)
Definition broadcast_turn (p : payload) (exclude : option cid) (cl : cid) : Co unit :=
  if decide (exclude = Some cl) then ret tt
  else
    try_except (put_nowait cl p)
      (fun e => match e with Py.QueueFull => ret tt | _ => raise e end).

(** [_broadcast]: [targets] is a copy of the member set taken at the call. *)
Definition _broadcast (room : string) (p : payload) (exclude : option cid) : Co unit :=
  targets <- gets (fun σ => elements (members σ room)) ;;
  for_each targets (broadcast_turn p exclude).

(** [self._rooms.get(old, set()).discard(c)] *)
Definition discard_member (old : string) (c : cid) : ChatServer -> ChatServer :=
  with_rooms (alter (fun X => X ∖ {[c]}) old).

(** [if old in self._rooms and not self._rooms[old]: del self._rooms[old]] *)
Definition prune (old : string) (R : gmap string (gset cid)) : gmap string (gset cid) :=
  match R !! old with
  | Some X => if decide (X = ∅) then delete old R else R
  | None => R
  end.

Definition drop_if_empty (old : string) : ChatServer -> ChatServer :=
  with_rooms (prune old).

(** [self._rooms.setdefault(room, set()).add(c)] *)
Definition add_member (room : string) (c : cid) : ChatServer -> ChatServer :=
  with_rooms (fun R => <[room := default ∅ (R !! room) ∪ {[c]}]> R).

Definition _join_room (c : cid) (room : string) : Co unit :=
  old <- gets (fun σ => Client.room (obj σ c)) ;;
  if decide (old = Some room) then
    put_text c "info" ("You are already in room " +:+ room)
  else
    match old with
    | Some o =>
        if Py.is_empty o then ret tt
        else
          modify (discard_member o c) ;;;
          name <- gets (fun σ => Client.name (obj σ c)) ;;
          ts <- utc_ts ;;
          _broadcast o
            (text_event "info" (Py.fmt name +:+ " left room " +:+ o) ts)
            (Some c) ;;;
          modify (drop_if_empty o)
    | None => ret tt
    end ;;;
    modify (with_obj c (set_room (Some room))) ;;;
    modify (add_member room c) ;;;
    put_text c "info" ("You joined room " +:+ room) ;;;
    name <- gets (fun σ => Client.name (obj σ c)) ;;
    ts <- utc_ts ;;
    _broadcast room
      (text_event "info" (Py.fmt name +:+ " joined room " +:+ room) ts)
      (Some c).

(** [name in self._clients_by_name and self._clients_by_name[name] is not c] *)
Definition held_by_other (σ : ChatServer) (name : string) (c : cid) : bool :=
  match _clients_by_name σ !! name with
  | Some c' => negb (c' =? c)%nat
  | None => false
  end.

(** [if c.name and self._clients_by_name.get(c.name) is c:
        del self._clients_by_name[c.name]] *)
Definition release_name (c : cid) (σ : ChatServer) : ChatServer :=
  match Client.name (obj σ c) with
  | Some old =>
      if negb (Py.is_empty old)
         && bool_decide (_clients_by_name σ !! old = Some c)
      then with_names (delete old) σ
      else σ
  | None => σ
  end.

Definition _handle_hello (c : cid) (m : msg) : Co unit :=
  let name := Py.strip (Py.str (msg_get m "name" (Py.VStr ""))) in
  if Py.is_empty name || (32 <? Py.len name) || Py.any Py.isspace name then
    put_text c "error" "Invalid name (max 32 chars, no spaces)"
  else
    taken <- gets (fun σ => held_by_other σ name c) ;;
    if taken then put_text c "error" "Name already taken"
    else
      modify (release_name c) ;;;
      modify (with_obj c (set_name (Some name))) ;;;
      modify (with_names (<[name := c]>)) ;;;
      put_text c "info"
        ("You are logged in as " +:+ name +:+ ". Use join to pick a room.") ;;;
      room <- gets (fun σ => Client.room (obj σ c)) ;;
      if Py.truthy_opt room then ret tt else _join_room c DEFAULT_ROOM.

Definition _handle_join (c : cid) (m : msg) : Co unit :=
  name <- gets (fun σ => Client.name (obj σ c)) ;;
  if negb (Py.truthy_opt name) then put_text c "error" "Send hello first"
  else
    let room := Py.strip (Py.str (msg_get m "room" (Py.VStr ""))) in
    if Py.is_empty room || (40 <? Py.len room) then
      put_text c "error" "Invalid room name"
    else _join_room c room.

Definition _handle_msg (c : cid) (m : msg) : Co unit :=
  cl <- gets (fun σ => obj σ c) ;;
  if negb (Py.truthy_opt (Client.name cl)) then
    put_text c "error" "Send hello first"
  else if negb (Py.truthy_opt (Client.room cl)) then
    put_text c "error" "Join a room first"
  else
    let text := Py.rstrip_nl (Py.str (msg_get m "text" (Py.VStr ""))) in
    if Py.is_empty text then ret tt
    else if 2000 <? Py.len text then put_text c "error" "Message too long"
    else
      ts <- utc_ts ;;
      _broadcast (Py.fmt (Client.room cl))
        [("type", FStr "msg"); ("room", FOpt (Client.room cl));
         ("from", FOpt (Client.name cl)); ("text", FStr text); ("ts", FStr ts)]
        None.

Definition _handle_pm (c : cid) (m : msg) : Co unit :=
  name <- gets (fun σ => Client.name (obj σ c)) ;;
  if negb (Py.truthy_opt name) then put_text c "error" "Send hello first"
  else
    let to := Py.strip (Py.str (msg_get m "to" (Py.VStr ""))) in
    let text := Py.rstrip_nl (Py.str (msg_get m "text" (Py.VStr ""))) in
    if Py.is_empty to || Py.is_empty text then
      put_text c "error" "PM format: to + text"
    else
      dst <- gets (fun σ => _clients_by_name σ !! to) ;;
      match dst with
      | None => put_text c "error" ("User " +:+ to +:+ " not found")
      | Some d =>
          ts <- utc_ts ;;
          put d [("type", FStr "pm"); ("from", FOpt name);
                 ("text", FStr text); ("ts", FStr ts)] ;;;
          put_text c "info" ("PM sent -> " +:+ to)
      end.

(** [sorted(xs)] on strings. *)
Definition sorted (xs : list string) : list string :=
  merge_sort (fun a b => Is_true (String.leb a b)) xs.

Definition _handle_list_rooms (c : cid) : Co unit :=
  rooms <- gets (fun σ => sorted (elements (dom (_rooms σ)))) ;;
  ts <- utc_ts ;;
  put c [("type", FStr "room_list"); ("rooms", FList rooms); ("ts", FStr ts)].

(** [[x.name for x in xs if x.name]] *)
Definition names_of (σ : ChatServer) (xs : list cid) : list string :=
  omap (fun x =>
          match Client.name (obj σ x) with
          | Some n => if Py.is_empty n then None else Some n
          | None => None
          end) xs.

Definition _handle_list_users (c : cid) : Co unit :=
  room <- gets (fun σ => Client.room (obj σ c)) ;;
  if negb (Py.truthy_opt room) then
    ts <- utc_ts ;;
    put c [("type", FStr "user_list"); ("users", FList []); ("ts", FStr ts)]
  else
    users <- gets (fun σ =>
               sorted (names_of σ (elements (members σ (Py.fmt room))))) ;;
    ts <- utc_ts ;;
    put c [("type", FStr "user_list"); ("room", FOpt room);
           ("users", FList users); ("ts", FStr ts)].

(** [meta["from"] != c.name or meta["room"] != c.room] *)
Definition foreign (meta : FileMeta) (cl : Client.t) : bool :=
  negb (bool_decide (meta_from meta = Client.name cl))
  || negb (bool_decide (meta_room meta = Client.room cl)).

Definition _handle_file (c : cid) (m : msg) : Co unit :=
  cl <- gets (fun σ => obj σ c) ;;
  if negb (Py.truthy_opt (Client.name cl)) || negb (Py.truthy_opt (Client.room cl))
  then put_text c "error" "File transfer requires hello + join"
  else
    match m !! "type" with
    | None => raise Py.KeyError
    | Some t =>
        if Py.eq_str t "file_start" then
          let filename :=
            Py.take 200 (Py.strip (Py.str (msg_get m "filename" (Py.VStr "")))) in
          size <- to_int (Py.or (msg_get m "size" (Py.VInt 0)) (Py.VInt 0)) ;;
          if Py.is_empty filename || (size <? 0) || (200 * 1024 * 1024 <? size)
          then put_text c "error" "Invalid file (name/size)"
          else
            fid <- uuid4 ;;
            ts <- utc_ts ;;
            let meta := mkMeta (Client.name cl) (Client.room cl) filename size ts in
            modify (with_files (<[fid := meta]>)) ;;;
            ts' <- utc_ts ;;
            put c [("type", FStr "file_ack"); ("id", FStr fid); ("ts", FStr ts')] ;;;
            room <- gets (fun σ => Client.room (obj σ c)) ;;
            _broadcast (Py.fmt room) (file_start_event fid meta) (Some c)
        else if Py.eq_str t "file_chunk" then
          let fid := Py.strip (Py.str (msg_get m "id" (Py.VStr ""))) in
          found <- gets (fun σ => _files σ !! fid) ;;
          match found with
          | None => put_text c "error" "Unknown file id"
          | Some meta =>
              if foreign meta cl then put_text c "error" "Forbidden file_chunk"
              else
                seq <- to_int (Py.or (msg_get m "seq" (Py.VInt 0)) (Py.VInt 0)) ;;
                match msg_get m "data" (Py.VStr "") with
                | Py.VStr data =>
                    if 200000 <? Py.len data then
                      put_text c "error" "Chunk too large"
                    else if negb (Py.b64_valid data) then
                      put_text c "error" "Invalid base64"
                    else
                      ts <- utc_ts ;;
                      _broadcast (Py.fmt (Client.room cl))
                        [("type", FStr "file_chunk"); ("id", FStr fid);
                         ("seq", FInt seq); ("data", FStr data);
                         ("from", FOpt (Client.name cl)); ("ts", FStr ts)]
                        (Some c)
                | _ => put_text c "error" "Chunk too large"
                end
          end
        else if Py.eq_str t "file_end" then
          let fid := Py.strip (Py.str (msg_get m "id" (Py.VStr ""))) in
          found <- gets (fun σ => _files σ !! fid) ;;
          match found with
          | None => put_text c "error" "Unknown file id"
          | Some meta =>
              if foreign meta cl then put_text c "error" "Forbidden file_end"
              else
                ts <- utc_ts ;;
                _broadcast (Py.fmt (Client.room cl))
                  [("type", FStr "file_end"); ("id", FStr fid);
                   ("from", FOpt (Client.name cl)); ("ts", FStr ts)]
                  (Some c) ;;;
                modify (with_files (delete fid))
          end
        else ret tt
    end.

(** The [try] block in the loop of [_dispatcher], for the event [ev] taken
    from [self._events]. *)
Definition route (ev : Event) : Co unit :=
  let c := client ev in
  let m := ev_msg ev in
  let mtype := msg_get m "type" Py.VNone in
  if Py.eq_str mtype "hello" then _handle_hello c m
  else if Py.eq_str mtype "join" then _handle_join c m
  else if Py.eq_str mtype "msg" then _handle_msg c m
  else if Py.eq_str mtype "pm" then _handle_pm c m
  else if Py.eq_str mtype "list_rooms" then _handle_list_rooms c
  else if Py.eq_str mtype "list_users" then _handle_list_users c
  else if Py.eq_str mtype "file_start" || Py.eq_str mtype "file_chunk"
          || Py.eq_str mtype "file_end" then _handle_file c m
  else put_text c "error" ("Unknown type=" +:+ Py.str mtype).

(** The body of the loop of [_dispatcher]: the [try] block and its
    [except Exception] clause. *)
Definition dispatch (ev : Event) : Co unit :=
  try_except (route ev)
    (fun _ =>
       try_except (put_text (client ev) "error" "Server-side processing error")
                  (fun _ => ret tt)).

(** [_cleanup_client], up to the closing of the stream. *)
Definition _cleanup_client (c : cid) (σ : ChatServer) : ChatServer :=
  let σ1 :=
    match Client.room (obj σ c) with
    | Some r =>
        if Py.is_empty r then σ else drop_if_empty r (discard_member r c σ)
    | None => σ
    end in
  release_name c σ1.

(** ** The per-connection loops *)

(** What [json.loads(line.decode("utf-8"))] makes of a line. *)
Inductive decoded : Type :=
| NotJson
| NotObject
| Object (m : msg).

(** One turn of [client.reader.readline()]: the stream reader's limit is
    overrun ([ValueError]), or a line arrives, given by its length in bytes
    and its decoding. *)
Inductive incoming : Type :=
| Overrun
| Line (nbytes : Z) (body : decoded).

Inductive ctl : Type := Continue | Return.

(** [self._events.put_nowait(ev)] *)
Definition events_put_nowait (ev : Event) : Co unit :=
  fun σ =>
    if (events_maxsize <=? length (_events σ))%nat
    then Raise Py.QueueFull σ
    else Ret tt (with_events (fun q => q ++ [ev]) σ).

(** One turn of the loop of [_read_loop].  On [Overrun] the error object is
    written to the stream itself, not queued. *)
Definition _read_loop_turn (c : cid) (i : incoming) : Co ctl :=
  match i with
  | Overrun => ret Return
  | Line nbytes body =>
      if MAX_LINE_BYTES <? nbytes then
        put_text c "error" "Message is too long" ;;; ret Return
      else
        match body with
        | Object m =>
            if bool_decide (is_Some (m !! "type")) then
              try_except (events_put_nowait (mkEvent c m))
                (fun e =>
                   match e with
                   | Py.QueueFull =>
                       put_text c "error" "Server overloaded (events queue)"
                   | _ => raise e
                   end) ;;;
              ret Continue
            else
              put_text c "error" "Invalid JSON or schema" ;;; ret Continue
        | _ => put_text c "error" "Invalid JSON or schema" ;;; ret Continue
        end
  end.

(** [obj = await client.out_q.get()] of [_write_loop]: the oldest item
    leaves the queue. *)
Definition pop (cl : Client.t) : Client.t :=
  Client.mk (Client.name cl) (Client.room cl) (tail (Client.out_q cl)).

(** ** The tasks together *)

(** The dispatcher task between two steps of the event loop. *)
Inductive task : Type :=
| Idle
| Parked (c : cid) (k : ChatServer -> res unit)
| Stopped (e : Py.exn).

Definition settle (r : res unit) : ChatServer * task :=
  match r with
  | Ret _ σ => (σ, Idle)
  | Raise e σ => (σ, Stopped e)
  | Park c σ k => (σ, Parked c k)
  end.

(** Steps of the event loop: the dispatcher takes the next event or is
    resumed when the queue it waits for has room; a reader queues an event
    or an error object; a writer takes an object off its queue; a
    connection handler cleans up. *)
Inductive step : ChatServer * task -> ChatServer * task -> Prop :=
| step_dispatch σ ev evs :
    _events σ = ev :: evs ->
    step (σ, Idle) (settle (dispatch ev (with_events (fun _ => evs) σ)))
| step_resume σ c k :
    full σ c = false ->
    step (σ, Parked c k) (settle (k σ))
| step_event σ d ev :
    (length (_events σ) < events_maxsize)%nat ->
    step (σ, d) (with_events (fun q => q ++ [ev]) σ, d)
| step_put σ d c p :
    full σ c = false ->
    step (σ, d) (with_obj c (push p) σ, d)
| step_write σ d c :
    step (σ, d) (with_obj c pop σ, d)
| step_cleanup σ d c :
    step (σ, d) (_cleanup_client c σ, d).

Definition reachable (clk uuid : nat -> string) (cfg : ChatServer * task) : Prop :=
  rtc step (init clk uuid, Idle) cfg.

(** [dispatch] on each event of a list in turn, as long as none suspends. *)
Fixpoint run (evs : list Event) (σ : ChatServer) : res unit :=
  match evs with
  | [] => Ret tt σ
  | ev :: evs' =>
      match dispatch ev σ with
      | Ret _ σ' => run evs' σ'
      | r => r
      end
  end.

(** ** Vocabulary of the properties *)

(** Non-blocking delivery to one connection: the object joins the queue, or
    is dropped when the queue is full. *)
Definition deliver (p : payload) (cl : Client.t) : Client.t :=
  if (Client.maxsize <=? length (Client.out_q cl))%nat then cl else push p cl.

(** [σ'] is [σ] but for the [Client] objects. *)
Definition same_but_objects (σ σ' : ChatServer) : Prop :=
  _events σ' = _events σ /\ _rooms σ' = _rooms σ
  /\ _clients_by_name σ' = _clients_by_name σ /\ _files σ' = _files σ
  /\ clock σ' = clock σ /\ ticks σ' = ticks σ
  /\ uuid4_hex σ' = uuid4_hex σ /\ draws σ' = draws σ.

(** [σ'] is [σ] after the delivery of [p] to the connections of [X] other
    than [exclude], and nothing else. *)
Definition delivered (X : gset cid) (exclude : option cid) (p : payload)
    (σ σ' : ChatServer) : Prop :=
  same_but_objects σ σ'
  /\ forall x : cid,
       obj σ' x = if bool_decide (x ∈ X /\ exclude <> Some x)
                  then deliver p (obj σ x) else obj σ x.

(** The three registry invariants. *)
Definition rooms_nonempty (σ : ChatServer) : Prop :=
  forall (r : string) (X : gset cid), _rooms σ !! r = Some X -> X <> ∅.

Definition one_room (σ : ChatServer) : Prop :=
  forall (r : string) (X : gset cid) (c : cid),
    _rooms σ !! r = Some X -> c ∈ X -> Client.room (obj σ c) = Some r.

Definition names_symmetric (σ : ChatServer) : Prop :=
  forall (n : string) (c : cid),
    _clients_by_name σ !! n = Some c -> Client.name (obj σ c) = Some n.

(** No room and no name is the empty string: the handlers test names and
    rooms by truth value, which an empty string fails. *)
Definition no_blank_keys (σ : ChatServer) : Prop :=
  _rooms σ !! "" = None /\ _clients_by_name σ !! "" = None.

Definition registry_inv (σ : ChatServer) : Prop :=
  rooms_nonempty σ /\ one_room σ /\ names_symmetric σ /\ no_blank_keys σ.

(** [σ'] has the rooms, the names and the identity of every connection that
    [σ] has. *)
Definition same_registry (σ σ' : ChatServer) : Prop :=
  _rooms σ' = _rooms σ /\ _clients_by_name σ' = _clients_by_name σ
  /\ forall x : cid,
       Client.name (obj σ' x) = Client.name (obj σ x)
       /\ Client.room (obj σ' x) = Client.room (obj σ x).

(** [I] holds wherever the coroutine ends or is suspended, provided it
    holds of the state on which it is resumed. *)
Fixpoint preserves {A : Type} (I : ChatServer -> Prop) (r : res A) : Prop :=
  match r with
  | Ret _ σ => I σ
  | Raise _ σ => I σ
  | Park _ σ k => I σ /\ forall σ', I σ' -> preserves I (k σ')
  end.

(** The coroutine raises nothing, now or after any resumption: it runs to
    its end, waiting at most for queues to have room. *)
Fixpoint settles {A : Type} (r : res A) : Prop :=
  match r with
  | Ret _ _ => True
  | Raise _ _ => False
  | Park _ _ k => forall σ', settles (k σ')
  end.

Definition task_settles (d : task) : Prop :=
  match d with
  | Idle => True
  | Parked _ k => forall σ', settles (k σ')
  | Stopped _ => False
  end.

Definition task_preserves (I : ChatServer -> Prop) (d : task) : Prop :=
  match d with
  | Parked _ k => forall σ', I σ' -> preserves I (k σ')
  | _ => True
  end.

(** The objects of a queue whose ["type"] is [ty]. *)
Definition of_type (ty : string) (q : list payload) : list payload :=
  filter (fun p => payload_get p "type" = Some (FStr ty)) q.

(** The state a broadcast leaves (a broadcast always returns). *)
Definition after_broadcast (room : string) (p : payload) (exclude : option cid)
    (σ : ChatServer) : ChatServer :=
  match _broadcast room p exclude σ with
  | Ret _ σ' => σ'
  | Raise _ σ' => σ'
  | Park _ σ' _ => σ'
  end.

(** The notices of [_join_room]. *)
Definition left_notice (name : option string) (old ts : string) : payload :=
  text_event "info" (Py.fmt name +:+ " left room " +:+ old) ts.

Definition joined_notice (name : option string) (room ts : string) : payload :=
  text_event "info" (Py.fmt name +:+ " joined room " +:+ room) ts.

(** [_join_room] in three phases.  [leave]: the connection is taken out of
    its old room, the members left there are sent the notice and the room
    is deleted if empty.  [enter]: the connection records its new room and
    is added to it.  [announce]: the members of the new room are sent the
    notice.  No phase can suspend; the acknowledgement to the joining
    connection, which can, comes between the last two. *)
Definition leave (c : cid) (σ : ChatServer) : ChatServer :=
  match Client.room (obj σ c) with
  | Some o =>
      if Py.is_empty o then σ
      else
        drop_if_empty o
          (after_broadcast o
             (left_notice (Client.name (obj σ c)) o (clock σ (ticks σ)))
             (Some c) (tick (discard_member o c σ)))
  | None => σ
  end.

Definition enter (room : string) (c : cid) (σ : ChatServer) : ChatServer :=
  add_member room c (with_obj c (set_room (Some room)) σ).

Definition announce (room : string) (c : cid) : Co unit :=
  name <- gets (fun σ => Client.name (obj σ c)) ;;
  ts <- utc_ts ;;
  _broadcast room (joined_notice name room ts) (Some c).

(** [_handle_hello] once the name is accepted.  [rename]: the old name of
    the connection is released and the new one bound to it.  [auto_join]:
    the connection is put in the default room if it has none. *)
Definition rename (c : cid) (name : string) (σ : ChatServer) : ChatServer :=
  with_names (<[name := c]>) (with_obj c (set_name (Some name)) (release_name c σ)).

Definition auto_join (c : cid) : Co unit :=
  room <- gets (fun σ => Client.room (obj σ c)) ;;
  if Py.truthy_opt room then ret tt else _join_room c DEFAULT_ROOM.

(** The name a [hello] asks for. *)
Definition requested_name (m : msg) : string :=
  Py.strip (Py.str (msg_get m "name" (Py.VStr ""))).

(** [name] is not empty, not longer than 32 characters and without
    whitespace. *)
Definition valid_name (name : string) : bool :=
  negb (Py.is_empty name || (32 <? Py.len name) || Py.any Py.isspace name).

(** The coroutine [r], started on [σ], puts [p] on the queue of [c] and goes
    on as [rest]: at once when the queue has room; otherwise it is suspended
    with [σ] untouched, and does so on the state it is resumed on. *)
Definition sends_then {A : Type} (c : cid) (p : payload) (rest : Co A)
    (σ : ChatServer) (r : res A) : Prop :=
  if full σ c
  then exists k, r = Park c σ k /\ forall σ', k σ' = rest (with_obj c (push p) σ')
  else r = rest (with_obj c (push p) σ).

(** The coroutine [r], started on [σ], reads the clock and sends
    [{"type": ty, "text": text, "ts": ..}] to [c]; it does nothing else. *)
Definition replies (c : cid) (ty text : string) (σ : ChatServer) (r : res unit) : Prop :=
  sends_then c (text_event ty text (clock σ (ticks σ))) (ret tt) (tick σ) r.

(** The text a [msg] or [pm] carries, as the handlers read it. *)
Definition msg_text (m : msg) : string :=
  Py.rstrip_nl (Py.str (msg_get m "text" (Py.VStr ""))).

(** The object a [msg] is relayed as. *)
Definition msg_event (room name : option string) (text ts : string) : payload :=
  [("type", FStr "msg"); ("room", FOpt room); ("from", FOpt name);
   ("text", FStr text); ("ts", FStr ts)].

(** The recipient a [pm] names, as the handler reads it, and the object
    the [pm] is delivered as. *)
Definition pm_to (m : msg) : string :=
  Py.strip (Py.str (msg_get m "to" (Py.VStr ""))).

Definition pm_event (name : option string) (text ts : string) : payload :=
  [("type", FStr "pm"); ("from", FOpt name); ("text", FStr text); ("ts", FStr ts)].

(** The transfer a [file_chunk] or [file_end] names, the sequence number a
    [file_chunk] carries, both as the handler reads them, and the objects
    they are relayed as. *)
Definition file_id (m : msg) : string :=
  Py.strip (Py.str (msg_get m "id" (Py.VStr ""))).

Definition chunk_seq (m : msg) : Py.exn + Z :=
  Py.int (Py.or (msg_get m "seq" (Py.VInt 0)) (Py.VInt 0)).

Definition chunk_event (fid : string) (seq : Z) (data : string)
    (name : option string) (ts : string) : payload :=
  [("type", FStr "file_chunk"); ("id", FStr fid); ("seq", FInt seq);
   ("data", FStr data); ("from", FOpt name); ("ts", FStr ts)].

Definition end_event (fid : string) (name : option string) (ts : string) : payload :=
  [("type", FStr "file_end"); ("id", FStr fid); ("from", FOpt name);
   ("ts", FStr ts)].

(** The message types the dispatcher routes. *)
Definition known_type (v : Py.value) : bool :=
  Py.eq_str v "hello" || Py.eq_str v "join" || Py.eq_str v "msg"
  || Py.eq_str v "pm" || Py.eq_str v "list_rooms" || Py.eq_str v "list_users"
  || Py.eq_str v "file_start" || Py.eq_str v "file_chunk"
  || Py.eq_str v "file_end".

(** A line that is not JSON, not a JSON object, or an object without
    ["type"]. *)
Definition bad_schema (body : decoded) : Prop :=
  match body with
  | Object m => m !! "type" = None
  | _ => True
  end.

(** ** Vocabulary of the further properties *)

(** The room a [join] asks for, and what [_handle_join] accepts. *)
Definition requested_room (m : msg) : string :=
  Py.strip (Py.str (msg_get m "room" (Py.VStr ""))).

Definition valid_room (room : string) : bool :=
  negb (Py.is_empty room || (40 <? Py.len room)).

(** Like [preserves], for a property that may speak of the queues: the
    coroutine is only resumed on a state in which the queue it waits for
    has room. *)
Fixpoint guarded {A : Type} (I : ChatServer -> Prop) (r : res A) : Prop :=
  match r with
  | Ret _ σ => I σ
  | Raise _ σ => I σ
  | Park c σ k => I σ /\ forall σ', I σ' -> full σ' c = false -> guarded I (k σ')
  end.

Definition task_guarded (I : ChatServer -> Prop) (d : task) : Prop :=
  match d with
  | Parked c k => forall σ', I σ' -> full σ' c = false -> guarded I (k σ')
  | _ => True
  end.

(** Every name of the name table, every room of the room map, and every
    name and room a connection carries has passed the checks of [hello] and
    [join]. *)
Definition names_valid (σ : ChatServer) : Prop :=
  forall (n : string) (c : cid),
    _clients_by_name σ !! n = Some c -> valid_name n = true.

Definition rooms_valid (σ : ChatServer) : Prop :=
  forall (r : string) (X : gset cid),
    _rooms σ !! r = Some X -> valid_room r = true.

Definition identities_valid (σ : ChatServer) : Prop :=
  forall x : cid,
    (forall n, Client.name (obj σ x) = Some n -> valid_name n = true)
    /\ (forall r, Client.room (obj σ x) = Some r -> valid_room r = true).

(** A transfer record as [file_start] makes them. *)
Definition meta_valid (meta : FileMeta) : Prop :=
  (exists n, meta_from meta = Some n /\ valid_name n = true)
  /\ (exists r, meta_room meta = Some r /\ valid_room r = true)
  /\ meta_filename meta <> ""
  /\ Py.len (meta_filename meta) <= 200
  /\ 0 <= meta_size meta <= 200 * 1024 * 1024.

Definition files_valid (σ : ChatServer) : Prop :=
  forall (fid : string) (meta : FileMeta),
    _files σ !! fid = Some meta -> meta_valid meta.

(** No queue is over its capacity. *)
Definition queues_bounded (σ : ChatServer) : Prop :=
  (forall x : cid, (length (Client.out_q (obj σ x)) <= Client.maxsize)%nat)
  /\ (length (_events σ) <= events_maxsize)%nat.

Definition healthy (σ : ChatServer) : Prop :=
  names_valid σ /\ rooms_valid σ /\ identities_valid σ /\ files_valid σ
  /\ queues_bounded σ.

(** The events of [evs], dispatched in turn from [σ] with the event queue
    empty, are each handled without suspension and without exception. *)
Fixpoint quiet_run (evs : list Event) (σ : ChatServer) : bool :=
  match _events σ with
  | [] =>
      match evs with
      | [] => true
      | ev :: evs' =>
          match dispatch ev σ with
          | Ret _ σ' => quiet_run evs' σ'
          | _ => false
          end
      end
  | _ :: _ => false
  end.

(** What [_handle_file] reads from a [file_start], the acknowledgement it
    sends, and the state and the rest of the coroutine at the moment it
    sends it: the record is stored, the room is yet to be told. *)
Definition file_name_of (m : msg) : string :=
  Py.take 200 (Py.strip (Py.str (msg_get m "filename" (Py.VStr "")))).

Definition file_size_of (m : msg) : Py.exn + Z :=
  Py.int (Py.or (msg_get m "size" (Py.VInt 0)) (Py.VInt 0)).

Definition ack_event (fid ts : string) : payload :=
  [("type", FStr "file_ack"); ("id", FStr fid); ("ts", FStr ts)].

Definition recorded (fid : string) (meta : FileMeta) (σ : ChatServer) : ChatServer :=
  tick (with_files (<[fid := meta]>) (tick (draw σ))).

Definition announce_file (c : cid) (fid : string) (meta : FileMeta) : Co unit :=
  room <- gets (fun σ => Client.room (obj σ c)) ;;
  _broadcast (Py.fmt room) (file_start_event fid meta) (Some c).

(** A step of the server after which the queue of [c] is still full: the
    peer of [c] reads nothing. *)
Definition step_while_full (c : cid) (cfg cfg' : ChatServer * task) : Prop :=
  step cfg cfg' /\ full cfg'.1 c = true.

(** The dispatcher waits on the queue of [c]. *)
Definition is_parked_on (c : cid) (d : task) : bool :=
  match d with
  | Parked c' _ => (c' =? c)%nat
  | _ => false
  end.

(** ** Concrete scenarios *)

Module Scenario.
Definition clk (n : nat) : string := "t" +:+ pretty n.
Definition uuid (n : nat) : string := "f" +:+ pretty n.
Definition start : ChatServer := init clk uuid.

(** Three connections. *)
Definition A : cid := 1%nat.
Definition B : cid := 2%nat.
Definition C : cid := 3%nat.

Definition ev (c : cid) (fields : list (string * Py.value)) : Event :=
  mkEvent c (list_to_map fields).
Definition hello (c : cid) (n : string) : Event :=
  ev c [("type", Py.VStr "hello"); ("name", Py.VStr n)].
Definition join (c : cid) (r : string) : Event :=
  ev c [("type", Py.VStr "join"); ("room", Py.VStr r)].
Definition say (c : cid) (t : string) : Event :=
  ev c [("type", Py.VStr "msg"); ("text", Py.VStr t)].

Definition pm (c : cid) (to t : string) : Event :=
  ev c [("type", Py.VStr "pm"); ("to", Py.VStr to); ("text", Py.VStr t)].
Definition list_rooms (c : cid) : Event :=
  ev c [("type", Py.VStr "list_rooms")].
Definition file_start (c : cid) (filename : string) (size : Z) : Event :=
  ev c [("type", Py.VStr "file_start"); ("filename", Py.VStr filename);
        ("size", Py.VInt size)].
Definition file_chunk (c : cid) (fid : string) (seq : Py.value) (data : string) : Event :=
  ev c [("type", Py.VStr "file_chunk"); ("id", Py.VStr fid); ("seq", seq);
        ("data", Py.VStr data)].
Definition file_end (c : cid) (fid : string) : Event :=
  ev c [("type", Py.VStr "file_end"); ("id", Py.VStr fid)].

(** The state after a run of events, when none suspends or raises. *)
Definition after (evs : list Event) (σ : ChatServer) : ChatServer :=
  match run evs σ with
  | Ret _ σ' => σ'
  | _ => σ
  end.
End Scenario.

(** A reader queues a [hello], the dispatcher handles it. *)
Definition hello_queued : ChatServer :=
  with_events (fun q => q ++ [Scenario.hello Scenario.A "alice"]) Scenario.start.

Definition hello_handled : ChatServer * task :=
  settle (dispatch (Scenario.hello Scenario.A "alice")
            (with_events (fun _ => []) hello_queued)).

(** [alice] and [bob] are in the lobby; [bob] has asked for the room list
    198 times and read nothing, so its queue holds 200 objects. *)
Definition bob_swamped : ChatServer :=
  Scenario.after
    ([Scenario.hello Scenario.A "alice"; Scenario.hello Scenario.B "bob"]
     ++ replicate 198 (Scenario.list_rooms Scenario.B))
    Scenario.start.

Definition newline : string := String "010"%char EmptyString.

(** [alice] and [bob] have said [hello]; both are in the lobby. *)
Definition alice_and_bob : ChatServer :=
  Scenario.after
    [Scenario.hello Scenario.A "alice"; Scenario.hello Scenario.B "bob"]
    Scenario.start.

(** A [pm] to [bob] without a [text] field. *)
Definition pm_without_text : msg :=
  list_to_map [("type", Py.VStr "pm"); ("to", Py.VStr "bob")].

(** [alice] starts a transfer in the lobby and then takes the name
    [alice2]; a second connection takes the name [alice]; [carol] is in
    the lobby too. *)
Definition name_taken_over : ChatServer :=
  Scenario.after
    [Scenario.hello Scenario.A "alice"; Scenario.hello Scenario.C "carol";
     Scenario.file_start Scenario.A "a.txt" 3;
     Scenario.hello Scenario.A "alice2"; Scenario.hello Scenario.B "alice"]
    Scenario.start.

(** [alice], in the lobby with [carol], has started a transfer. *)
Definition transfer_started : ChatServer :=
  Scenario.after
    [Scenario.hello Scenario.A "alice"; Scenario.hello Scenario.C "carol";
     Scenario.file_start Scenario.A "a.txt" 3]
    Scenario.start.

(** A [file_start] whose size is not a number. *)
Definition file_start_bad_size : Event :=
  Scenario.ev Scenario.A
    [("type", Py.VStr "file_start"); ("filename", Py.VStr "a.txt");
     ("size", Py.VStr "abc")].

(** [bob] reads nothing and its queue is full; [alice] sends [bob] a [pm]
    and then says [hi] to the room; the dispatcher takes the [pm]. *)
Definition pm_queued : ChatServer :=
  with_events (fun q => q ++ [Scenario.say Scenario.A "hi"])
    (with_events (fun q => q ++ [Scenario.pm Scenario.A "bob" "x"]) bob_swamped).

Definition pm_to_swamped : ChatServer * task :=
  settle (dispatch (Scenario.pm Scenario.A "bob" "x")
            (with_events (fun _ => [Scenario.say Scenario.A "hi"]) pm_queued)).

(** An event of a type the dispatcher does not route. *)
Definition unknown_from_bob : Event :=
  Scenario.ev Scenario.B [("type", Py.VStr "dance")].
(** ** The builtins on edge inputs *)

Example int_of_nan : Py.int (Py.VFloat "nan" Py.NaN) = inl Py.ValueError.
Proof. reflexivity. Qed.

Example int_of_inf :
  Py.int (Py.VFloat "-inf" (Py.Inf true)) = inl Py.OverflowError.
Proof. reflexivity. Qed.

Example int_of_float : Py.int (Py.VFloat "-2.5" (Py.Finite (-5) (-1))) = inr (-2).
Proof. reflexivity. Qed.

Example int_of_digits :
  Py.int (Py.VStr (String.concat "" (replicate 4301 "1"))) = inl Py.ValueError
  /\ Py.int (Py.VStr (String.concat "" (replicate 4300 "0"))) = inr 0.
Proof. split; by vm_compute. Qed.

Example int_of_separator :
  Py.int_of_str (String "028"%char "7") = None
  /\ Py.int_of_str (String "160"%char " +1_0 ") = Some 10.
Proof. split; by vm_compute. Qed.

Example b64_padding :
  Py.b64_valid "QUJD" = true /\ Py.b64_valid "QUJD=" = true
  /\ Py.b64_valid "QQ==" = true /\ Py.b64_valid "QQ=" = false
  /\ Py.b64_valid "QQ==QQ==" = false /\ Py.b64_valid "=QUJD" = false
  /\ Py.b64_valid "QU JD" = false /\ Py.b64_valid "" = true.
Proof. repeat split. Qed.


(** ** Basic facts *)

Ltac case_bd :=
  repeat match goal with
         | |- context [@bool_decide ?P ?d] =>
             destruct (@bool_decide_reflect P d)
         end.

Lemma obj_with_obj σ c f x :
  obj (with_obj c f σ) x = if decide (x = c) then f (obj σ c) else obj σ x.
Proof.
  unfold obj, with_obj; simpl.
  destruct (decide (x = c)) as [->|Hne].
  - by rewrite lookup_insert_eq.
  - by rewrite lookup_insert_ne.
Qed.

Lemma same_but_objects_refl σ : same_but_objects σ σ.
Proof. by repeat split. Qed.

Lemma same_but_objects_trans σ1 σ2 σ3 :
  same_but_objects σ1 σ2 -> same_but_objects σ2 σ3 -> same_but_objects σ1 σ3.
Proof.
  unfold same_but_objects; intros (?&?&?&?&?&?&?&?) (?&?&?&?&?&?&?&?).
  repeat split; congruence.
Qed.

Lemma same_but_objects_with_obj σ c f : same_but_objects σ (with_obj c f σ).
Proof. by repeat split. Qed.

Lemma full_spec σ c :
  full σ c = (Client.maxsize <=? length (Client.out_q (obj σ c)))%nat.
Proof. reflexivity. Qed.

Lemma deliver_full σ c p : full σ c = true -> deliver p (obj σ c) = obj σ c.
Proof. unfold deliver; rewrite <- full_spec; by intros ->. Qed.

Lemma deliver_room σ c p :
  full σ c = false -> deliver p (obj σ c) = push p (obj σ c).
Proof. unfold deliver; rewrite <- full_spec; by intros ->. Qed.

(** ** The room broadcast *)

Lemma broadcast_turn_spec p exclude cl σ :
  exists σ',
    broadcast_turn p exclude cl σ = Ret tt σ'
    /\ same_but_objects σ σ'
    /\ forall x, obj σ' x =
         if bool_decide (x = cl /\ exclude <> Some x)
         then deliver p (obj σ x) else obj σ x.
Proof.
  unfold broadcast_turn.
  destruct (decide (exclude = Some cl)) as [He|He].
  - exists σ; split; [done|]. split; [apply same_but_objects_refl|].
    intros x. rewrite bool_decide_eq_false_2; [done|]. intros [-> ?]; done.
  - unfold try_except, put_nowait.
    destruct (full σ cl) eqn:Hf; simpl.
    + exists σ; split; [done|]. split; [apply same_but_objects_refl|].
      intros x. case_bool_decide as Hx; [|done].
      destruct Hx as [-> _]. by rewrite deliver_full.
    + eexists; split; [done|]. split; [apply same_but_objects_with_obj|].
      intros x. rewrite obj_with_obj.
      case_bool_decide as Hx.
      * destruct Hx as [-> _]. rewrite decide_True by done.
        by rewrite deliver_room.
      * rewrite decide_False; [done|]. intros ->. apply Hx; split; [done|].
        congruence.
Qed.

Lemma for_each_broadcast p exclude (l : list cid) :
  NoDup l ->
  forall σ, exists σ',
    for_each l (broadcast_turn p exclude) σ = Ret tt σ'
    /\ same_but_objects σ σ'
    /\ forall x, obj σ' x =
         if bool_decide (x ∈ l /\ exclude <> Some x)
         then deliver p (obj σ x) else obj σ x.
Proof.
  induction 1 as [|a l Ha Hl IH]; intros σ.
  - exists σ; split; [done|]. split; [apply same_but_objects_refl|].
    intros x. rewrite bool_decide_eq_false_2; [done|].
    intros [Hx _]. by apply elem_of_nil in Hx.
  - destruct (broadcast_turn_spec p exclude a σ) as (σ1 & E1 & S1 & O1).
    destruct (IH σ1) as (σ2 & E2 & S2 & O2).
    exists σ2. split.
    { simpl. unfold bind. rewrite E1. simpl. exact E2. }
    split; [by eapply same_but_objects_trans|].
    intros x. rewrite O2, O1.
    case_bd; try reflexivity; exfalso; set_solver.
Qed.

Lemma broadcast_spec room p exclude σ :
  exists σ',
    _broadcast room p exclude σ = Ret tt σ'
    /\ delivered (members σ room) exclude p σ σ'.
Proof.
  destruct (for_each_broadcast p exclude (elements (members σ room))
              (NoDup_elements _) σ) as (σ' & E & S & O).
  exists σ'. split; [exact E|]. split; [exact S|].
  intros x. rewrite O.
  case_bd; try reflexivity; exfalso; set_solver.
Qed.

(** ** The registry invariant *)

Lemma same_registry_refl σ : same_registry σ σ.
Proof. by repeat split. Qed.

Lemma same_registry_trans σ1 σ2 σ3 :
  same_registry σ1 σ2 -> same_registry σ2 σ3 -> same_registry σ1 σ3.
Proof.
  intros (R1 & N1 & O1) (R2 & N2 & O2). split; [congruence|].
  split; [congruence|]. intros x. destruct (O1 x), (O2 x). split; congruence.
Qed.

Lemma registry_inv_same σ σ' :
  same_registry σ σ' -> registry_inv σ -> registry_inv σ'.
Proof.
  intros (R & N & O) (I1 & I2 & I3 & I4 & I5).
  unfold registry_inv, rooms_nonempty, one_room, names_symmetric, no_blank_keys.
  rewrite R, N. repeat split; try done.
  - intros r X c Hr Hc. rewrite (proj2 (O c)). eauto.
  - intros n c Hn. rewrite (proj1 (O c)). eauto.
Qed.

Lemma deliver_name p cl : Client.name (deliver p cl) = Client.name cl.
Proof. unfold deliver. by destruct (_ <=? _)%nat. Qed.

Lemma deliver_room_field p cl : Client.room (deliver p cl) = Client.room cl.
Proof. unfold deliver. by destruct (_ <=? _)%nat. Qed.

Lemma delivered_same_registry X e p σ σ' :
  delivered X e p σ σ' -> same_registry σ σ'.
Proof.
  intros ((_ & R & N & _) & O). split; [done|]. split; [done|].
  intros x. rewrite O. destruct (bool_decide _); [|done].
  by rewrite deliver_name, deliver_room_field.
Qed.

Lemma same_registry_push c p σ : same_registry σ (with_obj c (push p) σ).
Proof.
  split; [done|]. split; [done|]. intros x. rewrite obj_with_obj.
  destruct (decide (x = c)) as [->|]; done.
Qed.

Lemma same_registry_pop c σ : same_registry σ (with_obj c pop σ).
Proof.
  split; [done|]. split; [done|]. intros x. rewrite obj_with_obj.
  destruct (decide (x = c)) as [->|]; done.
Qed.

Lemma same_registry_tick σ : same_registry σ (tick σ).
Proof. by repeat split. Qed.

Lemma same_registry_draw σ : same_registry σ (draw σ).
Proof. by repeat split. Qed.

Lemma same_registry_events f σ : same_registry σ (with_events f σ).
Proof. by repeat split. Qed.

Lemma same_registry_files f σ : same_registry σ (with_files f σ).
Proof. by repeat split. Qed.

Lemma registry_inv_init clk uuid : registry_inv (init clk uuid).
Proof.
  unfold registry_inv, rooms_nonempty, one_room, names_symmetric, no_blank_keys.
  simpl. repeat split; intros *; by rewrite ?lookup_empty.
Qed.

(** Releasing the name of [c]: afterwards no name refers to [c]. *)
Lemma release_name_names c σ n :
  _clients_by_name (release_name c σ) !! n =
    if bool_decide (Client.name (obj σ c) = Some n /\ n <> ""
                    /\ _clients_by_name σ !! n = Some c)
    then None else _clients_by_name σ !! n.
Proof.
  unfold release_name.
  destruct (Client.name (obj σ c)) as [old|] eqn:Hn.
  - destruct old as [|a old]; simpl.
    + case_bd; [naive_solver|done].
    + case_bd; simpl.
      * destruct a0 as (E & _ & _). injection E as <-.
        by rewrite lookup_delete_eq.
      * destruct (decide (n = String a old)) as [->|Hne]; [naive_solver|].
        by rewrite lookup_delete_ne.
      * naive_solver.
      * done.
  - case_bd; [naive_solver|done].
Qed.

Lemma release_name_rest c σ :
  _rooms (release_name c σ) = _rooms σ
  /\ _files (release_name c σ) = _files σ
  /\ objects (release_name c σ) = objects σ.
Proof.
  unfold release_name. destruct (Client.name (obj σ c)); [|done].
  destruct (_ && _); done.
Qed.

Lemma obj_release_name c σ x : obj (release_name c σ) x = obj σ x.
Proof. unfold obj. by rewrite (proj2 (proj2 (release_name_rest c σ))). Qed.

Lemma registry_inv_release c σ :
  registry_inv σ -> registry_inv (release_name c σ).
Proof.
  intros (I1 & I2 & I3 & I4 & I5).
  destruct (release_name_rest c σ) as (R & _ & _).
  unfold registry_inv, rooms_nonempty, one_room, names_symmetric, no_blank_keys.
  rewrite R. repeat split; try done.
  - intros r X x. rewrite obj_release_name. eauto.
  - intros n x. rewrite release_name_names, obj_release_name.
    destruct (bool_decide _); [done|]. eauto.
  - rewrite release_name_names. destruct (bool_decide _); done.
Qed.

Lemma registry_inv_released c σ n :
  registry_inv σ -> _clients_by_name (release_name c σ) !! n <> Some c.
Proof.
  intros (_ & _ & I3 & _ & I5). rewrite release_name_names.
  case_bd; [done|]. intros Hn. apply n0. split; [by apply I3|].
  split; [|done]. intros ->. by rewrite I5 in Hn.
Qed.

(** Leaving a room: [discard] then the deletion of the room if empty. *)
Lemma leave_lookup (R : gmap string (gset cid)) o c r :
  prune o (alter (fun X => X ∖ {[c]}) o R) !! r =
    if decide (r = o)
    then match R !! o with
         | Some X => if decide (X ∖ {[c]} = ∅) then None else Some (X ∖ {[c]})
         | None => None
         end
    else R !! r.
Proof.
  unfold prune. rewrite lookup_alter_eq.
  destruct (R !! o) as [X|] eqn:Ho; simpl.
  - destruct (decide (X ∖ {[c]} = ∅)) as [He|He].
    + destruct (decide (r = o)) as [->|Hne].
      * by rewrite lookup_delete_eq.
      * by rewrite lookup_delete_ne, lookup_alter_ne.
    + destruct (decide (r = o)) as [->|Hne].
      * by rewrite lookup_alter_eq, Ho.
      * by rewrite lookup_alter_ne.
  - destruct (decide (r = o)) as [->|Hne].
    + by rewrite lookup_alter_eq, Ho.
    + by rewrite lookup_alter_ne.
Qed.

Lemma registry_inv_leave c o σ :
  registry_inv σ -> o <> "" ->
  rooms_nonempty (drop_if_empty o (discard_member o c σ))
  /\ (forall r X x, _rooms (drop_if_empty o (discard_member o c σ)) !! r = Some X ->
        x ∈ X -> Client.room (obj σ x) = Some r /\ (r = o -> x <> c))
  /\ _rooms (drop_if_empty o (discard_member o c σ)) !! "" = None.
Proof.
  intros (I1 & I2 & I3 & I4 & I5) Ho.
  unfold drop_if_empty, discard_member, rooms_nonempty; simpl.
  repeat split.
  - intros r X. rewrite leave_lookup.
    destruct (decide (r = o)) as [->|]; [|by eauto].
    destruct (_rooms σ !! o) as [Y|]; [|done].
    destruct (decide (Y ∖ {[c]} = ∅)); [done|]. by intros [= <-].
  - revert H H0. rewrite leave_lookup.
    destruct (decide (r = o)) as [->|]; [|by eauto].
    destruct (_rooms σ !! o) as [Y|] eqn:HY; [|done].
    destruct (decide (Y ∖ {[c]} = ∅)); [done|]. intros [= <-] Hx.
    apply (I2 o Y); [done|set_solver].
  - intros ->. revert H H0. rewrite leave_lookup, decide_True by done.
    destruct (_rooms σ !! o) as [Y|] eqn:HY; [|done].
    destruct (decide (Y ∖ {[c]} = ∅)); [done|]. intros [= <-] Hx. set_solver.
  - rewrite leave_lookup. by rewrite decide_False.
Qed.

(** ** Joining a room *)

Lemma broadcast_eq room p exclude σ :
  _broadcast room p exclude σ = Ret tt (after_broadcast room p exclude σ).
Proof.
  destruct (broadcast_spec room p exclude σ) as (σ' & E & _).
  unfold after_broadcast. by rewrite E.
Qed.

Lemma broadcast_delivered room p exclude σ :
  delivered (members σ room) exclude p σ (after_broadcast room p exclude σ).
Proof.
  destruct (broadcast_spec room p exclude σ) as (σ' & E & D).
  unfold after_broadcast. by rewrite E.
Qed.

Lemma bind_broadcast {B} room p exclude (f : unit -> Co B) σ :
  bind (_broadcast room p exclude) f σ = f tt (after_broadcast room p exclude σ).
Proof. unfold bind. by rewrite broadcast_eq. Qed.

Lemma join_room_same c room σ :
  Client.room (obj σ c) = Some room ->
  _join_room c room σ = put_text c "info" ("You are already in room " +:+ room) σ.
Proof.
  intros H. unfold _join_room, bind, gets; simpl. by rewrite H, decide_True.
Qed.

Lemma join_room_other c room σ :
  Client.room (obj σ c) <> Some room ->
  _join_room c room σ =
    (put_text c "info" ("You joined room " +:+ room) ;;; announce room c)
      (enter room c (leave c σ)).
Proof.
  intros H. unfold _join_room at 1. unfold bind at 1, gets at 1. simpl.
  rewrite decide_False by done.
  unfold leave. destruct (Client.room (obj σ c)) as [o|]; [|reflexivity].
  destruct o as [|a o]; [reflexivity|]. simpl.
  unfold bind at 1. unfold bind at 1. simpl.
  unfold bind at 1. simpl. unfold bind at 1. simpl.
  unfold bind at 1. simpl.
  rewrite broadcast_eq. reflexivity.
Qed.

Lemma leave_same_identity c σ x :
  Client.name (obj (leave c σ) x) = Client.name (obj σ x)
  /\ Client.room (obj (leave c σ) x) = Client.room (obj σ x).
Proof.
  unfold leave. destruct (Client.room (obj σ c)) as [o|]; [|done].
  destruct (Py.is_empty o); [done|].
  match goal with
  | |- context [after_broadcast ?r ?p ?e ?s] =>
      pose proof (delivered_same_registry _ _ _ _ _ (broadcast_delivered r p e s))
        as (_ & _ & O)
  end.
  apply (O x).
Qed.

Lemma leave_names c σ : _clients_by_name (leave c σ) = _clients_by_name σ.
Proof.
  unfold leave. destruct (Client.room (obj σ c)) as [o|]; [|done].
  destruct (Py.is_empty o); [done|].
  match goal with
  | |- context [after_broadcast ?r ?p ?e ?s] =>
      pose proof (delivered_same_registry _ _ _ _ _ (broadcast_delivered r p e s))
        as (_ & N & _)
  end.
  simpl. exact N.
Qed.

Lemma leave_rooms c σ :
  _rooms (leave c σ) =
    match Client.room (obj σ c) with
    | Some o =>
        if Py.is_empty o then _rooms σ
        else prune o (alter (fun X => X ∖ {[c]}) o (_rooms σ))
    | None => _rooms σ
    end.
Proof.
  unfold leave. destruct (Client.room (obj σ c)) as [o|]; [|done].
  destruct (Py.is_empty o); [done|].
  match goal with
  | |- context [after_broadcast ?r ?p ?e ?s] =>
      pose proof (delivered_same_registry _ _ _ _ _ (broadcast_delivered r p e s))
        as (R & _ & _)
  end.
  simpl. by rewrite R.
Qed.

Lemma is_empty_true s : Py.is_empty s = true <-> s = "".
Proof. destruct s; simpl; split; congruence. Qed.

Lemma is_empty_false s : Py.is_empty s = false <-> s <> "".
Proof. destruct s; simpl; split; congruence. Qed.

(** After [leave], [c] is a member of no room. *)
Lemma leave_inv c σ :
  registry_inv σ ->
  rooms_nonempty (leave c σ)
  /\ (forall r X x, _rooms (leave c σ) !! r = Some X -> x ∈ X ->
        Client.room (obj σ x) = Some r /\ x <> c)
  /\ _rooms (leave c σ) !! "" = None.
Proof.
  intros I. pose proof I as (I1 & I2 & I3 & I4 & I5).
  unfold rooms_nonempty. rewrite leave_rooms.
  destruct (Client.room (obj σ c)) as [o|] eqn:Hc.
  - destruct (Py.is_empty o) eqn:Ho.
    + apply is_empty_true in Ho as ->.
      split; [done|]. split; [|done].
      intros r X x Hr Hx. split; [by eauto|]. intros ->.
      rewrite (I2 _ _ _ Hr Hx) in Hc. injection Hc as ->. congruence.
    + apply is_empty_false in Ho.
      destruct (registry_inv_leave c o σ I Ho) as (L1 & L2 & L3).
      split; [exact L1|]. split; [|exact L3].
      intros r X x Hr Hx. destruct (L2 r X x Hr Hx) as [Hroom Hne].
      split; [done|]. intros ->. apply Hne; [|done]. congruence.
  - split; [done|]. split; [|done].
    intros r X x Hr Hx. split; [by eauto|]. intros ->.
    rewrite (I2 _ _ _ Hr Hx) in Hc. done.
Qed.

Lemma enter_rooms room c σ r :
  _rooms (enter room c σ) !! r =
    if decide (r = room) then Some (members σ room ∪ {[c]}) else _rooms σ !! r.
Proof.
  unfold enter, add_member, members; simpl.
  destruct (decide (r = room)) as [->|].
  - by rewrite lookup_insert_eq.
  - by rewrite lookup_insert_ne.
Qed.

Lemma enter_obj room c σ x :
  obj (enter room c σ) x =
    if decide (x = c) then set_room (Some room) (obj σ c) else obj σ x.
Proof. unfold enter, add_member. apply obj_with_obj. Qed.

Lemma registry_inv_join c room σ :
  registry_inv σ -> room <> "" -> registry_inv (enter room c (leave c σ)).
Proof.
  intros I Hroom. destruct (leave_inv c σ I) as (L1 & L2 & L3).
  destruct I as (I1 & I2 & I3 & I4 & I5).
  unfold registry_inv, rooms_nonempty, one_room, names_symmetric, no_blank_keys.
  repeat split.
  - intros r X. rewrite enter_rooms.
    destruct (decide (r = room)) as [->|]; [|by eauto].
    intros [= <-]. set_solver.
  - intros r X x. rewrite enter_rooms, enter_obj.
    destruct (decide (r = room)) as [->|Hr].
    + intros [= <-] Hx. destruct (decide (x = c)) as [->|Hxc]; [done|].
      rewrite (proj2 (leave_same_identity c σ x)).
      unfold members in Hx.
      destruct (_rooms (leave c σ) !! room) as [Y|] eqn:HY; simpl in Hx.
      * apply (L2 room Y x HY). set_solver.
      * set_solver.
    + intros HX Hx. destruct (L2 r X x HX Hx) as [Hx1 Hx2].
      rewrite decide_False by done.
      by rewrite (proj2 (leave_same_identity c σ x)).
  - intros n x. unfold enter at 1. simpl. rewrite leave_names, enter_obj.
    intros Hn. destruct (decide (x = c)) as [->|Hxc]; simpl.
    + rewrite (proj1 (leave_same_identity c σ c)). by apply I3.
    + rewrite (proj1 (leave_same_identity c σ x)). by apply I3.
  - rewrite enter_rooms. by rewrite decide_False.
  - unfold enter. simpl. by rewrite leave_names.
Qed.

(** ** Coroutines and invariants *)

Section Preserves.
Variable I : ChatServer -> Prop.
Hypothesis I_push : forall c p σ, I σ -> I (with_obj c (push p) σ).
Hypothesis I_tick : forall σ, I σ -> I (tick σ).

Lemma preserves_bind {A B} (r : res A) (f : A -> Co B) :
  preserves I r ->
  (forall a σ, I σ -> preserves I (f a σ)) ->
  preserves I (res_bind r f).
Proof.
  intros Hr Hf. induction r as [a σ|e σ|c σ k IH]; simpl in *.
  - by apply Hf.
  - done.
  - destruct Hr as [Hσ Hk]. split; [done|]. intros σ' Hσ'. by apply IH, Hk.
Qed.

Lemma preserves_catch {A} (r : res A) (h : Py.exn -> Co A) :
  preserves I r ->
  (forall e σ, I σ -> preserves I (h e σ)) ->
  preserves I (res_catch r h).
Proof.
  intros Hr Hh. induction r as [a σ|e σ|c σ k IH]; simpl in *.
  - done.
  - by apply Hh.
  - destruct Hr as [Hσ Hk]. split; [done|]. intros σ' Hσ'. by apply IH, Hk.
Qed.

Lemma preserves_put c p σ : I σ -> preserves I (put c p σ).
Proof.
  intros Hσ. unfold put. destruct (full σ c); simpl; [|by apply I_push].
  split; [done|]. intros σ' Hσ'. by apply I_push.
Qed.

Lemma preserves_put_text c ty text σ : I σ -> preserves I (put_text c ty text σ).
Proof. intros Hσ. unfold put_text, bind, utc_ts; simpl. by apply preserves_put, I_tick. Qed.

Lemma preserves_then {A B} (m : Co A) (f : A -> Co B) σ :
  preserves I (m σ) ->
  (forall a σ', I σ' -> preserves I (f a σ')) ->
  preserves I (bind m f σ).
Proof. apply preserves_bind. Qed.
End Preserves.

Lemma registry_inv_push c p σ : registry_inv σ -> registry_inv (with_obj c (push p) σ).
Proof. apply registry_inv_same, same_registry_push. Qed.

Lemma registry_inv_tick σ : registry_inv σ -> registry_inv (tick σ).
Proof. apply registry_inv_same, same_registry_tick. Qed.

Lemma registry_inv_broadcast room p e σ :
  registry_inv σ -> registry_inv (after_broadcast room p e σ).
Proof.
  apply registry_inv_same.
  eapply delivered_same_registry, broadcast_delivered.
Qed.

Lemma inv_put_text c ty text σ :
  registry_inv σ -> preserves registry_inv (put_text c ty text σ).
Proof. apply preserves_put_text; auto using registry_inv_push, registry_inv_tick. Qed.

Lemma inv_put c p σ : registry_inv σ -> preserves registry_inv (put c p σ).
Proof. apply preserves_put; auto using registry_inv_push. Qed.

Lemma inv_announce room c σ :
  registry_inv σ -> preserves registry_inv (announce room c σ).
Proof.
  intros Hσ. unfold announce, bind, gets, utc_ts; simpl.
  rewrite broadcast_eq. simpl. by apply registry_inv_broadcast, registry_inv_tick.
Qed.

Lemma inv_join_room c room σ :
  room <> "" -> registry_inv σ -> preserves registry_inv (_join_room c room σ).
Proof.
  intros Hroom Hσ.
  destruct (decide (Client.room (obj σ c) = Some room)) as [E|E].
  - rewrite join_room_same by done. by apply inv_put_text.
  - rewrite join_room_other by done.
    apply preserves_then.
    + apply inv_put_text. by apply registry_inv_join.
    + intros _ σ' Hσ'. by apply inv_announce.
Qed.

(** ** The handlers keep the registry invariant *)

Lemma rename_names c name σ n :
  _clients_by_name (rename c name σ) !! n =
    if decide (n = name) then Some c else _clients_by_name (release_name c σ) !! n.
Proof.
  unfold rename; simpl. destruct (decide (n = name)) as [->|].
  - by rewrite lookup_insert_eq.
  - by rewrite lookup_insert_ne.
Qed.

Lemma rename_obj c name σ x :
  obj (rename c name σ) x =
    if decide (x = c) then set_name (Some name) (obj σ c) else obj σ x.
Proof.
  unfold rename. change (obj (with_names ?f ?s) x) with (obj s x).
  rewrite obj_with_obj. by rewrite !obj_release_name.
Qed.

Lemma rename_rooms c name σ : _rooms (rename c name σ) = _rooms σ.
Proof. unfold rename; simpl. apply release_name_rest. Qed.

Lemma rename_files c name σ : _files (rename c name σ) = _files σ.
Proof. unfold rename; simpl. apply release_name_rest. Qed.

Lemma registry_inv_rename c name σ :
  name <> "" -> registry_inv σ -> registry_inv (rename c name σ).
Proof.
  intros Hname I. pose proof (registry_inv_released c σ) as Hrel.
  pose proof (registry_inv_release c σ I) as (_ & _ & R3 & _ & R5).
  destruct I as (I1 & I2 & I3 & I4 & I5).
  unfold registry_inv, rooms_nonempty, one_room, names_symmetric, no_blank_keys.
  rewrite rename_rooms. repeat split; try done.
  - intros r X x Hr Hx. rewrite rename_obj.
    destruct (decide (x = c)) as [->|]; simpl; eauto.
  - intros n x. rewrite rename_names, rename_obj.
    destruct (decide (n = name)) as [->|Hn].
    + intros [= ->]. by rewrite decide_True.
    + intros Hx. destruct (decide (x = c)) as [->|Hxc].
      * exfalso. eapply Hrel; [|exact Hx]. by repeat split.
      * specialize (R3 n x Hx). by rewrite obj_release_name in R3.
  - rewrite rename_names. by rewrite decide_False.
Qed.

Lemma registry_inv_cleanup c σ :
  registry_inv σ -> registry_inv (_cleanup_client c σ).
Proof.
  intros I. unfold _cleanup_client. apply registry_inv_release.
  destruct (Client.room (obj σ c)) as [r|]; [|done].
  destruct (Py.is_empty r) eqn:Hr; [done|]. apply is_empty_false in Hr.
  destruct (registry_inv_leave c r σ I Hr) as (L1 & L2 & L3).
  destruct I as (I1 & I2 & I3 & I4 & I5).
  repeat split; try done.
  intros r' X x HX Hx. by destruct (L2 r' X x HX Hx).
Qed.

Ltac inv_step :=
  match goal with
  | |- preserves registry_inv (bind _ _ _) => apply preserves_then; [|intros]
  | |- preserves registry_inv (gets _ _) => simpl; assumption
  | |- preserves registry_inv (ret _ _) => simpl; assumption
  | |- preserves registry_inv (raise _ _) => simpl; assumption
  | |- preserves registry_inv (utc_ts _) => simpl; by apply registry_inv_tick
  | |- preserves registry_inv (uuid4 _) =>
      simpl; by eapply registry_inv_same; [apply same_registry_draw|]
  | |- preserves registry_inv (put _ _ _) => by apply inv_put
  | |- preserves registry_inv (put_text _ _ _ _) => by apply inv_put_text
  | |- preserves registry_inv (_broadcast _ _ _ _) =>
      rewrite broadcast_eq; simpl; by apply registry_inv_broadcast
  | |- preserves registry_inv (modify (with_files _) _) =>
      simpl; by eapply registry_inv_same; [apply same_registry_files|]
  | |- preserves registry_inv (to_int ?v _) =>
      unfold to_int; destruct (Py.int v); simpl; assumption
  | |- preserves registry_inv ((if ?b then _ else _) _) => destruct b eqn:?
  | |- preserves registry_inv (match ?x with _ => _ end _) => destruct x eqn:?
  end.

Lemma inv_handle_hello c m σ :
  registry_inv σ -> preserves registry_inv (_handle_hello c m σ).
Proof.
  intros I. unfold _handle_hello.
  fold (requested_name m). set (name := requested_name m).
  destruct (_ || _) eqn:Hbad; [by apply inv_put_text|].
  apply preserves_then; [simpl; done|]. intros taken σ1 I1.
  destruct taken; [by apply inv_put_text|].
  change (preserves registry_inv
    ((put_text c "info"
        ("You are logged in as " +:+ name +:+ ". Use join to pick a room.")
      ;;; auto_join c) (rename c name σ1))).
  assert (name <> "") as Hname.
  { intros E. rewrite E in Hbad. done. }
  apply preserves_then.
  - apply inv_put_text. by apply registry_inv_rename.
  - intros _ σ2 I2. unfold auto_join.
    apply preserves_then; [simpl; done|]. intros room σ3 I3.
    destruct (Py.truthy_opt room); [simpl; done|].
    by apply inv_join_room.
Qed.

Lemma inv_handle_join c m σ :
  registry_inv σ -> preserves registry_inv (_handle_join c m σ).
Proof.
  intros I. unfold _handle_join.
  apply preserves_then; [simpl; done|]. intros name σ1 I1.
  destruct (negb _); [by apply inv_put_text|].
  destruct (_ || _) eqn:Hbad; [by apply inv_put_text|].
  apply inv_join_room; [|done].
  apply orb_false_iff in Hbad as [Hbad _]. by apply is_empty_false.
Qed.

Lemma inv_handle_msg c m σ :
  registry_inv σ -> preserves registry_inv (_handle_msg c m σ).
Proof. intros I. unfold _handle_msg. repeat inv_step. Qed.

Lemma inv_handle_pm c m σ :
  registry_inv σ -> preserves registry_inv (_handle_pm c m σ).
Proof. intros I. unfold _handle_pm. repeat inv_step. Qed.

Lemma inv_handle_list_rooms c σ :
  registry_inv σ -> preserves registry_inv (_handle_list_rooms c σ).
Proof. intros I. unfold _handle_list_rooms. repeat inv_step. Qed.

Lemma inv_handle_list_users c σ :
  registry_inv σ -> preserves registry_inv (_handle_list_users c σ).
Proof. intros I. unfold _handle_list_users. repeat inv_step. Qed.

Lemma inv_handle_file c m σ :
  registry_inv σ -> preserves registry_inv (_handle_file c m σ).
Proof. intros I. unfold _handle_file. repeat inv_step. Qed.

Lemma inv_route ev σ :
  registry_inv σ -> preserves registry_inv (route ev σ).
Proof.
  intros I. unfold route.
  repeat match goal with
         | |- preserves _ ((if ?b then _ else _) _) => destruct b
         end;
    auto using inv_handle_hello, inv_handle_join, inv_handle_msg,
      inv_handle_pm, inv_handle_list_rooms, inv_handle_list_users,
      inv_handle_file, inv_put_text.
Qed.

Lemma inv_dispatch ev σ :
  registry_inv σ -> preserves registry_inv (dispatch ev σ).
Proof.
  intros I. unfold dispatch, try_except.
  apply preserves_catch; [by apply inv_route|].
  intros e σ1 I1. apply preserves_catch; [by apply inv_put_text|].
  intros e' σ2 I2. simpl. done.
Qed.

(** ** The invariants along every execution *)

Lemma settle_inv (r : res unit) :
  preserves registry_inv r ->
  registry_inv (settle r).1 /\ task_preserves registry_inv (settle r).2.
Proof. destruct r as [a σ|e σ|c σ k]; simpl; [done|done|]. by intros [? ?]. Qed.

Lemma step_inv cfg cfg' :
  step cfg cfg' ->
  registry_inv cfg.1 /\ task_preserves registry_inv cfg.2 ->
  registry_inv cfg'.1 /\ task_preserves registry_inv cfg'.2.
Proof.
  destruct 1 as [σ ev evs Hev|σ c k Hroom|σ d ev Hlen|σ d c p Hroom|σ d c|σ d c];
    simpl; intros [I T].
  - apply settle_inv, inv_dispatch.
    by eapply registry_inv_same; [apply same_registry_events|].
  - by apply settle_inv, T.
  - split; [|done]. by eapply registry_inv_same; [apply same_registry_events|].
  - split; [|done]. by apply registry_inv_push.
  - split; [|done]. by eapply registry_inv_same; [apply same_registry_pop|].
  - split; [|done]. by apply registry_inv_cleanup.
Qed.

Lemma reachable_inv clk uuid cfg :
  reachable clk uuid cfg ->
  registry_inv cfg.1 /\ task_preserves registry_inv cfg.2.
Proof.
  unfold reachable. intros H.
  eapply (rtc_ind_r
            (fun cfg => registry_inv cfg.1 /\ task_preserves registry_inv cfg.2));
    [| |exact H].
  - split; [apply registry_inv_init|done].
  - intros y z _ Hstep IH. by eapply step_inv.
Qed.

(** C4. In every configuration the server can reach -- after the
    dispatcher has handled an event or is suspended in one, after a
    connection was cleaned up, after any reader or writer step -- every
    room of the room map has a member, a connection that is a member of a
    room has that room in its [room] field (so it is in one room at most),
    and every name of the name table refers to a connection whose [name]
    field is that name. *)
Theorem C4_registry_invariants (clk uuid : nat -> string) (σ : ChatServer) (d : task) :
  reachable clk uuid (σ, d) ->
  rooms_nonempty σ /\ one_room σ /\ names_symmetric σ.
Proof.
  intros H. destruct (reachable_inv clk uuid (σ, d) H) as [(I1 & I2 & I3 & _) _].
  by repeat split.
Qed.

Lemma hello_handled_reachable :
  reachable Scenario.clk Scenario.uuid (hello_handled.1, hello_handled.2).
Proof.
  unfold reachable.
  eapply rtc_l; [apply (step_event _ Idle (Scenario.hello Scenario.A "alice"));
                 unfold events_maxsize; simpl; lia|].
  eapply rtc_l; [apply (step_dispatch hello_queued (Scenario.hello Scenario.A "alice") []);
                 reflexivity|].
  fold hello_handled. destruct hello_handled. apply rtc_refl.
Qed.

Lemma C4_registry_invariants_witness :
  _rooms hello_handled.1 !! "lobby" = Some {[Scenario.A]}
  /\ rooms_nonempty hello_handled.1
  /\ one_room hello_handled.1
  /\ names_symmetric hello_handled.1.
Proof.
  split; [by vm_compute|].
  exact (C4_registry_invariants Scenario.clk Scenario.uuid
           hello_handled.1 hello_handled.2 hello_handled_reachable).
Defined.

(** ** Sending to one connection *)

Lemma put_sends_then {A} c p (f : unit -> Co A) σ :
  sends_then c p (f tt) σ (bind (put c p) f σ).
Proof.
  unfold sends_then, bind, put. destruct (full σ c); simpl; [|done].
  eexists; split; [reflexivity|]. done.
Qed.

Lemma put_text_sends_then {A} c ty text (f : unit -> Co A) σ :
  sends_then c (text_event ty text (clock σ (ticks σ))) (f tt) (tick σ)
    (bind (put_text c ty text) f σ).
Proof.
  unfold sends_then, put_text, bind, put, utc_ts; simpl.
  change (full (tick σ) c) with (full σ c).
  destruct (full σ c); simpl; [|done].
  eexists; split; [reflexivity|]. done.
Qed.

Lemma put_text_replies c ty text σ : replies c ty text σ (put_text c ty text σ).
Proof.
  unfold replies, sends_then, put_text, bind, put, utc_ts; simpl.
  change (full (tick σ) c) with (full σ c).
  destruct (full σ c); simpl; [|done].
  eexists; split; [reflexivity|]. done.
Qed.

(** ** The properties of the specification *)

(** C7. A broadcast to a room always returns, without suspending and
    without raising: nothing but the queues changes, each member of the room
    (other than the excluded connection) whose queue has room gets the
    object at the end of its queue, each member whose queue is full is left
    as it was, and so is every connection outside the room. *)
Theorem C7_broadcast_lossy (room : string) (p : payload) (exclude : option cid)
    (σ : ChatServer) :
  exists σ',
    _broadcast room p exclude σ = Ret tt σ'
    /\ same_but_objects σ σ'
    /\ forall x : cid,
         obj σ' x =
           if bool_decide (x ∈ members σ room /\ exclude <> Some x)
           then (if full σ x then obj σ x else push p (obj σ x))
           else obj σ x.
Proof.
  destruct (broadcast_spec room p exclude σ) as (σ' & E & S & O).
  exists σ'. split; [exact E|]. split; [exact S|].
  intros x. rewrite O. destruct (bool_decide _); [|done].
  unfold deliver. by rewrite <- full_spec.
Qed.

(** C9. The cleanup of a connection leaves the transfer registry as it is,
    so the record of a transfer the connection had started stays; it takes
    the connection out of the room it is in and deletes its name.  When the
    registry invariant holds, no room has the connection as a member
    afterwards and no name refers to it. *)
Theorem C9_cleanup_keeps_transfers (c : cid) (σ : ChatServer) :
  _files (_cleanup_client c σ) = _files σ
  /\ (forall fid meta,
        _files σ !! fid = Some meta -> _files (_cleanup_client c σ) !! fid = Some meta)
  /\ (forall r, Client.room (obj σ c) = Some r -> r <> "" ->
        c ∉ members (_cleanup_client c σ) r)
  /\ (forall n, Client.name (obj σ c) = Some n -> n <> "" ->
        _clients_by_name (_cleanup_client c σ) !! n <> Some c)
  /\ (registry_inv σ ->
        (forall r, c ∉ members (_cleanup_client c σ) r)
        /\ (forall n, _clients_by_name (_cleanup_client c σ) !! n <> Some c)).
Proof.
  assert (_files (_cleanup_client c σ) = _files σ) as HF.
  { unfold _cleanup_client.
    rewrite (proj1 (proj2 (release_name_rest c _))).
    destruct (Client.room (obj σ c)) as [r|]; [|done].
    by destruct (Py.is_empty r). }
  assert (forall r, _rooms (_cleanup_client c σ) !! r =
            match Client.room (obj σ c) with
            | Some o => if Py.is_empty o then _rooms σ !! r
                        else prune o (alter (fun X => X ∖ {[c]}) o (_rooms σ)) !! r
            | None => _rooms σ !! r
            end) as HR.
  { intros r. unfold _cleanup_client.
    rewrite (proj1 (release_name_rest c _)).
    destruct (Client.room (obj σ c)) as [o|]; [|done].
    by destruct (Py.is_empty o). }
  assert (forall n, _clients_by_name (_cleanup_client c σ) !! n =
            if bool_decide (Client.name (obj σ c) = Some n /\ n <> ""
                            /\ _clients_by_name σ !! n = Some c)
            then None else _clients_by_name σ !! n) as HN.
  { intros n. unfold _cleanup_client. rewrite release_name_names.
    destruct (Client.room (obj σ c)) as [o|]; [|done].
    by destruct (Py.is_empty o). }
  split; [exact HF|]. split; [by intros fid meta; rewrite HF|].
  split; [|split].
  - intros r Hr Hne. unfold members. rewrite HR, Hr.
    apply is_empty_false in Hne as Hne'. rewrite Hne', leave_lookup.
    rewrite decide_True by done.
    destruct (_rooms σ !! r) as [X|]; simpl; [|set_solver].
    destruct (decide (X ∖ {[c]} = ∅)); simpl; set_solver.
  - intros n Hn Hne. rewrite HN. case_bd; [done|]. naive_solver.
  - intros (I1 & I2 & I3 & I4 & I5). split.
    + intros r. unfold members. rewrite HR.
      destruct (Client.room (obj σ c)) as [o|] eqn:Ho.
      * destruct (Py.is_empty o) eqn:Hoe.
        { apply is_empty_true in Hoe as ->.
          destruct (_rooms σ !! r) as [X|] eqn:HX; simpl; [|set_solver].
          intros Hc. specialize (I2 r X c HX Hc). rewrite Ho in I2.
          injection I2 as <-. congruence. }
        rewrite leave_lookup. destruct (decide (r = o)) as [->|Hro].
        { destruct (_rooms σ !! o) as [X|]; simpl; [|set_solver].
          destruct (decide (X ∖ {[c]} = ∅)); simpl; set_solver. }
        destruct (_rooms σ !! r) as [X|] eqn:HX; simpl; [|set_solver].
        intros Hc. specialize (I2 r X c HX Hc). congruence.
      * destruct (_rooms σ !! r) as [X|] eqn:HX; simpl; [|set_solver].
        intros Hc. specialize (I2 r X c HX Hc). congruence.
    + intros n. rewrite HN. case_bd; [done|]. intros Hn. apply n0.
      split; [by apply I3|]. split; [|done]. intros ->. congruence.
Qed.

Lemma bind_gets {A B} (f : ChatServer -> A) (k : A -> Co B) σ :
  bind (gets f) k σ = k (f σ) σ.
Proof. reflexivity. Qed.

Lemma bind_modify {B} (g : ChatServer -> ChatServer) (k : unit -> Co B) σ :
  bind (modify g) k σ = k tt (g σ).
Proof. reflexivity. Qed.

Lemma bind_utc_ts {B} (k : string -> Co B) σ :
  bind utc_ts k σ = k (clock σ (ticks σ)) (tick σ).
Proof. reflexivity. Qed.

Lemma bind_uuid4 {B} (k : string -> Co B) σ :
  bind uuid4 k σ = k (uuid4_hex σ (draws σ)) (draw σ).
Proof. reflexivity. Qed.

Lemma truthy_opt_true o :
  Py.truthy_opt o = true <-> exists s, o = Some s /\ s <> "".
Proof.
  destruct o as [s|]; simpl.
  - rewrite negb_true_iff, is_empty_false. naive_solver.
  - naive_solver.
Qed.

Lemma handle_msg_relay c m σ n r :
  Client.name (obj σ c) = Some n -> n <> "" ->
  Client.room (obj σ c) = Some r -> r <> "" ->
  msg_text m <> "" -> Py.len (msg_text m) <= 2000 ->
  _handle_msg c m σ =
    Ret tt (after_broadcast r
              (msg_event (Some r) (Some n) (msg_text m) (clock σ (ticks σ)))
              None (tick σ)).
Proof.
  intros Hn Hne Hr Hre Ht Hl.
  unfold _handle_msg. rewrite bind_gets, Hn, Hr. simpl.
  apply is_empty_false in Hne as ->. apply is_empty_false in Hre as ->. simpl.
  fold (msg_text m). apply is_empty_false in Ht as ->.
  assert ((2000 <? Py.len (msg_text m)) = false) as -> by lia.
  rewrite bind_utc_ts. apply broadcast_eq.
Qed.

Lemma msg_relay_cases c m σ n r :
  Client.name (obj σ c) = Some n -> n <> "" ->
  Client.room (obj σ c) = Some r -> r <> "" ->
  msg_text m <> "" -> Py.len (msg_text m) <= 2000 ->
  exists σ',
    _handle_msg c m σ = Ret tt σ'
    /\ same_but_objects (tick σ) σ'
    /\ forall x : cid,
         obj σ' x =
           if bool_decide (x ∈ members σ r)
           then (if full σ x then obj σ x
                 else push (msg_event (Some r) (Some n) (msg_text m)
                              (clock σ (ticks σ))) (obj σ x))
           else obj σ x.
Proof.
  intros Hn Hne Hr Hre Ht Hl. eexists. split; [by eapply handle_msg_relay|].
  match goal with
  | |- context [after_broadcast ?room ?p ?e ?s] =>
      destruct (broadcast_delivered room p e s) as [S O]
  end.
  split; [exact S|]. intros x. rewrite O.
  change (members (tick σ) r) with (members σ r).
  change (obj (tick σ) x) with (obj σ x).
  case_bd; try reflexivity; exfalso; naive_solver.
Qed.

(** C3 (as amended). A [msg] from a connection without a name, or with a
    name and without a room, is answered with an error to the sender and
    nothing else.  Otherwise the text is the string form of the [text]
    field with the newlines at its end removed: if it is empty the event is
    dropped without a reply; if it is longer than 2000 characters the
    sender gets an error; if not, one object of type [msg] with the
    sender's room, the sender's name and that text is delivered, without
    waiting, to every member of that room whose queue has room, the members
    whose queue is full miss it, and no connection outside the room and no
    registry is touched. *)
Theorem C3_msg_relay (c : cid) (m : msg) (σ : ChatServer) :
  (Py.truthy_opt (Client.name (obj σ c)) = false ->
     replies c "error" "Send hello first" σ (_handle_msg c m σ))
  /\ (Py.truthy_opt (Client.name (obj σ c)) = true ->
      Py.truthy_opt (Client.room (obj σ c)) = false ->
      replies c "error" "Join a room first" σ (_handle_msg c m σ))
  /\ (forall n r,
        Client.name (obj σ c) = Some n -> n <> "" ->
        Client.room (obj σ c) = Some r -> r <> "" ->
        (msg_text m = "" -> _handle_msg c m σ = Ret tt σ)
        /\ (2000 < Py.len (msg_text m) ->
            replies c "error" "Message too long" σ (_handle_msg c m σ))
        /\ (msg_text m <> "" -> Py.len (msg_text m) <= 2000 ->
            exists σ',
              _handle_msg c m σ = Ret tt σ'
              /\ same_but_objects (tick σ) σ'
              /\ forall x : cid,
                   obj σ' x =
                     if bool_decide (x ∈ members σ r)
                     then (if full σ x then obj σ x
                           else push (msg_event (Some r) (Some n) (msg_text m)
                                        (clock σ (ticks σ))) (obj σ x))
                     else obj σ x)).
Proof.
  split; [|split].
  - intros Hn. unfold _handle_msg. rewrite bind_gets, Hn. simpl.
    apply put_text_replies.
  - intros Hn Hr. unfold _handle_msg. rewrite bind_gets, Hn, Hr. simpl.
    apply put_text_replies.
  - intros n r Hn Hne Hr Hre. split; [|split].
    + intros Ht. unfold _handle_msg. rewrite bind_gets, Hn, Hr. simpl.
      apply is_empty_false in Hne as ->. apply is_empty_false in Hre as ->.
      simpl. fold (msg_text m). by rewrite Ht.
    + intros Hl. unfold _handle_msg. rewrite bind_gets, Hn, Hr. simpl.
      apply is_empty_false in Hne as ->. apply is_empty_false in Hre as ->.
      simpl. fold (msg_text m).
      destruct (Py.is_empty (msg_text m)) eqn:He.
      { apply is_empty_true in He. rewrite He in Hl. unfold Py.len in Hl.
        simpl in Hl. lia. }
      assert ((2000 <? Py.len (msg_text m)) = true) as -> by lia.
      apply put_text_replies.
    + intros Ht Hl. by apply msg_relay_cases.
Qed.

Lemma C3_msg_relay_witness :
  exists σ',
    _handle_msg Scenario.A (ev_msg (Scenario.say Scenario.A "hi")) bob_swamped
      = Ret tt σ'
    /\ same_but_objects (tick bob_swamped) σ'
    /\ forall x : cid,
         obj σ' x =
           if bool_decide (x ∈ members bob_swamped "lobby")
           then (if full bob_swamped x then obj bob_swamped x
                 else push (msg_event (Some "lobby") (Some "alice")
                              (msg_text (ev_msg (Scenario.say Scenario.A "hi")))
                              (clock bob_swamped (ticks bob_swamped)))
                        (obj bob_swamped x))
           else obj bob_swamped x.
Proof.
  destruct (C3_msg_relay Scenario.A (ev_msg (Scenario.say Scenario.A "hi"))
              bob_swamped) as (_ & _ & H).
  destruct (H "alice" "lobby") as (_ & _ & H3);
    [by vm_compute|done|by vm_compute|done|].
  apply H3; [by vm_compute|by vm_compute].
Defined.

(** C3, as first stated, fails: [alice] sends the text ["hi\n"] in a room
    where the queue of [bob] is full.  The object relayed has the text
    ["hi"], and [bob], a member of the room, gets nothing. *)
Lemma C3_counterexample :
  exists σ',
    _handle_msg Scenario.A
      (ev_msg (Scenario.say Scenario.A ("hi" +:+ newline))) bob_swamped
      = Ret tt σ'
    /\ Client.name (obj bob_swamped Scenario.A) = Some "alice"
    /\ Client.room (obj bob_swamped Scenario.A) = Some "lobby"
    /\ msg_get (ev_msg (Scenario.say Scenario.A ("hi" +:+ newline))) "text"
         (Py.VStr "") = Py.VStr ("hi" +:+ newline)
    /\ Scenario.B ∈ members bob_swamped "lobby"
    /\ Client.out_q (obj σ' Scenario.B) = Client.out_q (obj bob_swamped Scenario.B)
    /\ last (Client.out_q (obj σ' Scenario.A))
         = Some (msg_event (Some "lobby") (Some "alice") "hi" "t204").
Proof.
  eexists. split; [vm_compute; reflexivity|].
  repeat split; by vm_compute.
Qed.

(** ** [hello] *)

Lemma release_name_clock c σ :
  clock (release_name c σ) = clock σ /\ ticks (release_name c σ) = ticks σ.
Proof.
  unfold release_name. destruct (Client.name (obj σ c)); [|done].
  destruct (_ && _); done.
Qed.

Lemma held_by_other_true σ name c :
  held_by_other σ name c = true <->
  exists c', _clients_by_name σ !! name = Some c' /\ c' <> c.
Proof.
  unfold held_by_other. destruct (_clients_by_name σ !! name) as [c'|].
  - rewrite negb_true_iff, Nat.eqb_neq. naive_solver.
  - naive_solver.
Qed.

Lemma handle_hello_invalid c m σ :
  valid_name (requested_name m) = false ->
  _handle_hello c m σ =
    put_text c "error" "Invalid name (max 32 chars, no spaces)" σ.
Proof.
  unfold valid_name. rewrite negb_false_iff. intros H.
  unfold _handle_hello. fold (requested_name m). by rewrite H.
Qed.

Lemma handle_hello_taken c m σ :
  valid_name (requested_name m) = true ->
  held_by_other σ (requested_name m) c = true ->
  _handle_hello c m σ = put_text c "error" "Name already taken" σ.
Proof.
  unfold valid_name. rewrite negb_true_iff. intros H T.
  unfold _handle_hello. fold (requested_name m). rewrite H, bind_gets.
  by rewrite T.
Qed.

Lemma handle_hello_ok c m σ :
  valid_name (requested_name m) = true ->
  held_by_other σ (requested_name m) c = false ->
  _handle_hello c m σ =
    (put_text c "info"
       ("You are logged in as " +:+ requested_name m
          +:+ ". Use join to pick a room.") ;;;
     auto_join c) (rename c (requested_name m) σ).
Proof.
  unfold valid_name. rewrite negb_true_iff. intros H T.
  unfold _handle_hello. fold (requested_name m). rewrite H, bind_gets.
  by rewrite T.
Qed.

(** C2 (as amended). The name a [hello] asks for is the string form of its
    [name] field with the whitespace at both ends removed.  If that name is
    empty, longer than 32 characters or has whitespace inside, or if another
    connection holds it, the sender is sent an error and nothing else
    happens.  Otherwise the name the connection held is released, the new
    name is bound to the connection, the rooms, the transfers and the other
    connections are untouched, the sender is sent an [info], and then the
    connection joins the default room if it has no room.  A [hello] with the
    name the connection holds is accepted and leaves the name table as it
    is. *)
Theorem C2_hello (c : cid) (m : msg) (σ : ChatServer) :
  (valid_name (requested_name m) = false ->
     replies c "error" "Invalid name (max 32 chars, no spaces)" σ
       (_handle_hello c m σ))
  /\ (valid_name (requested_name m) = true ->
      forall c', _clients_by_name σ !! requested_name m = Some c' -> c' <> c ->
      replies c "error" "Name already taken" σ (_handle_hello c m σ))
  /\ (valid_name (requested_name m) = true ->
      (forall c', _clients_by_name σ !! requested_name m = Some c' -> c' = c) ->
      sends_then c
        (text_event "info"
           ("You are logged in as " +:+ requested_name m
              +:+ ". Use join to pick a room.") (clock σ (ticks σ)))
        (auto_join c) (tick (rename c (requested_name m) σ))
        (_handle_hello c m σ)
      /\ _clients_by_name (rename c (requested_name m) σ) !! requested_name m
           = Some c
      /\ obj (rename c (requested_name m) σ) c
           = set_name (Some (requested_name m)) (obj σ c)
      /\ (forall old,
            Client.name (obj σ c) = Some old -> old <> "" ->
            old <> requested_name m -> _clients_by_name σ !! old = Some c ->
            _clients_by_name (rename c (requested_name m) σ) !! old = None)
      /\ (forall n,
            n <> requested_name m -> Client.name (obj σ c) <> Some n ->
            _clients_by_name (rename c (requested_name m) σ) !! n
              = _clients_by_name σ !! n)
      /\ (_clients_by_name σ !! requested_name m = Some c ->
          Client.name (obj σ c) = Some (requested_name m) ->
          _clients_by_name (rename c (requested_name m) σ) = _clients_by_name σ)
      /\ _rooms (rename c (requested_name m) σ) = _rooms σ
      /\ _files (rename c (requested_name m) σ) = _files σ
      /\ (forall x, x <> c -> obj (rename c (requested_name m) σ) x = obj σ x))
  /\ (forall σ', Py.truthy_opt (Client.room (obj σ' c)) = true ->
        auto_join c σ' = Ret tt σ')
  /\ (forall σ', Py.truthy_opt (Client.room (obj σ' c)) = false ->
        auto_join c σ' = _join_room c DEFAULT_ROOM σ').
Proof.
  set (name := requested_name m).
  split; [|split; [|split; [|split]]].
  - intros H. rewrite handle_hello_invalid by done. apply put_text_replies.
  - intros H c' Hc' Hne. rewrite handle_hello_taken; [apply put_text_replies|done|].
    apply held_by_other_true. eauto.
  - intros H Hfree.
    assert (held_by_other σ name c = false) as T.
    { destruct (held_by_other σ name c) eqn:E; [|done].
      apply held_by_other_true in E as (c' & Hc' & Hne). by apply Hfree in Hc'. }
    split.
    { rewrite handle_hello_ok by done. fold name.
      pose proof (put_text_sends_then c "info"
        ("You are logged in as " +:+ name +:+ ". Use join to pick a room.")
        (fun _ => auto_join c) (rename c name σ)) as P.
      unfold rename in P at 1 2. simpl in P.
      destruct (release_name_clock c σ) as [-> ->] in P. exact P. }
    split; [by rewrite rename_names, decide_True|].
    split; [by rewrite rename_obj, decide_True|].
    split.
    { intros old Ho Hoe Hon Hold. rewrite rename_names, decide_False by done.
      rewrite release_name_names. rewrite bool_decide_eq_true_2; done. }
    split.
    { intros n Hn Hcn. rewrite rename_names, decide_False by done.
      rewrite release_name_names. rewrite bool_decide_eq_false_2; [done|].
      naive_solver. }
    split.
    { intros Hheld Hname. apply map_eq. intros n. rewrite rename_names.
      destruct (decide (n = name)) as [->|Hn]; [done|].
      rewrite release_name_names. rewrite bool_decide_eq_false_2; [done|].
      intros (E & _). congruence. }
    split; [apply rename_rooms|]. split; [apply rename_files|].
    intros x Hx. by rewrite rename_obj, decide_False.
  - intros σ' H. unfold auto_join. rewrite bind_gets. by rewrite H.
  - intros σ' H. unfold auto_join. rewrite bind_gets. by rewrite H.
Qed.

Lemma C2_hello_witness :
  sends_then Scenario.A
    (text_event "info" "You are logged in as bob. Use join to pick a room." "t0")
    (auto_join Scenario.A)
    (tick (rename Scenario.A "bob" Scenario.start))
    (_handle_hello Scenario.A (ev_msg (Scenario.hello Scenario.A "bob"))
       Scenario.start)
  /\ _clients_by_name (rename Scenario.A "bob" Scenario.start) !! "bob"
       = Some Scenario.A.
Proof.
  destruct (C2_hello Scenario.A (ev_msg (Scenario.hello Scenario.A "bob"))
              Scenario.start) as (_ & _ & H & _).
  destruct H as (H1 & H2 & _); [by vm_compute| |].
  - intros c'. vm_compute. discriminate.
  - split; [exact H1|exact H2].
Defined.

(** C2, as first stated, fails: the name [" bob "] has whitespace after
    the conversion to a string, yet the [hello] is accepted, under the name
    ["bob"], and no error is sent. *)
Lemma C2_counterexample :
  exists σ',
    _handle_hello Scenario.A (ev_msg (Scenario.hello Scenario.A " bob "))
      Scenario.start = Ret tt σ'
    /\ Py.any Py.isspace
         (Py.str (msg_get (ev_msg (Scenario.hello Scenario.A " bob ")) "name"
                    (Py.VStr ""))) = true
    /\ _clients_by_name σ' !! "bob" = Some Scenario.A
    /\ Client.name (obj σ' Scenario.A) = Some "bob"
    /\ of_type "error" (Client.out_q (obj σ' Scenario.A)) = [].
Proof.
  eexists. split; [vm_compute; reflexivity|].
  repeat split; by vm_compute.
Qed.

(** ** [pm] *)

(** C8 (as amended). A [pm] from a named connection whose recipient (the
    [to] field, trimmed) or text (the [text] field, newlines at the end
    removed) is empty is answered with a format error.  Otherwise, if no
    connection holds the recipient's name the sender is sent a
    user-not-found error and nothing else happens; if a connection holds it,
    the [pm] object, with the sender's name and that text, is put on the
    queue of that connection (the dispatcher waits while that queue is
    full), then the sender is sent an [info]; no other queue and no room is
    involved. *)
Theorem C8_pm (c : cid) (m : msg) (σ : ChatServer) (n : string) :
  Client.name (obj σ c) = Some n -> n <> "" ->
  (pm_to m = "" \/ msg_text m = "" ->
     replies c "error" "PM format: to + text" σ (_handle_pm c m σ))
  /\ (pm_to m <> "" -> msg_text m <> "" ->
      _clients_by_name σ !! pm_to m = None ->
      replies c "error" ("User " +:+ pm_to m +:+ " not found") σ
        (_handle_pm c m σ))
  /\ (pm_to m <> "" -> msg_text m <> "" ->
      forall d, _clients_by_name σ !! pm_to m = Some d ->
      sends_then d (pm_event (Some n) (msg_text m) (clock σ (ticks σ)))
        (put_text c "info" ("PM sent -> " +:+ pm_to m)) (tick σ)
        (_handle_pm c m σ))
  /\ (forall σ',
        replies c "info" ("PM sent -> " +:+ pm_to m) σ'
          (put_text c "info" ("PM sent -> " +:+ pm_to m) σ')).
Proof.
  intros Hn Hne.
  assert (forall k : Co unit,
    (if negb (Py.truthy_opt (Some n)) then put_text c "error" "Send hello first"
     else k) = k) as Hnamed.
  { intros k. simpl. by apply is_empty_false in Hne as ->. }
  split; [|split; [|split]].
  - intros H. unfold _handle_pm. rewrite bind_gets, Hn, Hnamed.
    fold (pm_to m) (msg_text m).
    assert (Py.is_empty (pm_to m) || Py.is_empty (msg_text m) = true) as ->.
    { apply orb_true_iff. rewrite !is_empty_true. done. }
    apply put_text_replies.
  - intros Hto Htext Hnone. unfold _handle_pm. rewrite bind_gets, Hn, Hnamed.
    fold (pm_to m) (msg_text m).
    apply is_empty_false in Hto as ->. apply is_empty_false in Htext as ->.
    simpl. rewrite bind_gets, Hnone. apply put_text_replies.
  - intros Hto Htext d Hd. unfold _handle_pm. rewrite bind_gets, Hn, Hnamed.
    fold (pm_to m) (msg_text m).
    apply is_empty_false in Hto as ->. apply is_empty_false in Htext as ->.
    simpl. rewrite bind_gets, Hd, bind_utc_ts.
    apply (put_sends_then d _ (fun _ => put_text c "info" ("PM sent -> " +:+ pm_to m))).
  - intros σ'. apply put_text_replies.
Qed.

Lemma C8_pm_witness :
  _clients_by_name alice_and_bob !! "bob" = Some Scenario.B
  /\ sends_then Scenario.B
       (pm_event (Some "alice")
          (msg_text (ev_msg (Scenario.pm Scenario.A "bob" "secret")))
          (clock alice_and_bob (ticks alice_and_bob)))
       (put_text Scenario.A "info"
          ("PM sent -> " +:+ pm_to (ev_msg (Scenario.pm Scenario.A "bob" "secret"))))
       (tick alice_and_bob)
       (_handle_pm Scenario.A (ev_msg (Scenario.pm Scenario.A "bob" "secret"))
          alice_and_bob).
Proof.
  split; [by vm_compute|].
  destruct (C8_pm Scenario.A (ev_msg (Scenario.pm Scenario.A "bob" "secret"))
              alice_and_bob "alice") as (_ & _ & H & _);
    [by vm_compute|done|].
  apply H; by vm_compute.
Defined.

(** C8, as first stated, fails: [alice] sends [bob], who is connected, a
    [pm] without text.  Nothing is put on the queue of [bob]; [alice] gets a
    format error. *)
Lemma C8_counterexample :
  exists σ',
    _handle_pm Scenario.A pm_without_text alice_and_bob = Ret tt σ'
    /\ Client.name (obj alice_and_bob Scenario.A) = Some "alice"
    /\ _clients_by_name alice_and_bob !! "bob" = Some Scenario.B
    /\ Client.out_q (obj σ' Scenario.B) = Client.out_q (obj alice_and_bob Scenario.B)
    /\ last (Client.out_q (obj σ' Scenario.A))
         = Some (text_event "error" "PM format: to + text" "t6").
Proof.
  eexists. split; [vm_compute; reflexivity|].
  repeat split; by vm_compute.
Qed.

(** ** [join] *)

Lemma members_discard o c σ r :
  members (discard_member o c σ) r =
    if decide (r = o) then members σ o ∖ {[c]} else members σ r.
Proof.
  unfold members, discard_member; simpl.
  destruct (decide (r = o)) as [->|Hne].
  - rewrite lookup_alter_eq. destruct (_rooms σ !! o); simpl; [done|set_solver].
  - by rewrite lookup_alter_ne.
Qed.

Lemma leave_skip c σ :
  Py.truthy_opt (Client.room (obj σ c)) = false -> leave c σ = σ.
Proof.
  unfold leave. destruct (Client.room (obj σ c)) as [o|]; [|done]. simpl.
  rewrite negb_false_iff. by intros ->.
Qed.

Lemma leave_lookup_room c σ o r :
  Client.room (obj σ c) = Some o -> o <> "" ->
  _rooms (leave c σ) !! r =
    if decide (r = o)
    then (if decide (members σ o ∖ {[c]} = ∅) then None
          else Some (members σ o ∖ {[c]}))
    else _rooms σ !! r.
Proof.
  intros Ho Hne. rewrite leave_rooms, Ho.
  apply is_empty_false in Hne as ->. rewrite leave_lookup.
  destruct (decide (r = o)) as [->|]; [|done].
  unfold members. destruct (_rooms σ !! o) as [X|]; simpl.
  - done.
  - rewrite decide_True; [done|set_solver].
Qed.

Lemma leave_obj c σ o x :
  Client.room (obj σ c) = Some o -> o <> "" ->
  obj (leave c σ) x =
    if bool_decide (x ∈ members σ o /\ x <> c)
    then (if full σ x then obj σ x
          else push (left_notice (Client.name (obj σ c)) o (clock σ (ticks σ)))
                 (obj σ x))
    else obj σ x.
Proof.
  intros Ho Hne. unfold leave. rewrite Ho.
  apply is_empty_false in Hne as ->.
  match goal with
  | |- context [after_broadcast ?room ?p ?e ?s] =>
      destruct (broadcast_delivered room p e s) as [_ O]
  end.
  change (obj (drop_if_empty o ?s) x) with (obj s x). rewrite O.
  change (members (tick ?s) o) with (members s o).
  rewrite members_discard, decide_True by done.
  change (obj (tick (discard_member o c σ)) x) with (obj σ x).
  case_bd; try reflexivity; exfalso.
  - apply n. set_solver.
  - apply n. destruct a as [? ?]. split; [set_solver|congruence].
Qed.

Lemma leave_ticks c σ o :
  Client.room (obj σ c) = Some o -> o <> "" ->
  ticks (leave c σ) = S (ticks σ) /\ clock (leave c σ) = clock σ.
Proof.
  intros Ho Hne. unfold leave. rewrite Ho.
  apply is_empty_false in Hne as ->.
  match goal with
  | |- context [after_broadcast ?room ?p ?e ?s] =>
      destruct (broadcast_delivered room p e s) as [(_&_&_&_&C&T&_) _]
  end.
  simpl. by rewrite C, T.
Qed.

Lemma announce_spec room c τ :
  exists τ',
    announce room c τ = Ret tt τ'
    /\ same_but_objects (tick τ) τ'
    /\ forall x : cid,
         obj τ' x =
           if bool_decide (x ∈ members τ room /\ x <> c)
           then (if full τ x then obj τ x
                 else push (joined_notice (Client.name (obj τ c)) room
                              (clock τ (ticks τ))) (obj τ x))
           else obj τ x.
Proof.
  unfold announce. rewrite bind_gets, bind_utc_ts, broadcast_eq.
  eexists. split; [reflexivity|].
  match goal with
  | |- context [after_broadcast ?r ?p ?e ?s] =>
      destruct (broadcast_delivered r p e s) as [S O]
  end.
  split; [exact S|]. intros x. rewrite O.
  change (members (tick τ) room) with (members τ room).
  change (obj (tick τ) x) with (obj τ x).
  case_bd; try reflexivity; exfalso.
  - apply n. destruct a. split; [done|congruence].
  - apply n. destruct a. split; [done|congruence].
Qed.

(** C5 (as amended). [_join_room] for the room the connection is in sends
    that connection an [info] and does nothing else.  For another room it
    goes through these steps.  [leave]: if the connection has a room, it is
    taken out of it, the members that remain are sent the [left] notice
    without waiting (a member whose queue is full misses it), and the room
    is deleted if no member remains.  [enter]: the room field of the
    connection is set and the connection is added to the new room, created
    if absent.  Then the connection is sent its acknowledgement, and
    [announce] sends the [joined] notice to the other members of the new
    room, again without waiting and missing the members whose queue is
    full. *)
Theorem C5_join_room (c : cid) (room : string) (σ : ChatServer) :
  (Client.room (obj σ c) = Some room ->
     replies c "info" ("You are already in room " +:+ room) σ
       (_join_room c room σ))
  /\ (Client.room (obj σ c) <> Some room ->
      sends_then c
        (text_event "info" ("You joined room " +:+ room)
           (clock (leave c σ) (ticks (leave c σ))))
        (announce room c) (tick (enter room c (leave c σ)))
        (_join_room c room σ)
      /\ _rooms (enter room c (leave c σ)) !! room
           = Some (members (leave c σ) room ∪ {[c]})
      /\ (forall r, r <> room ->
            _rooms (enter room c (leave c σ)) !! r = _rooms (leave c σ) !! r)
      /\ obj (enter room c (leave c σ)) c
           = set_room (Some room) (obj (leave c σ) c)
      /\ (forall x, x <> c -> obj (enter room c (leave c σ)) x = obj (leave c σ) x))
  /\ (Py.truthy_opt (Client.room (obj σ c)) = false -> leave c σ = σ)
  /\ (forall o, Client.room (obj σ c) = Some o -> o <> "" ->
        (forall r,
           _rooms (leave c σ) !! r =
             if decide (r = o)
             then (if decide (members σ o ∖ {[c]} = ∅) then None
                   else Some (members σ o ∖ {[c]}))
             else _rooms σ !! r)
        /\ (forall x,
              obj (leave c σ) x =
                if bool_decide (x ∈ members σ o /\ x <> c)
                then (if full σ x then obj σ x
                      else push (left_notice (Client.name (obj σ c)) o
                                   (clock σ (ticks σ))) (obj σ x))
                else obj σ x))
  /\ (forall τ, exists τ',
        announce room c τ = Ret tt τ'
        /\ same_but_objects (tick τ) τ'
        /\ forall x : cid,
             obj τ' x =
               if bool_decide (x ∈ members τ room /\ x <> c)
               then (if full τ x then obj τ x
                     else push (joined_notice (Client.name (obj τ c)) room
                                  (clock τ (ticks τ))) (obj τ x))
               else obj τ x).
Proof.
  split; [|split; [|split; [|split]]].
  - intros H. rewrite join_room_same by done. apply put_text_replies.
  - intros H. split.
    { rewrite join_room_other by done.
      apply (put_text_sends_then c "info" ("You joined room " +:+ room)
               (fun _ => announce room c) (enter room c (leave c σ))). }
    split; [by rewrite enter_rooms, decide_True|].
    split; [by intros r Hr; rewrite enter_rooms, decide_False|].
    split; [by rewrite enter_obj, decide_True|].
    intros x Hx. by rewrite enter_obj, decide_False.
  - apply leave_skip.
  - intros o Ho Hne. split.
    + intros r. by apply leave_lookup_room.
    + intros x. by apply leave_obj.
  - apply announce_spec.
Qed.

Lemma C5_join_room_witness :
  Client.room (obj alice_and_bob Scenario.A) = Some "lobby"
  /\ _rooms (leave Scenario.A alice_and_bob) !! "lobby"
       = (if decide (members alice_and_bob "lobby" ∖ {[Scenario.A]} = ∅) then None
          else Some (members alice_and_bob "lobby" ∖ {[Scenario.A]}))
  /\ _rooms (enter "room1" Scenario.A (leave Scenario.A alice_and_bob)) !! "room1"
       = Some (members (leave Scenario.A alice_and_bob) "room1" ∪ {[Scenario.A]}).
Proof.
  destruct (C5_join_room Scenario.A "room1" alice_and_bob)
    as (_ & H2 & _ & H4 & _).
  split; [by vm_compute|]. split.
  - destruct (H4 "lobby") as [Hr _]; [by vm_compute|done|].
    specialize (Hr "lobby"). by rewrite decide_True in Hr.
  - destruct H2 as (_ & Hroom & _); [by vm_compute|]. exact Hroom.
Defined.

(** C5, as first stated, fails: [alice] leaves the lobby for [room1] while
    the queue of [bob], who stays in the lobby, is full.  [bob] gets no
    notice of the departure. *)
Lemma C5_counterexample :
  exists σ',
    _join_room Scenario.A "room1" bob_swamped = Ret tt σ'
    /\ Client.name (obj bob_swamped Scenario.A) = Some "alice"
    /\ Client.room (obj bob_swamped Scenario.A) = Some "lobby"
    /\ Scenario.B ∈ members bob_swamped "lobby"
    /\ members σ' "lobby" = {[Scenario.B]}
    /\ members σ' "room1" = {[Scenario.A]}
    /\ Client.out_q (obj σ' Scenario.B) = Client.out_q (obj bob_swamped Scenario.B).
Proof.
  eexists. split; [vm_compute; reflexivity|].
  repeat split; by vm_compute.
Qed.

(** ** File transfers *)

Lemma foreign_true meta cl :
  foreign meta cl = true <->
  meta_from meta <> Client.name cl \/ meta_room meta <> Client.room cl.
Proof.
  unfold foreign. rewrite orb_true_iff, !negb_true_iff, !bool_decide_eq_false.
  done.
Qed.

Lemma foreign_false meta cl :
  foreign meta cl = false <->
  meta_from meta = Client.name cl /\ meta_room meta = Client.room cl.
Proof.
  unfold foreign. rewrite orb_false_iff, !negb_false_iff, !bool_decide_eq_true.
  done.
Qed.

Lemma truthy_some s : s <> "" -> Py.truthy_opt (Some s) = true.
Proof. intros H. simpl. by apply is_empty_false in H as ->. Qed.

Ltac eval_eqb :=
  repeat match goal with
         | |- context [String.eqb ?a ?b] =>
             let v := eval vm_compute in (String.eqb a b) in
             change (String.eqb a b) with v
         end.

Ltac file_ready m Hn Hne Hr Hre Ht :=
  unfold _handle_file;
  rewrite bind_gets, Hn, Hr;
  rewrite (truthy_some _ Hne), (truthy_some _ Hre);
  change (negb true || negb true) with false; cbv iota;
  rewrite Ht; unfold Py.eq_str; eval_eqb; cbv iota;
  fold (file_id m); rewrite bind_gets.

Lemma handle_file_chunk_relay c m σ n r meta seq data :
  Client.name (obj σ c) = Some n -> n <> "" ->
  Client.room (obj σ c) = Some r -> r <> "" ->
  m !! "type" = Some (Py.VStr "file_chunk") ->
  _files σ !! file_id m = Some meta ->
  meta_from meta = Some n -> meta_room meta = Some r ->
  chunk_seq m = inr seq ->
  msg_get m "data" (Py.VStr "") = Py.VStr data ->
  Py.len data <= 200000 -> Py.b64_valid data = true ->
  _handle_file c m σ =
    Ret tt (after_broadcast r
              (chunk_event (file_id m) seq data (Some n) (clock σ (ticks σ)))
              (Some c) (tick σ)).
Proof.
  intros Hn Hne Hr Hre Ht Hf Hfrom Hroom Hseq Hdata Hlen Hb64.
  file_ready m Hn Hne Hr Hre Ht. rewrite Hf.
  assert (foreign meta (obj σ c) = false) as ->.
  { apply foreign_false. by rewrite Hn, Hr. }
  unfold chunk_seq in Hseq. unfold to_int at 1. rewrite Hseq.
  unfold bind at 1, ret at 1. simpl res_bind.
  rewrite Hdata. assert ((200000 <? Py.len data) = false) as -> by lia.
  rewrite Hb64. change (negb true) with false. cbv iota.
  rewrite bind_utc_ts. apply broadcast_eq.
Qed.

Lemma handle_file_end_relay c m σ n r meta :
  Client.name (obj σ c) = Some n -> n <> "" ->
  Client.room (obj σ c) = Some r -> r <> "" ->
  m !! "type" = Some (Py.VStr "file_end") ->
  _files σ !! file_id m = Some meta ->
  meta_from meta = Some n -> meta_room meta = Some r ->
  _handle_file c m σ =
    Ret tt (with_files (delete (file_id m))
              (after_broadcast r
                 (end_event (file_id m) (Some n) (clock σ (ticks σ)))
                 (Some c) (tick σ))).
Proof.
  intros Hn Hne Hr Hre Ht Hf Hfrom Hroom.
  file_ready m Hn Hne Hr Hre Ht. rewrite Hf.
  assert (foreign meta (obj σ c) = false) as ->.
  { apply foreign_false. by rewrite Hn, Hr. }
  rewrite bind_utc_ts. rewrite bind_broadcast. reflexivity.
Qed.

Lemma relay_spec r p c σ :
  same_but_objects σ (after_broadcast r p (Some c) σ)
  /\ forall x : cid,
       obj (after_broadcast r p (Some c) σ) x =
         if bool_decide (x ∈ members σ r /\ x <> c)
         then (if full σ x then obj σ x else push p (obj σ x))
         else obj σ x.
Proof.
  destruct (broadcast_delivered r p (Some c) σ) as [S O].
  split; [exact S|]. intros x. rewrite O.
  case_bd; try reflexivity; exfalso.
  - apply n. destruct a. split; [done|congruence].
  - apply n. destruct a. split; [done|congruence].
Qed.

(** X18. The relay of a transfer.  A [file_chunk] or [file_end] from a
    connection without a name or a room, or naming a transfer that is not
    in the registry, or naming one whose recorded uploader name or room is
    not the sender's name or room at that moment, is answered with an error
    to the sender and nothing else: nothing is relayed and the registry is
    untouched.  A [file_chunk] that passes these checks, with a sequence
    number [int()] accepts and data that is a string of at most 200000
    characters the strict base64 decoder accepts, is relayed to the other
    members of the room whose queue has room, with the data as received
    and the sequence number as [int()] gives it (an integer is relayed as
    it is).  A [file_end] that passes the checks is relayed in the same way
    and the record is deleted, so that the id is absent afterwards. *)
Theorem X18_file_relay (c : cid) (m : msg) (σ : ChatServer) :
  (Py.truthy_opt (Client.name (obj σ c)) = false
   \/ Py.truthy_opt (Client.room (obj σ c)) = false ->
   replies c "error" "File transfer requires hello + join" σ (_handle_file c m σ))
  /\ (forall n r,
        Client.name (obj σ c) = Some n -> n <> "" ->
        Client.room (obj σ c) = Some r -> r <> "" ->
        (_files σ !! file_id m = None ->
           (m !! "type" = Some (Py.VStr "file_chunk") ->
              replies c "error" "Unknown file id" σ (_handle_file c m σ))
           /\ (m !! "type" = Some (Py.VStr "file_end") ->
               replies c "error" "Unknown file id" σ (_handle_file c m σ)))
        /\ (forall meta,
              _files σ !! file_id m = Some meta ->
              meta_from meta <> Some n \/ meta_room meta <> Some r ->
              (m !! "type" = Some (Py.VStr "file_chunk") ->
                 replies c "error" "Forbidden file_chunk" σ (_handle_file c m σ))
              /\ (m !! "type" = Some (Py.VStr "file_end") ->
                  replies c "error" "Forbidden file_end" σ (_handle_file c m σ)))
        /\ (forall meta,
              _files σ !! file_id m = Some meta ->
              meta_from meta = Some n -> meta_room meta = Some r ->
              (m !! "type" = Some (Py.VStr "file_chunk") ->
               forall seq data,
                 chunk_seq m = inr seq ->
                 msg_get m "data" (Py.VStr "") = Py.VStr data ->
                 Py.len data <= 200000 -> Py.b64_valid data = true ->
                 exists σ',
                   _handle_file c m σ = Ret tt σ'
                   /\ same_but_objects (tick σ) σ'
                   /\ forall x : cid,
                        obj σ' x =
                          if bool_decide (x ∈ members σ r /\ x <> c)
                          then (if full σ x then obj σ x
                                else push (chunk_event (file_id m) seq data (Some n)
                                             (clock σ (ticks σ))) (obj σ x))
                          else obj σ x)
              /\ (m !! "type" = Some (Py.VStr "file_end") ->
                  exists σ',
                    _handle_file c m σ = Ret tt σ'
                    /\ _files σ' = delete (file_id m) (_files σ)
                    /\ _files σ' !! file_id m = None
                    /\ _rooms σ' = _rooms σ
                    /\ _clients_by_name σ' = _clients_by_name σ
                    /\ forall x : cid,
                         obj σ' x =
                           if bool_decide (x ∈ members σ r /\ x <> c)
                           then (if full σ x then obj σ x
                                 else push (end_event (file_id m) (Some n)
                                              (clock σ (ticks σ))) (obj σ x))
                           else obj σ x)))
  /\ (forall k : Z, m !! "seq" = Some (Py.VInt k) -> chunk_seq m = inr k).
Proof.
  split; [|split].
  - intros H. unfold _handle_file. rewrite bind_gets.
    assert (negb (Py.truthy_opt (Client.name (obj σ c)))
            || negb (Py.truthy_opt (Client.room (obj σ c))) = true) as ->.
    { destruct H as [-> | ->]; simpl; [done|]. apply orb_true_r. }
    apply put_text_replies.
  - intros n r Hn Hne Hr Hre. split; [|split].
    + intros Hf. split; intros Ht; file_ready m Hn Hne Hr Hre Ht;
        rewrite Hf; apply put_text_replies.
    + intros meta Hf Hforeign.
      assert (foreign meta (obj σ c) = true) as Hfo.
      { apply foreign_true. by rewrite Hn, Hr. }
      split; intros Ht; file_ready m Hn Hne Hr Hre Ht;
        rewrite Hf, Hfo; apply put_text_replies.
    + intros meta Hf Hfrom Hroom. split.
      * intros Ht seq data Hseq Hdata Hlen Hb64. eexists.
        split; [by eapply handle_file_chunk_relay|].
        apply (relay_spec r _ c (tick σ)).
      * intros Ht. eexists.
        split; [by eapply handle_file_end_relay|].
        match goal with
        | |- context [after_broadcast r ?p (Some c) (tick σ)] =>
            destruct (relay_spec r p c (tick σ)) as [(_&R&N&F&_) O]
        end.
        simpl. rewrite F. split; [done|].
        split; [apply lookup_delete_eq|].
        split; [exact R|]. split; [exact N|]. exact O.
  - intros k Hk. unfold chunk_seq, msg_get. rewrite Hk. simpl.
    unfold Py.or. simpl. destruct (k =? 0) eqn:E; simpl; [|done].
    apply Z.eqb_eq in E. by subst.
Qed.

Lemma X18_file_relay_witness :
  exists σ',
    _handle_file Scenario.A
      (ev_msg (Scenario.file_chunk Scenario.A "f0" (Py.VInt 4) "QUJD"))
      transfer_started = Ret tt σ'
    /\ same_but_objects (tick transfer_started) σ'
    /\ forall x : cid,
         obj σ' x =
           if bool_decide (x ∈ members transfer_started "lobby" /\ x <> Scenario.A)
           then (if full transfer_started x then obj transfer_started x
                 else push
                        (chunk_event
                           (file_id (ev_msg (Scenario.file_chunk Scenario.A "f0"
                                               (Py.VInt 4) "QUJD")))
                           4 "QUJD" (Some "alice")
                           (clock transfer_started (ticks transfer_started)))
                        (obj transfer_started x))
           else obj transfer_started x.
Proof.
  destruct (X18_file_relay Scenario.A
              (ev_msg (Scenario.file_chunk Scenario.A "f0" (Py.VInt 4) "QUJD"))
              transfer_started) as (_ & H & _).
  destruct (H "alice" "lobby") as (_ & _ & H3);
    [by vm_compute|done|by vm_compute|done|].
  destruct (H3 (mkMeta (Some "alice") (Some "lobby") "a.txt" 3 "t6")) as [H4 _];
    [by vm_compute|done|done|].
  apply H4; by vm_compute.
Defined.

(** C1. The code fails the claim: the owner of a transfer is looked up by
    name, not by connection.  The first connection started the transfer
    [f0] as [alice] and has since said [hello] as [alice2]; the second
    connection has then said [hello] as [alice].  A [file_chunk] of the
    second connection for [f0] is accepted: it is sent no error, and the
    chunk is relayed to the other members of the room, [carol] and the
    first connection, as coming from [alice].  A [file_end] of the second
    connection deletes the record.  The first connection, which started the
    transfer, is refused. *)
Theorem C1_transfer_taken_over :
  let chunk c := Scenario.file_chunk c "f0" (Py.VInt 7) "QUJD" in
  let relayed := chunk_event "f0" 7 "QUJD" (Some "alice") "t12" in
  _files transfer_started !! "f0"
    = Some (mkMeta (Some "alice") (Some "lobby") "a.txt" 3 "t6")
  /\ Client.name (obj transfer_started Scenario.A) = Some "alice"
  /\ Client.name (obj transfer_started Scenario.B) = None
  /\ _files name_taken_over = _files transfer_started
  /\ Client.name (obj name_taken_over Scenario.A) = Some "alice2"
  /\ Client.name (obj name_taken_over Scenario.B) = Some "alice"
  /\ (exists σ',
        dispatch (chunk Scenario.B) name_taken_over = Ret tt σ'
        /\ Client.out_q (obj σ' Scenario.B)
             = Client.out_q (obj name_taken_over Scenario.B)
        /\ Client.out_q (obj σ' Scenario.C)
             = Client.out_q (obj name_taken_over Scenario.C) ++ [relayed]
        /\ Client.out_q (obj σ' Scenario.A)
             = Client.out_q (obj name_taken_over Scenario.A) ++ [relayed])
  /\ (exists σ',
        dispatch (Scenario.file_end Scenario.B "f0") name_taken_over = Ret tt σ'
        /\ _files σ' !! "f0" = None
        /\ Client.out_q (obj σ' Scenario.B)
             = Client.out_q (obj name_taken_over Scenario.B))
  /\ replies Scenario.A "error" "Forbidden file_chunk" name_taken_over
       (dispatch (chunk Scenario.A) name_taken_over)
  /\ replies Scenario.A "error" "Forbidden file_end" name_taken_over
       (dispatch (Scenario.file_end Scenario.A "f0") name_taken_over).
Proof.
  cbv zeta.
  do 6 (split; [by vm_compute|]).
  split; [eexists; split; [vm_compute; reflexivity|repeat split; by vm_compute]|].
  split; [eexists; split; [vm_compute; reflexivity|repeat split; by vm_compute]|].
  split; by vm_compute.
Qed.

(** ** The sender of a [msg] *)

(** C10 (as amended). When a connection with a name, in a room of which it
    is a member, sends a [msg] with a text that is accepted, the broadcast
    excludes no one: the sender is offered the very object the other
    members are offered, by the same delivery, so it is added to the
    sender's queue unless that queue is full.  The notices of a join and
    the relay of a file chunk, in contrast, leave the queue of the
    connection they come from as it is. *)
Theorem C10_msg_reaches_sender (c : cid) (m : msg) (σ : ChatServer) (n r : string) :
  Client.name (obj σ c) = Some n -> n <> "" ->
  Client.room (obj σ c) = Some r -> r <> "" ->
  msg_text m <> "" -> Py.len (msg_text m) <= 2000 ->
  c ∈ members σ r ->
  (exists σ',
     _handle_msg c m σ = Ret tt σ'
     /\ obj σ' c =
          (if full σ c then obj σ c
           else push (msg_event (Some r) (Some n) (msg_text m) (clock σ (ticks σ)))
                  (obj σ c))
     /\ forall x, x ∈ members σ r ->
          obj σ' x =
            (if full σ x then obj σ x
             else push (msg_event (Some r) (Some n) (msg_text m) (clock σ (ticks σ)))
                    (obj σ x)))
  /\ (forall room τ, exists τ', announce room c τ = Ret tt τ' /\ obj τ' c = obj τ c)
  /\ (forall τ, Client.out_q (obj (leave c τ) c) = Client.out_q (obj τ c))
  /\ (forall m' meta seq data,
        m' !! "type" = Some (Py.VStr "file_chunk") ->
        _files σ !! file_id m' = Some meta ->
        meta_from meta = Some n -> meta_room meta = Some r ->
        chunk_seq m' = inr seq ->
        msg_get m' "data" (Py.VStr "") = Py.VStr data ->
        Py.len data <= 200000 -> Py.b64_valid data = true ->
        exists σ', _handle_file c m' σ = Ret tt σ' /\ obj σ' c = obj σ c).
Proof.
  intros Hn Hne Hr Hre Ht Hl Hc.
  split; [|split; [|split]].
  - destruct (msg_relay_cases c m σ n r Hn Hne Hr Hre Ht Hl) as (σ' & E & _ & O).
    exists σ'. split; [exact E|]. split.
    + rewrite O. by rewrite bool_decide_eq_true_2.
    + intros x Hx. rewrite O. by rewrite bool_decide_eq_true_2.
  - intros room τ. destruct (announce_spec room c τ) as (τ' & E & _ & O).
    exists τ'. split; [exact E|]. rewrite O.
    rewrite bool_decide_eq_false_2; [done|]. by intros [_ ?].
  - intros τ. unfold leave.
    destruct (Client.room (obj τ c)) as [o|]; [|done].
    destruct (Py.is_empty o); [done|].
    change (obj (drop_if_empty o ?s) c) with (obj s c).
    match goal with
    | |- context [after_broadcast o ?p (Some c) ?s] =>
        destruct (relay_spec o p c s) as [_ O]
    end.
    rewrite O. rewrite bool_decide_eq_false_2; [done|]. by intros [_ ?].
  - intros m' meta seq data Ht' Hf Hfrom Hroom Hseq Hdata Hlen Hb64.
    eexists. split; [by eapply handle_file_chunk_relay|].
    match goal with
    | |- context [after_broadcast r ?p (Some c) ?s] =>
        destruct (relay_spec r p c s) as [_ O]
    end.
    rewrite O. rewrite bool_decide_eq_false_2; [done|]. by intros [_ ?].
Qed.

Lemma C10_msg_reaches_sender_witness :
  exists σ',
    _handle_msg Scenario.A (ev_msg (Scenario.say Scenario.A "hi")) alice_and_bob
      = Ret tt σ'
    /\ obj σ' Scenario.A =
         (if full alice_and_bob Scenario.A then obj alice_and_bob Scenario.A
          else push (msg_event (Some "lobby") (Some "alice")
                       (msg_text (ev_msg (Scenario.say Scenario.A "hi")))
                       (clock alice_and_bob (ticks alice_and_bob)))
                 (obj alice_and_bob Scenario.A))
    /\ forall x, x ∈ members alice_and_bob "lobby" ->
         obj σ' x =
           (if full alice_and_bob x then obj alice_and_bob x
            else push (msg_event (Some "lobby") (Some "alice")
                         (msg_text (ev_msg (Scenario.say Scenario.A "hi")))
                         (clock alice_and_bob (ticks alice_and_bob)))
                   (obj alice_and_bob x)).
Proof.
  apply (C10_msg_reaches_sender Scenario.A (ev_msg (Scenario.say Scenario.A "hi"))
           alice_and_bob "alice" "lobby");
    try done; by vm_compute.
Defined.

(** C10, as first stated, fails: [bob], whose queue is full, sends a [msg]
    to the lobby.  [alice], the other member, gets the object; the queue of
    [bob], the sender, does not. *)
Lemma C10_counterexample :
  exists σ',
    _handle_msg Scenario.B (ev_msg (Scenario.say Scenario.B "yo")) bob_swamped
      = Ret tt σ'
    /\ Client.name (obj bob_swamped Scenario.B) = Some "bob"
    /\ Client.room (obj bob_swamped Scenario.B) = Some "lobby"
    /\ Scenario.B ∈ members bob_swamped "lobby"
    /\ last (Client.out_q (obj σ' Scenario.A))
         = Some (msg_event (Some "lobby") (Some "bob") "yo" "t204")
    /\ Client.out_q (obj σ' Scenario.B) = Client.out_q (obj bob_swamped Scenario.B)
    /\ of_type "msg" (Client.out_q (obj σ' Scenario.B)) = [].
Proof.
  eexists. split; [vm_compute; reflexivity|].
  repeat split; by vm_compute.
Qed.

Lemma after_inv (evs : list Event) (σ : ChatServer) :
  registry_inv σ -> registry_inv (Scenario.after evs σ).
Proof.
  unfold Scenario.after. revert σ.
  induction evs as [|ev evs IH]; intros σ I; simpl; [done|].
  pose proof (inv_dispatch ev σ I) as P.
  destruct (dispatch ev σ) as [a σ'|e σ'|c' σ' k]; simpl in *; [|done|done].
  specialize (IH σ' P). by destruct (run evs σ').
Qed.

Lemma C9_cleanup_keeps_transfers_witness :
  _files (_cleanup_client Scenario.A transfer_started) !! "f0"
    = Some (mkMeta (Some "alice") (Some "lobby") "a.txt" 3 "t6")
  /\ (forall r, Scenario.A ∉ members (_cleanup_client Scenario.A transfer_started) r)
  /\ (forall n,
        _clients_by_name (_cleanup_client Scenario.A transfer_started) !! n
          <> Some Scenario.A).
Proof.
  destruct (C9_cleanup_keeps_transfers Scenario.A transfer_started)
    as (_ & H2 & _ & _ & H5).
  split; [apply H2; by vm_compute|].
  apply H5. apply after_inv, registry_inv_init.
Defined.

(** ** The dispatcher loop *)

Lemma settles_catch {A} (r : res A) (h : Py.exn -> Co A) :
  (forall e σ, settles (h e σ)) -> settles (res_catch r h).
Proof.
  intros Hh. induction r as [a σ|e σ|c σ k IH]; simpl; [done|apply Hh|].
  intros σ'. apply IH.
Qed.

Lemma settles_dispatch ev σ : settles (dispatch ev σ).
Proof.
  unfold dispatch, try_except. apply settles_catch.
  intros e σ1. apply settles_catch. done.
Qed.

Lemma settle_settles (r : res unit) : settles r -> task_settles (settle r).2.
Proof. by destruct r. Qed.

Lemma step_settles cfg cfg' :
  step cfg cfg' -> task_settles cfg.2 -> task_settles cfg'.2.
Proof.
  destruct 1; simpl; try done.
  - intros _. apply settle_settles, settles_dispatch.
  - intros HT. apply settle_settles, HT.
Qed.

Lemma reachable_settles clk uuid cfg :
  reachable clk uuid cfg -> task_settles cfg.2.
Proof.
  unfold reachable. intros H.
  eapply (rtc_ind_r (fun cfg => task_settles cfg.2)); [| |exact H].
  - done.
  - intros y z _ Hstep IH. by eapply step_settles.
Qed.

Lemma route_unknown ev σ :
  known_type (msg_get (ev_msg ev) "type" Py.VNone) = false ->
  route ev σ =
    put_text (client ev) "error"
      ("Unknown type=" +:+ Py.str (msg_get (ev_msg ev) "type" Py.VNone)) σ.
Proof.
  unfold known_type, route. intros H.
  repeat (apply orb_false_iff in H as [H ?]).
  repeat match goal with E : Py.eq_str _ _ = false |- _ => rewrite E; clear E end.
  reflexivity.
Qed.

Lemma catch_put_text c ty text (h : Py.exn -> Co unit) σ :
  res_catch (put_text c ty text σ) h = put_text c ty text σ.
Proof.
  unfold put_text, bind, utc_ts, put; simpl.
  destruct (full (tick σ) c); reflexivity.
Qed.

(** X19. No exception ends the loop of the dispatcher: in no
    configuration the server reaches has the dispatcher stopped, and the
    handling of an event, whatever the event and the state, raises nothing,
    at once or after a suspension.  An event of a type that is not routed
    is answered with an error to its sender and nothing else.  When a
    handler raises, the dispatcher sends an error to the connection of the
    event and the iteration ends.  A line that is not JSON, not an object
    or has no [type] makes the reader queue an error for its client and go
    on with the next line; a well-formed line that follows is queued as an
    event for the dispatcher as long as the event queue has room.  Each of
    these errors waits for room in the queue of its connection. *)
Theorem X19_no_exception_stops_dispatcher (clk uuid : nat -> string) :
  (forall σ d e, reachable clk uuid (σ, d) -> d <> Stopped e)
  /\ (forall ev σ, settles (dispatch ev σ))
  /\ (forall ev σ,
        known_type (msg_get (ev_msg ev) "type" Py.VNone) = false ->
        replies (client ev) "error"
          ("Unknown type=" +:+ Py.str (msg_get (ev_msg ev) "type" Py.VNone)) σ
          (dispatch ev σ))
  /\ (forall ev σ e σ1,
        route ev σ = Raise e σ1 ->
        replies (client ev) "error" "Server-side processing error" σ1
          (dispatch ev σ))
  /\ (forall c nbytes body σ,
        nbytes <= MAX_LINE_BYTES -> bad_schema body ->
        sends_then c
          (text_event "error" "Invalid JSON or schema" (clock σ (ticks σ)))
          (ret Continue) (tick σ)
          (_read_loop_turn c (Line nbytes body) σ))
  /\ (forall c nbytes m σ,
        nbytes <= MAX_LINE_BYTES -> is_Some (m !! "type") ->
        (length (_events σ) < events_maxsize)%nat ->
        _read_loop_turn c (Line nbytes (Object m)) σ
          = Ret Continue (with_events (fun q => q ++ [mkEvent c m]) σ)).
Proof.
  split; [|split; [|split; [|split; [|split]]]].
  - intros σ d e H ->. by apply (reachable_settles clk uuid _ H).
  - apply settles_dispatch.
  - intros ev σ H. unfold dispatch, try_except.
    rewrite route_unknown by done. rewrite catch_put_text.
    apply put_text_replies.
  - intros ev σ e σ1 H. unfold dispatch, try_except. rewrite H. simpl.
    rewrite catch_put_text. apply put_text_replies.
  - intros c nbytes body σ Hn Hbad. unfold _read_loop_turn.
    assert ((MAX_LINE_BYTES <? nbytes) = false) as -> by lia.
    destruct body as [| |m]; simpl in Hbad.
    + apply (put_text_sends_then c "error" "Invalid JSON or schema"
               (fun _ => ret Continue) σ).
    + apply (put_text_sends_then c "error" "Invalid JSON or schema"
               (fun _ => ret Continue) σ).
    + rewrite bool_decide_eq_false_2 by (rewrite Hbad; by intros [? ?]).
      apply (put_text_sends_then c "error" "Invalid JSON or schema"
               (fun _ => ret Continue) σ).
  - intros c nbytes m σ Hn Hty Hlen. unfold _read_loop_turn.
    assert ((MAX_LINE_BYTES <? nbytes) = false) as -> by lia.
    rewrite bool_decide_eq_true_2 by done.
    unfold bind, try_except, events_put_nowait.
    assert ((events_maxsize <=? length (_events σ))%nat = false) as ->.
    { apply Nat.leb_gt. lia. }
    reflexivity.
Qed.

Lemma X19_no_exception_stops_dispatcher_witness :
  (forall e, hello_handled.2 <> Stopped e)
  /\ route file_start_bad_size alice_and_bob = Raise Py.ValueError alice_and_bob
  /\ replies Scenario.A "error" "Server-side processing error" alice_and_bob
       (dispatch file_start_bad_size alice_and_bob)
  /\ _read_loop_turn Scenario.A
       (Line 12 (Object (ev_msg (Scenario.hello Scenario.A "alice")))) Scenario.start
     = Ret Continue hello_queued.
Proof.
  destruct (X19_no_exception_stops_dispatcher Scenario.clk Scenario.uuid)
    as (H1 & _ & _ & H4 & _ & H6).
  split; [intros e; apply (H1 hello_handled.1), hello_handled_reachable|].
  assert (route file_start_bad_size alice_and_bob
          = Raise Py.ValueError alice_and_bob) as E by (by vm_compute).
  split; [exact E|]. split; [by apply (H4 _ _ _ _ E)|].
  apply (H6 Scenario.A 12 (ev_msg (Scenario.hello Scenario.A "alice"))
           Scenario.start).
  - by vm_compute.
  - eexists. by vm_compute.
  - unfold events_maxsize. simpl. lia.
Defined.

(** ** Validity of the registries and bounds of the queues *)

Section Guarded.
Variable I : ChatServer -> Prop.
Hypothesis I_push : forall c p σ, I σ -> full σ c = false -> I (with_obj c (push p) σ).
Hypothesis I_tick : forall σ, I σ -> I (tick σ).

Lemma guarded_bind {A B} (r : res A) (f : A -> Co B) :
  guarded I r ->
  (forall a σ, I σ -> guarded I (f a σ)) ->
  guarded I (res_bind r f).
Proof.
  intros Hr Hf. induction r as [a σ|e σ|c σ k IH]; simpl in *.
  - by apply Hf.
  - done.
  - destruct Hr as [Hσ Hk]. split; [done|]. intros σ' Hσ' Hroom.
    by apply IH, Hk.
Qed.

Lemma guarded_catch {A} (r : res A) (h : Py.exn -> Co A) :
  guarded I r ->
  (forall e σ, I σ -> guarded I (h e σ)) ->
  guarded I (res_catch r h).
Proof.
  intros Hr Hh. induction r as [a σ|e σ|c σ k IH]; simpl in *.
  - done.
  - by apply Hh.
  - destruct Hr as [Hσ Hk]. split; [done|]. intros σ' Hσ' Hroom.
    by apply IH, Hk.
Qed.

Lemma guarded_then {A B} (m : Co A) (f : A -> Co B) σ :
  guarded I (m σ) ->
  (forall a σ', I σ' -> guarded I (f a σ')) ->
  guarded I (bind m f σ).
Proof. apply guarded_bind. Qed.

Lemma guarded_put c p σ : I σ -> guarded I (put c p σ).
Proof.
  intros Hσ. unfold put. destruct (full σ c) eqn:E; simpl.
  - split; [done|]. intros σ' Hσ' Hroom. by apply I_push.
  - by apply I_push.
Qed.

Lemma guarded_put_text c ty text σ : I σ -> guarded I (put_text c ty text σ).
Proof.
  intros Hσ. unfold put_text. rewrite bind_utc_ts. by apply guarded_put, I_tick.
Qed.
End Guarded.

Lemma healthy_init clk uuid : healthy (init clk uuid).
Proof.
  unfold healthy, names_valid, rooms_valid, identities_valid, files_valid,
    queues_bounded, obj; simpl.
  repeat split; intros *; rewrite ?lookup_empty; simpl; try done; lia.
Qed.

Ltac split_healthy := split; [|split; [|split; [|split]]].

(** The parts of the state [healthy] looks at. *)
Lemma healthy_same σ σ' :
  _clients_by_name σ' = _clients_by_name σ -> _rooms σ' = _rooms σ ->
  _files σ' = _files σ ->
  (forall x, Client.name (obj σ' x) = Client.name (obj σ x)
             /\ Client.room (obj σ' x) = Client.room (obj σ x)) ->
  queues_bounded σ' ->
  healthy σ -> healthy σ'.
Proof.
  intros N R F O Q' (HN & HR & HI & HF & _).
  unfold healthy, names_valid, rooms_valid, identities_valid, files_valid.
  rewrite N, R, F. split_healthy; try done.
  intros x. rewrite (proj1 (O x)), (proj2 (O x)). apply HI.
Qed.

Lemma healthy_tick σ : healthy σ -> healthy (tick σ).
Proof. intros H. eapply healthy_same; [..|exact H]; try done. apply H. Qed.

Lemma healthy_draw σ : healthy σ -> healthy (draw σ).
Proof. intros H. eapply healthy_same; [..|exact H]; try done. apply H. Qed.

Lemma healthy_push c p σ :
  healthy σ -> full σ c = false -> healthy (with_obj c (push p) σ).
Proof.
  intros H Hroom. eapply healthy_same; [..|exact H]; try done.
  - intros x. rewrite obj_with_obj. by destruct (decide (x = c)) as [->|].
  - destruct H as (_ & _ & _ & _ & Q1 & Q2). split; [|done].
    intros x. rewrite obj_with_obj. destruct (decide (x = c)) as [->|]; [|done].
    simpl. rewrite length_app. simpl.
    unfold full in Hroom. apply Nat.leb_gt in Hroom. lia.
Qed.

Lemma healthy_pop c σ : healthy σ -> healthy (with_obj c pop σ).
Proof.
  intros H. eapply healthy_same; [..|exact H]; try done.
  - intros x. rewrite obj_with_obj. by destruct (decide (x = c)) as [->|].
  - destruct H as (_ & _ & _ & _ & Q1 & Q2). split; [|done].
    intros x. rewrite obj_with_obj. destruct (decide (x = c)) as [->|]; [|done].
    simpl. specialize (Q1 c). destruct (Client.out_q (obj σ c)); simpl in *; lia.
Qed.

Lemma deliver_bounded p cl :
  (length (Client.out_q cl) <= Client.maxsize)%nat ->
  (length (Client.out_q (deliver p cl)) <= Client.maxsize)%nat.
Proof.
  unfold deliver. destruct (Client.maxsize <=? _)%nat eqn:E; [done|].
  apply Nat.leb_gt in E. simpl. rewrite length_app. simpl. lia.
Qed.

Lemma healthy_broadcast room p e σ :
  healthy σ -> healthy (after_broadcast room p e σ).
Proof.
  intros H. destruct (broadcast_delivered room p e σ) as [(E&R&N&F&_) O].
  eapply healthy_same; [..|exact H]; try done.
  - intros x. rewrite O. destruct (bool_decide _); [|done].
    by rewrite deliver_name, deliver_room_field.
  - destruct H as (_ & _ & _ & _ & Q1 & Q2). split; [|by rewrite E].
    intros x. rewrite O. destruct (bool_decide _); [|done].
    by apply deliver_bounded.
Qed.

Lemma healthy_events σ (f : list Event -> list Event) :
  (length (f (_events σ)) <= events_maxsize)%nat ->
  healthy σ -> healthy (with_events f σ).
Proof.
  intros Hlen H. eapply healthy_same; [..|exact H]; try done.
  destruct H as (_ & _ & _ & _ & Q1 & Q2). by split.
Qed.

Lemma healthy_files_delete fid σ :
  healthy σ -> healthy (with_files (delete fid) σ).
Proof.
  intros (HN & HR & HI & HF & HQ). split_healthy; try done.
  intros fid' meta. simpl. destruct (decide (fid' = fid)) as [->|Hne].
  - by rewrite lookup_delete_eq.
  - rewrite lookup_delete_ne by done. apply HF.
Qed.

Lemma healthy_files_insert fid meta σ :
  meta_valid meta -> healthy σ -> healthy (with_files (<[fid := meta]>) σ).
Proof.
  intros Hm (HN & HR & HI & HF & HQ). split_healthy; try done.
  intros fid' meta'. simpl. destruct (decide (fid' = fid)) as [->|Hne].
  - rewrite lookup_insert_eq. by intros [= <-].
  - rewrite lookup_insert_ne by done. apply HF.
Qed.

Lemma healthy_release c σ : healthy σ -> healthy (release_name c σ).
Proof.
  intros H. pose proof H as (HN & HR & HI & HF & HQ).
  destruct (release_name_rest c σ) as (R & F & O).
  unfold healthy, names_valid, rooms_valid, identities_valid, files_valid,
    queues_bounded.
  rewrite R, F. split_healthy; try done.
  - intros n x. rewrite release_name_names. destruct (bool_decide _); [done|].
    apply HN.
  - intros x. rewrite obj_release_name. apply HI.
  - split.
    + intros x. rewrite obj_release_name. apply HQ.
    + unfold release_name. destruct (Client.name (obj σ c)); [|apply HQ].
      destruct (_ && _); apply HQ.
Qed.

Lemma healthy_set_name c name σ :
  valid_name name = true -> healthy σ -> healthy (with_obj c (set_name (Some name)) σ).
Proof.
  intros Hv (HN & HR & HI & HF & HQ). split_healthy; try done.
  - intros x. rewrite obj_with_obj. destruct (decide (x = c)) as [->|]; [|apply HI].
    simpl. split; [by intros n [= <-]|apply HI].
  - split; [|apply HQ].
    intros x. rewrite obj_with_obj. destruct (decide (x = c)) as [->|]; apply HQ.
Qed.

Lemma healthy_set_room c room σ :
  valid_room room = true -> healthy σ -> healthy (with_obj c (set_room (Some room)) σ).
Proof.
  intros Hv (HN & HR & HI & HF & HQ). split_healthy; try done.
  - intros x. rewrite obj_with_obj. destruct (decide (x = c)) as [->|]; [|apply HI].
    simpl. split; [apply HI|by intros r [= <-]].
  - split; [|apply HQ].
    intros x. rewrite obj_with_obj. destruct (decide (x = c)) as [->|]; apply HQ.
Qed.

Lemma healthy_names_insert c name σ :
  valid_name name = true -> healthy σ -> healthy (with_names (<[name := c]>) σ).
Proof.
  intros Hv (HN & HR & HI & HF & HQ). split_healthy; try done.
  intros n x. simpl. destruct (decide (n = name)) as [->|Hne]; [done|].
  rewrite lookup_insert_ne by done. apply HN.
Qed.

Lemma healthy_rooms (f : gmap string (gset cid) -> gmap string (gset cid)) σ :
  (forall r X, f (_rooms σ) !! r = Some X -> valid_room r = true) ->
  healthy σ -> healthy (with_rooms f σ).
Proof. intros Hf (HN & HR & HI & HF & HQ). by split_healthy. Qed.

Lemma healthy_discard o c σ : healthy σ -> healthy (discard_member o c σ).
Proof.
  intros H. apply healthy_rooms; [|done]. intros r X.
  destruct (decide (r = o)) as [->|Hne].
  - rewrite lookup_alter_eq. destruct (_rooms σ !! o) as [Y|] eqn:E; [|done].
    intros _. by apply (proj1 (proj2 H) o Y).
  - rewrite lookup_alter_ne by done. apply H.
Qed.

Lemma healthy_drop o σ : healthy σ -> healthy (drop_if_empty o σ).
Proof.
  intros H. apply healthy_rooms; [|done]. intros r X. unfold prune.
  destruct (_rooms σ !! o) as [Y|] eqn:E; [|apply H].
  destruct (decide (Y = ∅)); [|apply H].
  destruct (decide (r = o)) as [->|Hne].
  - by rewrite lookup_delete_eq.
  - rewrite lookup_delete_ne by done. apply H.
Qed.

Lemma healthy_add room c σ :
  valid_room room = true -> healthy σ -> healthy (add_member room c σ).
Proof.
  intros Hv H. apply healthy_rooms; [|done]. intros r X.
  destruct (decide (r = room)) as [->|Hne]; [done|].
  rewrite lookup_insert_ne by done. apply H.
Qed.

Lemma healthy_cleanup c σ : healthy σ -> healthy (_cleanup_client c σ).
Proof.
  intros H. unfold _cleanup_client. apply healthy_release.
  destruct (Client.room (obj σ c)) as [r|]; [|done].
  destruct (Py.is_empty r); [done|]. by apply healthy_drop, healthy_discard.
Qed.

Lemma bind_to_int {B} v (k : Z -> Co B) σ :
  bind (to_int v) k σ =
    match Py.int v with
    | inr n => k n σ
    | inl e => Raise e σ
    end.
Proof. unfold to_int. by destruct (Py.int v). Qed.

Lemma g_put c p σ : healthy σ -> guarded healthy (put c p σ).
Proof. apply guarded_put. intros. by apply healthy_push. Qed.

Lemma g_put_text c ty text σ : healthy σ -> guarded healthy (put_text c ty text σ).
Proof.
  apply guarded_put_text; [intros; by apply healthy_push|apply healthy_tick].
Qed.

Ltac healthy_solve :=
  repeat match goal with
         | |- healthy _ => assumption
         | |- healthy (tick _) => apply healthy_tick
         | |- healthy (draw _) => apply healthy_draw
         | |- healthy (after_broadcast _ _ _ _) => apply healthy_broadcast
         | |- healthy (with_files (delete _) _) => apply healthy_files_delete
         end.

Ltac gstep :=
  match goal with
  | |- guarded healthy (bind (gets _) _ _) => rewrite bind_gets
  | |- guarded healthy (bind utc_ts _ _) => rewrite bind_utc_ts
  | |- guarded healthy (bind uuid4 _ _) => rewrite bind_uuid4
  | |- guarded healthy (bind (modify _) _ _) => rewrite bind_modify
  | |- guarded healthy (bind (_broadcast _ _ _) _ _) => rewrite bind_broadcast
  | |- guarded healthy (bind (to_int ?v) _ _) =>
      rewrite bind_to_int; destruct (Py.int v) eqn:?
  | |- guarded healthy (bind (put _ _) _ _) =>
      apply guarded_then; [apply g_put; healthy_solve|intros ? ? ?]
  | |- guarded healthy (bind (put_text _ _ _) _ _) =>
      apply guarded_then; [apply g_put_text; healthy_solve|intros ? ? ?]
  | |- guarded healthy (put _ _ _) => apply g_put; healthy_solve
  | |- guarded healthy (put_text _ _ _ _) => apply g_put_text; healthy_solve
  | |- guarded healthy (_broadcast _ _ _ _) =>
      rewrite broadcast_eq; simpl guarded; healthy_solve
  | |- guarded healthy (ret _ _) => simpl; healthy_solve
  | |- guarded healthy (raise _ _) => simpl; healthy_solve
  | |- guarded healthy (Raise _ _) => simpl; healthy_solve
  | |- guarded healthy (modify _ _) => simpl; healthy_solve
  | |- guarded healthy ((if ?b then _ else _) _) => destruct b eqn:?
  | |- guarded healthy (match ?x with _ => _ end _) => destruct x eqn:?
  end.

Lemma valid_room_lobby : valid_room DEFAULT_ROOM = true.
Proof. reflexivity. Qed.

Lemma healthy_leave c σ : healthy σ -> healthy (leave c σ).
Proof.
  intros H. unfold leave. destruct (Client.room (obj σ c)) as [o|]; [|done].
  destruct (Py.is_empty o); [done|].
  by apply healthy_drop, healthy_broadcast, healthy_tick, healthy_discard.
Qed.

Lemma healthy_enter room c σ :
  valid_room room = true -> healthy σ -> healthy (enter room c σ).
Proof. intros Hv H. by apply healthy_add, healthy_set_room. Qed.

Lemma g_announce room c σ : healthy σ -> guarded healthy (announce room c σ).
Proof. intros H. unfold announce. repeat gstep. Qed.

Lemma g_join_room c room σ :
  valid_room room = true -> healthy σ -> guarded healthy (_join_room c room σ).
Proof.
  intros Hv H.
  destruct (decide (Client.room (obj σ c) = Some room)) as [E|E].
  - rewrite join_room_same by done. by apply g_put_text.
  - rewrite join_room_other by done.
    apply guarded_then.
    + by apply g_put_text, healthy_enter, healthy_leave.
    + intros _ σ' H'. by apply g_announce.
Qed.

Lemma healthy_rename c name σ :
  valid_name name = true -> healthy σ -> healthy (rename c name σ).
Proof.
  intros Hv H. unfold rename.
  by apply healthy_names_insert, healthy_set_name, healthy_release.
Qed.

Lemma g_handle_hello c m σ : healthy σ -> guarded healthy (_handle_hello c m σ).
Proof.
  intros H. destruct (valid_name (requested_name m)) eqn:Hv.
  - destruct (held_by_other σ (requested_name m) c) eqn:Ht.
    + rewrite handle_hello_taken by done. by apply g_put_text.
    + rewrite handle_hello_ok by done. apply guarded_then.
      * by apply g_put_text, healthy_rename.
      * intros _ σ' H'. unfold auto_join. rewrite bind_gets.
        destruct (Py.truthy_opt _); [done|].
        by apply g_join_room.
  - rewrite handle_hello_invalid by done. by apply g_put_text.
Qed.

Lemma g_handle_join c m σ : healthy σ -> guarded healthy (_handle_join c m σ).
Proof.
  intros H. unfold _handle_join. rewrite bind_gets.
  destruct (negb _); [by apply g_put_text|].
  fold (requested_room m).
  destruct (_ || _) eqn:Hbad; [by apply g_put_text|].
  apply g_join_room; [|done]. unfold valid_room. by rewrite Hbad.
Qed.

Lemma g_handle_msg c m σ : healthy σ -> guarded healthy (_handle_msg c m σ).
Proof. intros H. unfold _handle_msg. repeat gstep. Qed.

Lemma g_handle_pm c m σ : healthy σ -> guarded healthy (_handle_pm c m σ).
Proof. intros H. unfold _handle_pm. repeat gstep. Qed.

Lemma g_handle_list_rooms c σ : healthy σ -> guarded healthy (_handle_list_rooms c σ).
Proof. intros H. unfold _handle_list_rooms. repeat gstep. Qed.

Lemma g_handle_list_users c σ : healthy σ -> guarded healthy (_handle_list_users c σ).
Proof. intros H. unfold _handle_list_users. repeat gstep. Qed.

Lemma take_len n s : Py.len (Py.take n s) <= Z.of_nat n.
Proof.
  unfold Py.len. apply inj_le. revert s.
  induction n as [|n IH]; intros s; simpl; [lia|].
  destruct s as [|ch s]; simpl; [lia|]. specialize (IH s). lia.
Qed.

Lemma g_handle_file c m σ : healthy σ -> guarded healthy (_handle_file c m σ).
Proof.
  intros H. unfold _handle_file. rewrite bind_gets.
  destruct (negb (Py.truthy_opt (Client.name (obj σ c)))
            || negb (Py.truthy_opt (Client.room (obj σ c)))) eqn:Hready;
    [by apply g_put_text|].
  apply orb_false_iff in Hready as [Hn Hr].
  apply negb_false_iff, truthy_opt_true in Hn as (n & Hn & Hne).
  apply negb_false_iff, truthy_opt_true in Hr as (r & Hr & Hre).
  pose proof (proj1 (proj2 (proj2 H)) c) as [Vn Vr].
  specialize (Vn n Hn). specialize (Vr r Hr).
  destruct (m !! "type") as [t|]; [|simpl; done].
  destruct (Py.eq_str t "file_start") eqn:Hstart.
  - rewrite bind_to_int.
    destruct (Py.int _) as [e|size] eqn:Hsize; [simpl; done|].
    destruct (_ || _) eqn:Hbad; [by apply g_put_text|].
    apply orb_false_iff in Hbad as [Hbad Hbig].
    apply orb_false_iff in Hbad as [Hempty Hneg].
    rewrite bind_uuid4, bind_utc_ts, bind_modify, bind_utc_ts.
    apply guarded_then.
    + apply g_put. apply healthy_tick, healthy_files_insert;
        [|by apply healthy_tick, healthy_draw].
      unfold meta_valid; simpl. rewrite Hn, Hr.
      split; [by eauto|]. split; [by eauto|].
      split; [by apply is_empty_false|].
      split; [apply (take_len 200)|]. lia.
    + intros _ σ' H'. repeat gstep.
  - repeat gstep.
Qed.

Lemma g_route ev σ : healthy σ -> guarded healthy (route ev σ).
Proof.
  intros H. unfold route.
  repeat match goal with
         | |- guarded _ ((if ?b then _ else _) _) => destruct b
         end;
    auto using g_handle_hello, g_handle_join, g_handle_msg, g_handle_pm,
      g_handle_list_rooms, g_handle_list_users, g_handle_file, g_put_text.
Qed.

Lemma g_dispatch ev σ : healthy σ -> guarded healthy (dispatch ev σ).
Proof.
  intros H. unfold dispatch, try_except.
  apply guarded_catch; [by apply g_route|].
  intros e σ1 H1. apply guarded_catch; [by apply g_put_text|].
  intros e' σ2 H2. done.
Qed.

Lemma settle_guarded (r : res unit) :
  guarded healthy r -> healthy (settle r).1 /\ task_guarded healthy (settle r).2.
Proof. destruct r as [a σ|e σ|c σ k]; simpl; [done|done|]. by intros [? ?]. Qed.

Lemma step_healthy cfg cfg' :
  step cfg cfg' ->
  healthy cfg.1 /\ task_guarded healthy cfg.2 ->
  healthy cfg'.1 /\ task_guarded healthy cfg'.2.
Proof.
  destruct 1 as [σ ev evs Hev|σ c k Hroom|σ d ev Hlen|σ d c p Hroom|σ d c|σ d c];
    simpl; intros [H T].
  - apply settle_guarded, g_dispatch. apply healthy_events; [|done].
    destruct H as (_ & _ & _ & _ & _ & Q). rewrite Hev in Q. simpl in *. lia.
  - by apply settle_guarded, T.
  - split; [|done]. apply healthy_events; [|done].
    rewrite length_app. simpl. lia.
  - split; [|done]. by apply healthy_push.
  - split; [|done]. by apply healthy_pop.
  - split; [|done]. by apply healthy_cleanup.
Qed.

Lemma reachable_healthy clk uuid cfg :
  reachable clk uuid cfg -> healthy cfg.1 /\ task_guarded healthy cfg.2.
Proof.
  unfold reachable. intros H.
  eapply (rtc_ind_r
            (fun cfg => healthy cfg.1 /\ task_guarded healthy cfg.2));
    [| |exact H].
  - split; [apply healthy_init|done].
  - intros y z _ Hstep IH. by eapply step_healthy.
Qed.

Lemma dispatch_reachable clk uuid ev σ σ' :
  reachable clk uuid (σ, Idle) -> _events σ = [] ->
  dispatch ev σ = Ret tt σ' ->
  reachable clk uuid (σ', Idle).
Proof.
  unfold reachable. intros R E D.
  eapply rtc_r; [eapply rtc_r; [exact R|]|].
  - apply (step_event σ Idle ev). rewrite E. unfold events_maxsize. simpl. lia.
  - assert (with_events (fun _ => []) (with_events (fun q => q ++ [ev]) σ) = σ)
      as Eσ by (destruct σ; simpl in *; by subst).
    pose proof (step_dispatch (with_events (fun q => q ++ [ev]) σ) ev []) as S.
    rewrite Eσ, D in S. apply S. simpl. by rewrite E.
Qed.

Lemma run_reachable_ret clk uuid evs σ :
  reachable clk uuid (σ, Idle) -> quiet_run evs σ = true ->
  exists σ', run evs σ = Ret tt σ' /\ reachable clk uuid (σ', Idle).
Proof.
  revert σ. induction evs as [|ev evs IH]; intros σ R Q; simpl in *.
  - by exists σ.
  - destruct (_events σ) eqn:E; [|done].
    destruct (dispatch ev σ) as [[] σ1|e σ1|c σ1 k] eqn:D; [|done|done].
    apply IH; [|done]. by eapply dispatch_reachable.
Qed.

Lemma run_reachable clk uuid evs σ :
  reachable clk uuid (σ, Idle) -> quiet_run evs σ = true ->
  reachable clk uuid (Scenario.after evs σ, Idle).
Proof.
  intros R Q. destruct (run_reachable_ret clk uuid evs σ R Q) as (σ' & E & R').
  unfold Scenario.after. by rewrite E.
Qed.

Lemma transfer_started_reachable :
  reachable Scenario.clk Scenario.uuid (transfer_started, Idle).
Proof. apply run_reachable; [apply rtc_refl|by vm_compute]. Qed.

Lemma bob_swamped_reachable :
  reachable Scenario.clk Scenario.uuid (bob_swamped, Idle).
Proof. apply run_reachable; [apply rtc_refl|by vm_compute]. Qed.

Lemma valid_name_spec n :
  valid_name n = true <->
  n <> "" /\ Py.len n <= 32 /\ Py.any Py.isspace n = false.
Proof.
  unfold valid_name. rewrite negb_true_iff, !orb_false_iff, is_empty_false.
  rewrite Z.ltb_ge. naive_solver.
Qed.

Lemma valid_room_spec r :
  valid_room r = true <-> r <> "" /\ Py.len r <= 40.
Proof.
  unfold valid_room. rewrite negb_true_iff, !orb_false_iff, is_empty_false.
  rewrite Z.ltb_ge. naive_solver.
Qed.

(** ** Further properties *)

(** X1. In every configuration the server reaches, each name of the name
    table, and each name a connection carries, is not empty, has at most 32
    characters and no whitespace: names only come from an accepted
    [hello]. *)
Theorem X1_names_are_valid (clk uuid : nat -> string) (σ : ChatServer) (d : task) :
  reachable clk uuid (σ, d) ->
  (forall n c, _clients_by_name σ !! n = Some c ->
     n <> "" /\ Py.len n <= 32 /\ Py.any Py.isspace n = false)
  /\ (forall x n, Client.name (obj σ x) = Some n ->
        n <> "" /\ Py.len n <= 32 /\ Py.any Py.isspace n = false).
Proof.
  intros R. destruct (reachable_healthy clk uuid _ R) as [(HN & _ & HI & _) _].
  simpl in *. split.
  - intros n c Hn. apply valid_name_spec. by eapply HN.
  - intros x n Hn. apply valid_name_spec. by eapply (proj1 (HI x)).
Qed.

Lemma X1_names_are_valid_witness :
  _clients_by_name bob_swamped !! "alice" = Some Scenario.A
  /\ (forall n c, _clients_by_name bob_swamped !! n = Some c ->
        n <> "" /\ Py.len n <= 32 /\ Py.any Py.isspace n = false)
  /\ (forall x n, Client.name (obj bob_swamped x) = Some n ->
        n <> "" /\ Py.len n <= 32 /\ Py.any Py.isspace n = false).
Proof.
  split; [by vm_compute|].
  exact (X1_names_are_valid Scenario.clk Scenario.uuid bob_swamped Idle
           bob_swamped_reachable).
Defined.

(** X2. In every configuration the server reaches, each room of the room
    map, and each room a connection carries, has a name that is not empty
    and has at most 40 characters: rooms only come from an accepted [join]
    or are the default room. *)
Theorem X2_rooms_are_valid (clk uuid : nat -> string) (σ : ChatServer) (d : task) :
  reachable clk uuid (σ, d) ->
  (forall r X, _rooms σ !! r = Some X -> r <> "" /\ Py.len r <= 40)
  /\ (forall x r, Client.room (obj σ x) = Some r -> r <> "" /\ Py.len r <= 40).
Proof.
  intros R. destruct (reachable_healthy clk uuid _ R) as [(_ & HR & HI & _) _].
  simpl in *. split.
  - intros r X Hr. apply valid_room_spec. by eapply HR.
  - intros x r Hr. apply valid_room_spec. by eapply (proj2 (HI x)).
Qed.

Lemma X2_rooms_are_valid_witness :
  _rooms bob_swamped !! "lobby" = Some {[Scenario.A; Scenario.B]}
  /\ (forall r X, _rooms bob_swamped !! r = Some X -> r <> "" /\ Py.len r <= 40)
  /\ (forall x r, Client.room (obj bob_swamped x) = Some r ->
        r <> "" /\ Py.len r <= 40).
Proof.
  split; [by vm_compute|].
  exact (X2_rooms_are_valid Scenario.clk Scenario.uuid bob_swamped Idle
           bob_swamped_reachable).
Defined.

(** X3. In every configuration the server reaches, each record of the
    transfer registry has an uploader name and a room that had passed the
    checks of [hello] and [join], a file name that is not empty and has at
    most 200 characters, and a size between 0 and 200 MiB. *)
Theorem X3_transfer_records_are_valid (clk uuid : nat -> string)
    (σ : ChatServer) (d : task) (fid : string) (meta : FileMeta) :
  reachable clk uuid (σ, d) ->
  _files σ !! fid = Some meta ->
  (exists n, meta_from meta = Some n
             /\ n <> "" /\ Py.len n <= 32 /\ Py.any Py.isspace n = false)
  /\ (exists r, meta_room meta = Some r /\ r <> "" /\ Py.len r <= 40)
  /\ meta_filename meta <> ""
  /\ Py.len (meta_filename meta) <= 200
  /\ 0 <= meta_size meta <= 200 * 1024 * 1024.
Proof.
  intros R Hf. destruct (reachable_healthy clk uuid _ R) as [(_ & _ & _ & HF & _) _].
  destruct (HF fid meta Hf) as ((n & Hn & Vn) & (r & Hr & Vr) & F1 & F2 & F3).
  split; [exists n; split; [done|by apply valid_name_spec]|].
  split; [exists r; split; [done|by apply valid_room_spec]|].
  done.
Qed.

Lemma X3_transfer_records_are_valid_witness :
  _files transfer_started !! "f0"
    = Some (mkMeta (Some "alice") (Some "lobby") "a.txt" 3 "t6")
  /\ Py.len "a.txt" <= 200.
Proof.
  assert (_files transfer_started !! "f0"
          = Some (mkMeta (Some "alice") (Some "lobby") "a.txt" 3 "t6")) as E
    by (by vm_compute).
  split; [exact E|].
  destruct (X3_transfer_records_are_valid Scenario.clk Scenario.uuid
              transfer_started Idle "f0" _ transfer_started_reachable E)
    as (_ & _ & _ & H & _).
  exact H.
Defined.

(** X4. In every configuration the server reaches, no outbound queue holds
    more than 200 objects and the event queue holds no more than 5000
    events. *)
Theorem X4_queues_are_bounded (clk uuid : nat -> string) (σ : ChatServer) (d : task) :
  reachable clk uuid (σ, d) ->
  (forall x, (length (Client.out_q (obj σ x)) <= 200)%nat)
  /\ (length (_events σ) <= 5000)%nat.
Proof.
  intros R. destruct (reachable_healthy clk uuid _ R) as [(_ & _ & _ & _ & Q) _].
  exact Q.
Qed.

Lemma X4_queues_are_bounded_witness :
  length (Client.out_q (obj bob_swamped Scenario.B)) = 200%nat
  /\ (forall x, (length (Client.out_q (obj bob_swamped x)) <= 200)%nat)
  /\ (length (_events bob_swamped) <= 5000)%nat.
Proof.
  split; [by vm_compute|].
  exact (X4_queues_are_bounded Scenario.clk Scenario.uuid bob_swamped Idle
           bob_swamped_reachable).
Defined.

Lemma cleanup_names c σ n :
  _clients_by_name (_cleanup_client c σ) !! n =
    if bool_decide (Client.name (obj σ c) = Some n /\ n <> ""
                    /\ _clients_by_name σ !! n = Some c)
    then None else _clients_by_name σ !! n.
Proof.
  unfold _cleanup_client. rewrite release_name_names.
  destruct (Client.room (obj σ c)) as [o|]; [|done].
  by destruct (Py.is_empty o).
Qed.

Lemma cleanup_rooms c σ r :
  _rooms (_cleanup_client c σ) !! r =
    match Client.room (obj σ c) with
    | Some o =>
        if Py.is_empty o then _rooms σ !! r
        else prune o (alter (fun X => X ∖ {[c]}) o (_rooms σ)) !! r
    | None => _rooms σ !! r
    end.
Proof.
  unfold _cleanup_client. rewrite (proj1 (release_name_rest c _)).
  destruct (Client.room (obj σ c)) as [o|]; [|done].
  by destruct (Py.is_empty o).
Qed.

Lemma cleanup_clock c σ :
  clock (_cleanup_client c σ) = clock σ /\ ticks (_cleanup_client c σ) = ticks σ.
Proof.
  unfold _cleanup_client.
  match goal with
  | |- context [release_name c ?s] =>
      destruct (release_name_clock c s) as [-> ->]
  end.
  destruct (Client.room (obj σ c)) as [r|]; [|done].
  by destruct (Py.is_empty r).
Qed.

Lemma rename_clock c name σ :
  clock (rename c name σ) = clock σ /\ ticks (rename c name σ) = ticks σ.
Proof. unfold rename. simpl. apply release_name_clock. Qed.

(** X5. A name is reserved until the connection that holds it goes: while
    connection [c] holds the name, a [hello] of another connection asking
    for it is answered with a name-taken error; once [c] has been cleaned
    up, the same [hello] is accepted and the name is bound to the other
    connection. *)
Theorem X5_name_is_free_after_cleanup (clk uuid : nat -> string)
    (σ : ChatServer) (d : task) (c c' : cid) (m : msg) :
  reachable clk uuid (σ, d) ->
  c' <> c ->
  _clients_by_name σ !! requested_name m = Some c ->
  replies c' "error" "Name already taken" σ (_handle_hello c' m σ)
  /\ _clients_by_name (_cleanup_client c σ) !! requested_name m = None
  /\ sends_then c'
       (text_event "info"
          ("You are logged in as " +:+ requested_name m
             +:+ ". Use join to pick a room.") (clock σ (ticks σ)))
       (auto_join c')
       (tick (rename c' (requested_name m) (_cleanup_client c σ)))
       (_handle_hello c' m (_cleanup_client c σ))
  /\ _clients_by_name (rename c' (requested_name m) (_cleanup_client c σ))
       !! requested_name m = Some c'.
Proof.
  intros R Hne Hheld.
  destruct (reachable_healthy clk uuid _ R) as [(HN & _) _].
  destruct (reachable_inv clk uuid _ R) as [(_ & _ & I3 & _ & I5) _].
  simpl in HN, I3, I5.
  pose proof (HN _ _ Hheld) as Hvalid.
  assert (_clients_by_name (_cleanup_client c σ) !! requested_name m = None)
    as Hfree.
  { rewrite cleanup_names. rewrite bool_decide_eq_true_2; [done|].
    split; [by apply I3|]. split; [|done]. intros E. rewrite E in Hheld.
    congruence. }
  split.
  { rewrite handle_hello_taken; [apply put_text_replies|done|].
    apply held_by_other_true. eauto. }
  split; [exact Hfree|]. split.
  - rewrite handle_hello_ok; [|done|].
    + pose proof (put_text_sends_then c' "info"
        ("You are logged in as " +:+ requested_name m
           +:+ ". Use join to pick a room.")
        (fun _ => auto_join c')
        (rename c' (requested_name m) (_cleanup_client c σ))) as P.
      destruct (rename_clock c' (requested_name m) (_cleanup_client c σ))
        as [Ec Et].
      destruct (cleanup_clock c σ) as [Ec' Et'].
      rewrite Ec, Et, Ec', Et' in P. exact P.
    + destruct (held_by_other (_cleanup_client c σ) (requested_name m) c')
        eqn:E; [|done].
      apply held_by_other_true in E as (c0 & E0 & _). congruence.
  - by rewrite rename_names, decide_True.
Qed.

Lemma X5_name_is_free_after_cleanup_witness :
  replies Scenario.B "error" "Name already taken" transfer_started
    (_handle_hello Scenario.B (ev_msg (Scenario.hello Scenario.B "alice"))
       transfer_started)
  /\ _clients_by_name
       (rename Scenario.B
          (requested_name (ev_msg (Scenario.hello Scenario.B "alice")))
          (_cleanup_client Scenario.A transfer_started))
       !! requested_name (ev_msg (Scenario.hello Scenario.B "alice"))
     = Some Scenario.B.
Proof.
  destruct (X5_name_is_free_after_cleanup Scenario.clk Scenario.uuid
              transfer_started Idle Scenario.A Scenario.B
              (ev_msg (Scenario.hello Scenario.B "alice"))
              transfer_started_reachable) as (H1 & _ & _ & H4);
    [done|by vm_compute|].
  by split.
Defined.

(** X6. Rooms are deleted with their last member: when the connection [c]
    is the only member of room [r], the cleanup of [c] removes [r] from the
    room map, and so does a join of [c] to another room; in both cases [r]
    is absent from the list a later [list_rooms] is answered with. *)
Theorem X6_last_member_deletes_room (clk uuid : nat -> string)
    (σ : ChatServer) (d : task) (c : cid) (r : string) :
  reachable clk uuid (σ, d) ->
  _rooms σ !! r = Some {[c]} ->
  _rooms (_cleanup_client c σ) !! r = None
  /\ (r ∉ sorted (elements (dom (_rooms (_cleanup_client c σ)))))
  /\ forall room, room <> r ->
       _join_room c room σ =
         (put_text c "info" ("You joined room " +:+ room) ;;; announce room c)
           (enter room c (leave c σ))
       /\ _rooms (enter room c (leave c σ)) !! r = None
       /\ (r ∉ sorted (elements (dom (_rooms (enter room c (leave c σ)))))).
Proof.
  intros R Hr.
  destruct (reachable_inv clk uuid _ R) as [(_ & I2 & _ & I4 & _) _].
  simpl in I2, I4.
  assert (Client.room (obj σ c) = Some r) as Hc.
  { apply (I2 r {[c]}); [done|set_solver]. }
  assert (r <> "") as Hne by (intros ->; congruence).
  assert (forall (R0 : gmap string (gset cid)),
            R0 !! r = None -> r ∉ sorted (elements (dom R0))) as Habsent.
  { intros R0 H0. unfold sorted. rewrite merge_sort_Permutation.
    rewrite elem_of_elements, elem_of_dom, H0. by intros [? ?]. }
  assert (prune r (alter (fun X => X ∖ {[c]}) r (_rooms σ)) !! r = None) as Hgone.
  { rewrite leave_lookup, decide_True, Hr by done.
    rewrite decide_True; [done|set_solver]. }
  assert (_rooms (_cleanup_client c σ) !! r = None) as H1.
  { rewrite cleanup_rooms, Hc. by apply is_empty_false in Hne as ->. }
  split; [exact H1|]. split; [by apply Habsent|].
  intros room Hroom.
  assert (_rooms (enter room c (leave c σ)) !! r = None) as H2.
  { rewrite enter_rooms, decide_False by done.
    rewrite leave_rooms, Hc. by apply is_empty_false in Hne as ->. }
  split; [apply join_room_other; congruence|].
  split; [exact H2|by apply Habsent].
Qed.

Lemma X6_last_member_deletes_room_witness :
  _rooms hello_handled.1 !! "lobby" = Some {[Scenario.A]}
  /\ _rooms (_cleanup_client Scenario.A hello_handled.1) !! "lobby" = None.
Proof.
  assert (_rooms hello_handled.1 !! "lobby" = Some {[Scenario.A]}) as E
    by (by vm_compute).
  split; [exact E|].
  destruct (X6_last_member_deletes_room Scenario.clk Scenario.uuid
              hello_handled.1 hello_handled.2 Scenario.A "lobby"
              hello_handled_reachable E) as (H & _).
  exact H.
Defined.

(** ** The order of [sorted] *)

Lemma string_compare_trans (a b c : string) :
  String.compare a b <> Gt -> String.compare b c <> Gt ->
  String.compare a c <> Gt.
Proof.
  revert b c. induction a as [|x a IH]; intros [|y b] [|z c]; simpl; try done.
  unfold Ascii.compare.
  destruct (N.compare_spec (N_of_ascii x) (N_of_ascii y)) as [Exy|Lxy|Gxy];
    destruct (N.compare_spec (N_of_ascii y) (N_of_ascii z)) as [Eyz|Lyz|Gyz];
    try done; intros H1 H2.
  - rewrite Exy, Eyz, N.compare_refl. by apply (IH b c).
  - rewrite Exy. by apply N.compare_lt_iff in Lyz as ->.
  - rewrite <- Eyz. by apply N.compare_lt_iff in Lxy as ->.
  - assert (N_of_ascii x < N_of_ascii z)%N as L by lia.
    by apply N.compare_lt_iff in L as ->.
Qed.

#[local] Instance string_le_trans : Transitive (fun a b => Is_true (String.leb a b)).
Proof.
  intros a b c. unfold String.leb. intros H1 H2.
  pose proof (string_compare_trans a b c) as T.
  destruct (String.compare a b), (String.compare b c), (String.compare a c);
    simpl in *; try done; exfalso; by apply T.
Qed.

#[local] Instance string_le_total : Total (fun a b => Is_true (String.leb a b)).
Proof.
  intros a b. destruct (String.leb_total a b) as [H|H]; rewrite H; simpl; auto.
Qed.

Lemma sorted_spec (l : list string) :
  StronglySorted (fun a b => Is_true (String.leb a b)) (sorted l)
  /\ sorted l ≡ₚ l.
Proof.
  unfold sorted. split.
  - apply StronglySorted_merge_sort; apply _.
  - apply merge_sort_Permutation.
Qed.

Lemma put_sends c p σ : sends_then c p (ret tt) σ (put c p σ).
Proof.
  unfold sends_then, put. destruct (full σ c); [|done].
  eexists. split; [reflexivity|done].
Qed.

(** X7. [list_rooms] answers the sender, and only the sender, with one
    [room_list] object whose list of rooms is in ascending order, without
    repetition, and has exactly the rooms of the room map. *)
Theorem X7_list_rooms (c : cid) (σ : ChatServer) :
  exists rooms : list string,
    sends_then c
      [("type", FStr "room_list"); ("rooms", FList rooms);
       ("ts", FStr (clock σ (ticks σ)))]
      (ret tt) (tick σ) (_handle_list_rooms c σ)
    /\ StronglySorted (fun a b => Is_true (String.leb a b)) rooms
    /\ NoDup rooms
    /\ forall r, r ∈ rooms <-> is_Some (_rooms σ !! r).
Proof.
  exists (sorted (elements (dom (_rooms σ)))).
  destruct (sorted_spec (elements (dom (_rooms σ)))) as [S P].
  split; [|split; [exact S|split]].
  - unfold _handle_list_rooms. rewrite bind_gets, bind_utc_ts. apply put_sends.
  - rewrite P. apply NoDup_elements.
  - intros r. by rewrite P, elem_of_elements, elem_of_dom.
Qed.

Lemma names_of_named σ (l : list cid) :
  names_of σ l =
    map (fun x => Py.fmt (Client.name (obj σ x)))
      (filter (fun x => Py.truthy_opt (Client.name (obj σ x)) = true) l).
Proof.
  induction l as [|x l IH]; [done|].
  assert (names_of σ (x :: l) =
            match Client.name (obj σ x) with
            | Some n => if Py.is_empty n then names_of σ l else n :: names_of σ l
            | None => names_of σ l
            end) as ->.
  { unfold names_of. simpl.
    destruct (Client.name (obj σ x)) as [n|]; [|done]. by destruct (Py.is_empty n). }
  rewrite filter_cons, IH.
  destruct (Client.name (obj σ x)) as [n|] eqn:E; simpl.
  - destruct (Py.is_empty n); simpl; [done|]. by rewrite E.
  - done.
Qed.

(** X8. [list_users] answers the sender, and only the sender, with one
    [user_list] object.  For a sender without a room the list is empty and
    the object has no [room]; otherwise the object names the sender's room
    and its list is in ascending order and has one entry for each member
    of that room that has a name, the name of that member, and no other
    entry. *)
Theorem X8_list_users (c : cid) (σ : ChatServer) :
  (Py.truthy_opt (Client.room (obj σ c)) = false ->
     sends_then c
       [("type", FStr "user_list"); ("users", FList []);
        ("ts", FStr (clock σ (ticks σ)))]
       (ret tt) (tick σ) (_handle_list_users c σ))
  /\ (forall r, Client.room (obj σ c) = Some r -> r <> "" ->
        exists (users : list string) (named : list cid),
          sends_then c
            [("type", FStr "user_list"); ("room", FStr r);
             ("users", FList users); ("ts", FStr (clock σ (ticks σ)))]
            (ret tt) (tick σ) (_handle_list_users c σ)
          /\ StronglySorted (fun a b => Is_true (String.leb a b)) users
          /\ NoDup named
          /\ (forall x, x ∈ named <->
                x ∈ members σ r
                /\ Py.truthy_opt (Client.name (obj σ x)) = true)
          /\ users ≡ₚ map (fun x => Py.fmt (Client.name (obj σ x))) named
          /\ forall n, n ∈ users <->
               n <> "" /\ exists x, x ∈ members σ r
                                    /\ Client.name (obj σ x) = Some n).
Proof.
  split.
  - intros H. unfold _handle_list_users. rewrite bind_gets, H. simpl.
    rewrite bind_utc_ts. apply put_sends.
  - intros r Hr Hne.
    exists (sorted (names_of σ (elements (members σ r)))),
      (filter (fun x => Py.truthy_opt (Client.name (obj σ x)) = true)
         (elements (members σ r))).
    destruct (sorted_spec (names_of σ (elements (members σ r)))) as [S P].
    split; [|split; [exact S|split; [|split; [|split]]]].
    + unfold _handle_list_users. rewrite bind_gets, Hr.
      rewrite (truthy_some _ Hne). simpl.
      rewrite bind_gets, bind_utc_ts. apply put_sends.
    + apply NoDup_filter, NoDup_elements.
    + intros x. rewrite list_elem_of_filter, elem_of_elements. tauto.
    + by rewrite P, names_of_named.
    + intros n. rewrite P. unfold names_of. rewrite list_elem_of_omap.
      split.
      * intros (x & Hx & Hn). apply elem_of_elements in Hx.
        destruct (Client.name (obj σ x)) as [n'|] eqn:E; [|done].
        destruct (Py.is_empty n') eqn:E'; [done|]. injection Hn as ->.
        apply is_empty_false in E'. eauto.
      * intros (Hn & x & Hx & E). exists x. rewrite elem_of_elements.
        split; [done|]. rewrite E. by apply is_empty_false in Hn as ->.
Qed.

(** In the room of [alice] and [bob] the list is [alice], [bob]. *)
Lemma X8_list_users_witness :
  exists (users : list string) (named : list cid),
    sends_then Scenario.A
      [("type", FStr "user_list"); ("room", FStr "lobby");
       ("users", FList users);
       ("ts", FStr (clock alice_and_bob (ticks alice_and_bob)))]
      (ret tt) (tick alice_and_bob) (_handle_list_users Scenario.A alice_and_bob)
    /\ StronglySorted (fun a b => Is_true (String.leb a b)) users
    /\ NoDup named
    /\ (forall x, x ∈ named <->
          x ∈ members alice_and_bob "lobby"
          /\ Py.truthy_opt (Client.name (obj alice_and_bob x)) = true)
    /\ users ≡ₚ map (fun x => Py.fmt (Client.name (obj alice_and_bob x))) named
    /\ forall n, n ∈ users <->
         n <> "" /\ exists x, x ∈ members alice_and_bob "lobby"
                              /\ Client.name (obj alice_and_bob x) = Some n.
Proof.
  apply (proj2 (X8_list_users Scenario.A alice_and_bob) "lobby");
    [by vm_compute|done].
Defined.

(** ** The life of a transfer *)

Ltac file_named m Hn Hne Hr Hre Ht :=
  unfold _handle_file;
  rewrite bind_gets, Hn, Hr;
  rewrite (truthy_some _ Hne), (truthy_some _ Hre);
  change (negb true || negb true) with false; cbv iota;
  rewrite Ht; unfold Py.eq_str; eval_eqb; cbv iota.

Lemma handle_file_start_ok c m σ n r size :
  Client.name (obj σ c) = Some n -> n <> "" ->
  Client.room (obj σ c) = Some r -> r <> "" ->
  m !! "type" = Some (Py.VStr "file_start") ->
  file_size_of m = inr size ->
  file_name_of m <> "" -> 0 <= size <= 200 * 1024 * 1024 ->
  _handle_file c m σ =
    (put c (ack_event (uuid4_hex σ (draws σ)) (clock σ (S (ticks σ)))) ;;;
     announce_file c (uuid4_hex σ (draws σ))
       (mkMeta (Some n) (Some r) (file_name_of m) size (clock σ (ticks σ))))
      (recorded (uuid4_hex σ (draws σ))
         (mkMeta (Some n) (Some r) (file_name_of m) size (clock σ (ticks σ))) σ).
Proof.
  intros Hn Hne Hr Hre Ht Hsize Hname Hbound.
  file_named m Hn Hne Hr Hre Ht.
  fold (file_name_of m). unfold file_size_of in Hsize.
  rewrite bind_to_int, Hsize.
  apply is_empty_false in Hname as ->.
  assert ((size <? 0) = false) as -> by lia.
  assert ((200 * 1024 * 1024 <? size) = false) as -> by lia.
  change (false || false || false) with false. cbv iota.
  rewrite bind_uuid4, bind_utc_ts, bind_modify, bind_utc_ts.
  reflexivity.
Qed.

(** X10. A [file_start] from a connection with a name and a room: if the
    size does not convert to an integer the handler raises; if the file
    name (trimmed, cut to 200 characters) is empty or the size is negative
    or over 200 MiB, the sender is sent an error and nothing else happens;
    otherwise the record, with the sender's name and room, the file name
    and the size, is stored under a newly drawn id, the sender is sent a
    [file_ack] with that id, and then the other members of the room are
    told of the transfer. *)
Theorem X10_file_start (c : cid) (m : msg) (σ : ChatServer) (n r : string) :
  Client.name (obj σ c) = Some n -> n <> "" ->
  Client.room (obj σ c) = Some r -> r <> "" ->
  m !! "type" = Some (Py.VStr "file_start") ->
  (forall e, file_size_of m = inl e -> _handle_file c m σ = Raise e σ)
  /\ (forall size, file_size_of m = inr size ->
        (file_name_of m = "" \/ size < 0 \/ 200 * 1024 * 1024 < size ->
           replies c "error" "Invalid file (name/size)" σ (_handle_file c m σ))
        /\ (file_name_of m <> "" -> 0 <= size <= 200 * 1024 * 1024 ->
            let fid := uuid4_hex σ (draws σ) in
            let meta :=
              mkMeta (Some n) (Some r) (file_name_of m) size (clock σ (ticks σ)) in
            sends_then c (ack_event fid (clock σ (S (ticks σ))))
              (announce_file c fid meta) (recorded fid meta σ)
              (_handle_file c m σ)
            /\ _files (recorded fid meta σ) = <[fid := meta]> (_files σ)
            /\ _rooms (recorded fid meta σ) = _rooms σ
            /\ _clients_by_name (recorded fid meta σ) = _clients_by_name σ
            /\ (forall x, obj (recorded fid meta σ) x = obj σ x)
            /\ forall τ, exists τ',
                 announce_file c fid meta τ = Ret tt τ'
                 /\ same_but_objects τ τ'
                 /\ forall x : cid,
                      obj τ' x =
                        if bool_decide
                             (x ∈ members τ (Py.fmt (Client.room (obj τ c)))
                              /\ x <> c)
                        then (if full τ x then obj τ x
                              else push (file_start_event fid meta) (obj τ x))
                        else obj τ x)).
Proof.
  intros Hn Hne Hr Hre Ht. split.
  - intros e He. file_named m Hn Hne Hr Hre Ht.
    unfold file_size_of in He. by rewrite bind_to_int, He.
  - intros size Hsize. split.
    + intros Hbad. file_named m Hn Hne Hr Hre Ht.
      fold (file_name_of m). unfold file_size_of in Hsize.
      rewrite bind_to_int, Hsize.
      assert (Py.is_empty (file_name_of m) || (size <? 0)
              || (200 * 1024 * 1024 <? size) = true) as ->.
      { rewrite !orb_true_iff, is_empty_true, !Z.ltb_lt. tauto. }
      apply put_text_replies.
    + intros Hname Hbound fid meta.
      split; [|split; [done|split; [done|split; [done|split; [done|]]]]].
      * rewrite (handle_file_start_ok c m σ n r size) by done.
        apply (put_sends_then c _ (fun _ => announce_file c fid meta)).
      * intros τ. unfold announce_file. rewrite bind_gets, broadcast_eq.
        eexists. split; [reflexivity|]. apply relay_spec.
Qed.

Lemma X10_file_start_witness :
  _files (recorded "f0" (mkMeta (Some "alice") (Some "lobby") "a.txt" 3 "t5")
            alice_and_bob) !! "f0"
  = Some (mkMeta (Some "alice") (Some "lobby") "a.txt" 3 "t5")
  /\ sends_then Scenario.A
       (ack_event (uuid4_hex alice_and_bob (draws alice_and_bob))
          (clock alice_and_bob (S (ticks alice_and_bob))))
       (announce_file Scenario.A (uuid4_hex alice_and_bob (draws alice_and_bob))
          (mkMeta (Some "alice") (Some "lobby")
             (file_name_of (ev_msg (Scenario.file_start Scenario.A "a.txt" 3))) 3
             (clock alice_and_bob (ticks alice_and_bob))))
       (recorded (uuid4_hex alice_and_bob (draws alice_and_bob))
          (mkMeta (Some "alice") (Some "lobby")
             (file_name_of (ev_msg (Scenario.file_start Scenario.A "a.txt" 3))) 3
             (clock alice_and_bob (ticks alice_and_bob))) alice_and_bob)
       (_handle_file Scenario.A (ev_msg (Scenario.file_start Scenario.A "a.txt" 3))
          alice_and_bob).
Proof.
  split; [by vm_compute|].
  destruct (X10_file_start Scenario.A
              (ev_msg (Scenario.file_start Scenario.A "a.txt" 3))
              alice_and_bob "alice" "lobby") as [_ H];
    [by vm_compute|done|by vm_compute|done|by vm_compute|].
  destruct (H 3) as [_ H']; [by vm_compute|].
  destruct H' as [H1 _]; [by vm_compute|lia|]. exact H1.
Defined.

(** X9. A transfer is closed by its [file_end]: once the uploader's
    [file_end] has been handled, a [file_chunk] or a [file_end] of the
    uploader naming the same transfer is answered with an unknown-id error
    and nothing is relayed. *)
Theorem X9_transfer_is_closed_by_end (c : cid) (m : msg) (σ : ChatServer)
    (n r : string) (meta : FileMeta) :
  Client.name (obj σ c) = Some n -> n <> "" ->
  Client.room (obj σ c) = Some r -> r <> "" ->
  m !! "type" = Some (Py.VStr "file_end") ->
  _files σ !! file_id m = Some meta ->
  meta_from meta = Some n -> meta_room meta = Some r ->
  exists σ',
    _handle_file c m σ = Ret tt σ'
    /\ forall m',
         m' !! "type" = Some (Py.VStr "file_chunk")
         \/ m' !! "type" = Some (Py.VStr "file_end") ->
         file_id m' = file_id m ->
         replies c "error" "Unknown file id" σ' (_handle_file c m' σ').
Proof.
  intros Hn Hne Hr Hre Ht Hf Hfrom Hroom.
  eexists. split; [by eapply handle_file_end_relay|].
  intros m' Ht' Hid.
  match goal with
  | |- context [after_broadcast r ?p (Some c) ?s] =>
      destruct (relay_spec r p c s) as [_ O]; specialize (O c);
      rewrite bool_decide_eq_false_2 in O by (by intros [_ ?]);
      set (σ1 := after_broadcast r p (Some c) s) in *
  end.
  assert (Client.name (obj (with_files (delete (file_id m)) σ1) c) = Some n) as Hn'.
  { change (obj (with_files ?f σ1) c) with (obj σ1 c). by rewrite O. }
  assert (Client.room (obj (with_files (delete (file_id m)) σ1) c) = Some r) as Hr'.
  { change (obj (with_files ?f σ1) c) with (obj σ1 c). by rewrite O. }
  assert (_files (with_files (delete (file_id m)) σ1) !! file_id m' = None) as Hgone.
  { rewrite Hid. simpl. apply lookup_delete_eq. }
  destruct Ht' as [Ht'|Ht']; file_ready m' Hn' Hne Hr' Hre Ht';
    rewrite Hgone; apply put_text_replies.
Qed.

Lemma X9_transfer_is_closed_by_end_witness :
  exists σ',
    _handle_file Scenario.A (ev_msg (Scenario.file_end Scenario.A "f0"))
      transfer_started = Ret tt σ'
    /\ replies Scenario.A "error" "Unknown file id" σ'
         (_handle_file Scenario.A
            (ev_msg (Scenario.file_chunk Scenario.A "f0" (Py.VInt 0) "QUJD")) σ').
Proof.
  destruct (X9_transfer_is_closed_by_end Scenario.A
              (ev_msg (Scenario.file_end Scenario.A "f0")) transfer_started
              "alice" "lobby" (mkMeta (Some "alice") (Some "lobby") "a.txt" 3 "t6"))
    as (σ' & E & H);
    [by vm_compute|done|by vm_compute|done|by vm_compute|by vm_compute|done|done|].
  exists σ'. split; [exact E|]. apply H; [left; by vm_compute|by vm_compute].
Defined.

(** X16. A [file_chunk] of the uploader whose data is refused is not
    relayed: if the sequence number does not convert to an integer the
    handler raises; if the data is not a string, or is longer than 200000
    characters, the sender is sent a chunk-too-large error; if the data is
    not valid base64, the sender is sent an invalid-base64 error.  In each
    case nothing else happens. *)
Theorem X16_chunk_is_validated (c : cid) (m : msg) (σ : ChatServer)
    (n r : string) (meta : FileMeta) :
  Client.name (obj σ c) = Some n -> n <> "" ->
  Client.room (obj σ c) = Some r -> r <> "" ->
  m !! "type" = Some (Py.VStr "file_chunk") ->
  _files σ !! file_id m = Some meta ->
  meta_from meta = Some n -> meta_room meta = Some r ->
  (forall e, chunk_seq m = inl e -> _handle_file c m σ = Raise e σ)
  /\ (forall seq, chunk_seq m = inr seq ->
        ((forall data, msg_get m "data" (Py.VStr "") <> Py.VStr data) ->
           replies c "error" "Chunk too large" σ (_handle_file c m σ))
        /\ (forall data, msg_get m "data" (Py.VStr "") = Py.VStr data ->
              (200000 < Py.len data ->
                 replies c "error" "Chunk too large" σ (_handle_file c m σ))
              /\ (Py.len data <= 200000 -> Py.b64_valid data = false ->
                  replies c "error" "Invalid base64" σ (_handle_file c m σ)))).
Proof.
  intros Hn Hne Hr Hre Ht Hf Hfrom Hroom.
  assert (foreign meta (obj σ c) = false) as Hown.
  { apply foreign_false. by rewrite Hn, Hr. }
  split.
  - intros e He. file_ready m Hn Hne Hr Hre Ht. rewrite Hf, Hown.
    unfold chunk_seq in He. by rewrite bind_to_int, He.
  - intros seq Hseq. unfold chunk_seq in Hseq. split.
    + intros Hdata. file_ready m Hn Hne Hr Hre Ht. rewrite Hf, Hown.
      rewrite bind_to_int, Hseq.
      destruct (msg_get m "data" (Py.VStr "")) eqn:E;
        try apply put_text_replies.
      by destruct (Hdata s).
    + intros data Hdata. split.
      * intros Hlen. file_ready m Hn Hne Hr Hre Ht. rewrite Hf, Hown.
        rewrite bind_to_int, Hseq, Hdata.
        assert ((200000 <? Py.len data) = true) as -> by lia.
        apply put_text_replies.
      * intros Hlen Hb64. file_ready m Hn Hne Hr Hre Ht. rewrite Hf, Hown.
        rewrite bind_to_int, Hseq, Hdata.
        assert ((200000 <? Py.len data) = false) as -> by lia.
        rewrite Hb64. apply put_text_replies.
Qed.

Lemma X16_chunk_is_validated_witness :
  replies Scenario.A "error" "Invalid base64" transfer_started
    (_handle_file Scenario.A
       (ev_msg (Scenario.file_chunk Scenario.A "f0" (Py.VInt 0) "not base64"))
       transfer_started).
Proof.
  destruct (X16_chunk_is_validated Scenario.A
              (ev_msg (Scenario.file_chunk Scenario.A "f0" (Py.VInt 0) "not base64"))
              transfer_started "alice" "lobby"
              (mkMeta (Some "alice") (Some "lobby") "a.txt" 3 "t6"))
    as [_ H];
    [by vm_compute|done|by vm_compute|done|by vm_compute|by vm_compute|done|done|].
  destruct (H 0) as [_ H']; [by vm_compute|].
  destruct (H' "not base64") as [_ H'']; [by vm_compute|].
  apply H''; by vm_compute.
Defined.

Lemma handle_file_start_quiet c m σ n r size :
  Client.name (obj σ c) = Some n -> n <> "" ->
  Client.room (obj σ c) = Some r -> r <> "" ->
  m !! "type" = Some (Py.VStr "file_start") ->
  file_size_of m = inr size ->
  file_name_of m <> "" -> 0 <= size <= 200 * 1024 * 1024 ->
  full σ c = false ->
  _handle_file c m σ =
    Ret tt
      (after_broadcast r
         (file_start_event (uuid4_hex σ (draws σ))
            (mkMeta (Some n) (Some r) (file_name_of m) size (clock σ (ticks σ))))
         (Some c)
         (with_obj c
            (push (ack_event (uuid4_hex σ (draws σ)) (clock σ (S (ticks σ)))))
            (recorded (uuid4_hex σ (draws σ))
               (mkMeta (Some n) (Some r) (file_name_of m) size (clock σ (ticks σ)))
               σ))).
Proof.
  intros Hn Hne Hr Hre Ht Hsize Hname Hbound Hroom.
  rewrite (handle_file_start_ok c m σ n r size) by done.
  unfold bind at 1, put.
  change (full (recorded ?f ?mt σ) c) with (full σ c). rewrite Hroom.
  simpl res_bind. unfold announce_file. rewrite bind_gets.
  rewrite obj_with_obj, decide_True by done.
  change (Client.room (push ?p (obj (recorded ?f ?mt σ) c)))
    with (Client.room (obj σ c)).
  rewrite Hr. simpl Py.fmt. apply broadcast_eq.
Qed.

Lemma handle_file_end_files c m σ n r meta :
  Client.name (obj σ c) = Some n -> n <> "" ->
  Client.room (obj σ c) = Some r -> r <> "" ->
  m !! "type" = Some (Py.VStr "file_end") ->
  _files σ !! file_id m = Some meta ->
  meta_from meta = Some n -> meta_room meta = Some r ->
  exists σ', _handle_file c m σ = Ret tt σ'
             /\ _files σ' = delete (file_id m) (_files σ).
Proof.
  intros Hn Hne Hr Hre Ht Hf Hfrom Hroom.
  eexists. split; [by eapply handle_file_end_relay|].
  match goal with
  | |- context [after_broadcast r ?p (Some c) ?s] =>
      destruct (relay_spec r p c s) as [(_&_&_&F&_) _]
  end.
  simpl. by rewrite F.
Qed.

(** X11. Starting a transfer and ending it leaves the transfer registry as
    it was: when the uploader's queue has room and the id drawn for the
    transfer is not in use, the [file_start] stores the record under that
    id, and the uploader's [file_end] for that id removes it again. *)
Theorem X11_start_then_end_restores_registry (c : cid) (m m_end : msg)
    (σ : ChatServer) (n r : string) (size : Z) :
  Client.name (obj σ c) = Some n -> n <> "" ->
  Client.room (obj σ c) = Some r -> r <> "" ->
  full σ c = false ->
  m !! "type" = Some (Py.VStr "file_start") ->
  file_size_of m = inr size ->
  file_name_of m <> "" -> 0 <= size <= 200 * 1024 * 1024 ->
  _files σ !! uuid4_hex σ (draws σ) = None ->
  m_end !! "type" = Some (Py.VStr "file_end") ->
  file_id m_end = uuid4_hex σ (draws σ) ->
  exists σ1 σ2,
    _handle_file c m σ = Ret tt σ1
    /\ _files σ1 =
         <[uuid4_hex σ (draws σ) :=
             mkMeta (Some n) (Some r) (file_name_of m) size (clock σ (ticks σ))]>
           (_files σ)
    /\ _handle_file c m_end σ1 = Ret tt σ2
    /\ _files σ2 = _files σ.
Proof.
  intros Hn Hne Hr Hre Hroom Ht Hsize Hname Hbound Hfresh Ht' Hid.
  pose proof (handle_file_start_quiet c m σ n r size Hn Hne Hr Hre Ht Hsize
                Hname Hbound Hroom) as E1.
  match type of E1 with
  | _ = Ret tt (after_broadcast r ?p (Some c) ?s) =>
      destruct (relay_spec r p c s) as [(_&_&_&F&_) O]; specialize (O c);
      rewrite bool_decide_eq_false_2 in O by (by intros [_ ?]);
      remember (after_broadcast r p (Some c) s) as σ1 eqn:Eσ1
  end.
  clear Eσ1. rewrite obj_with_obj, decide_True in O by done.
  simpl in F.
  assert (Client.name (obj σ1 c) = Some n) as Hn1 by (by rewrite O).
  assert (Client.room (obj σ1 c) = Some r) as Hr1 by (by rewrite O).
  assert (_files σ1 !! file_id m_end
          = Some (mkMeta (Some n) (Some r) (file_name_of m) size
                    (clock σ (ticks σ)))) as Hf1.
  { rewrite F, Hid. apply lookup_insert_eq. }
  destruct (handle_file_end_files c m_end σ1 n r _ Hn1 Hne Hr1 Hre Ht' Hf1)
    as (σ2 & E2 & F2); [done|done|].
  exists σ1, σ2. split; [exact E1|]. split; [exact F|]. split; [exact E2|].
  rewrite F2, F, Hid, delete_insert_eq. by apply delete_id.
Qed.

Lemma X11_start_then_end_restores_registry_witness :
  exists σ1 σ2,
    _handle_file Scenario.A (ev_msg (Scenario.file_start Scenario.A "a.txt" 3))
      alice_and_bob = Ret tt σ1
    /\ _files σ1 =
         <[uuid4_hex alice_and_bob (draws alice_and_bob) :=
             mkMeta (Some "alice") (Some "lobby")
               (file_name_of (ev_msg (Scenario.file_start Scenario.A "a.txt" 3)))
               3 (clock alice_and_bob (ticks alice_and_bob))]>
           (_files alice_and_bob)
    /\ _handle_file Scenario.A (ev_msg (Scenario.file_end Scenario.A "f0")) σ1
       = Ret tt σ2
    /\ _files σ2 = _files alice_and_bob.
Proof.
  apply (X11_start_then_end_restores_registry Scenario.A
           (ev_msg (Scenario.file_start Scenario.A "a.txt" 3))
           (ev_msg (Scenario.file_end Scenario.A "f0")) alice_and_bob
           "alice" "lobby" 3);
    [by vm_compute|done|by vm_compute|done|by vm_compute|by vm_compute
    |by vm_compute|by vm_compute|lia|by vm_compute|by vm_compute|by vm_compute].
Defined.

(** ** Refusals *)

Lemma dispatch_catch_put_text ev c ty text σ :
  route ev σ = put_text c ty text σ -> dispatch ev σ = put_text c ty text σ.
Proof.
  intros E. unfold dispatch, try_except. rewrite E. apply catch_put_text.
Qed.

Ltac route_to Ht :=
  unfold route, msg_get; rewrite Ht; unfold Py.eq_str; cbn [default from_option id];
  eval_eqb; cbn [orb].

(** X17. Nothing but [hello] and the two list queries is served to a
    connection without a name: its [join], [msg] and [pm] events are each
    answered with one send-hello-first error, its [file_start],
    [file_chunk] and [file_end] events with one error saying that a
    transfer requires hello and join; nothing else happens. *)
Theorem X17_hello_comes_first (ev : Event) (σ : ChatServer) :
  Py.truthy_opt (Client.name (obj σ (client ev))) = false ->
  (ev_msg ev !! "type" = Some (Py.VStr "join")
   \/ ev_msg ev !! "type" = Some (Py.VStr "msg")
   \/ ev_msg ev !! "type" = Some (Py.VStr "pm") ->
   replies (client ev) "error" "Send hello first" σ (dispatch ev σ))
  /\ (ev_msg ev !! "type" = Some (Py.VStr "file_start")
      \/ ev_msg ev !! "type" = Some (Py.VStr "file_chunk")
      \/ ev_msg ev !! "type" = Some (Py.VStr "file_end") ->
      replies (client ev) "error" "File transfer requires hello + join" σ
        (dispatch ev σ)).
Proof.
  intros Hn. split.
  - intros Ht.
    rewrite (dispatch_catch_put_text ev (client ev) "error" "Send hello first");
      [apply put_text_replies|].
    destruct Ht as [Ht|[Ht|Ht]]; route_to Ht.
    + unfold _handle_join. by rewrite bind_gets, Hn.
    + unfold _handle_msg. by rewrite bind_gets, Hn.
    + unfold _handle_pm. by rewrite bind_gets, Hn.
  - intros Ht.
    rewrite (dispatch_catch_put_text ev (client ev) "error"
               "File transfer requires hello + join");
      [apply put_text_replies|].
    destruct Ht as [Ht|[Ht|Ht]]; route_to Ht;
      unfold _handle_file; by rewrite bind_gets, Hn.
Qed.

Lemma X17_hello_comes_first_witness :
  replies Scenario.A "error" "Send hello first" Scenario.start
    (dispatch (Scenario.say Scenario.A "x") Scenario.start).
Proof.
  destruct (X17_hello_comes_first (Scenario.say Scenario.A "x") Scenario.start)
    as [H _]; [by vm_compute|].
  apply H. right. left. by vm_compute.
Defined.

(** X12. A [join] of a named connection is refused, with an invalid-room
    error to the sender and nothing else, when the room it asks for (the
    [room] field as a string, trimmed) is empty or longer than 40
    characters, in particular when the message has no [room] field;
    otherwise it is the join of that room. *)
Theorem X12_join_is_validated (c : cid) (m : msg) (σ : ChatServer) (n : string) :
  Client.name (obj σ c) = Some n -> n <> "" ->
  (requested_room m = "" \/ 40 < Py.len (requested_room m) ->
     replies c "error" "Invalid room name" σ (_handle_join c m σ))
  /\ (requested_room m <> "" -> Py.len (requested_room m) <= 40 ->
      _handle_join c m σ = _join_room c (requested_room m) σ)
  /\ (m !! "room" = None -> requested_room m = "").
Proof.
  intros Hn Hne. split; [|split].
  - intros Hbad. unfold _handle_join. rewrite bind_gets, Hn.
    rewrite (truthy_some _ Hne). cbn [negb].
    fold (requested_room m).
    assert (Py.is_empty (requested_room m) || (40 <? Py.len (requested_room m))
            = true) as ->.
    { rewrite orb_true_iff, is_empty_true, Z.ltb_lt. tauto. }
    apply put_text_replies.
  - intros Hr Hlen. unfold _handle_join. rewrite bind_gets, Hn.
    rewrite (truthy_some _ Hne). cbn [negb].
    fold (requested_room m).
    apply is_empty_false in Hr as ->.
    by assert ((40 <? Py.len (requested_room m)) = false) as -> by lia.
  - intros Hm. unfold requested_room, msg_get. by rewrite Hm.
Qed.

Lemma X12_join_is_validated_witness :
  replies Scenario.A "error" "Invalid room name" alice_and_bob
    (_handle_join Scenario.A (ev_msg (Scenario.ev Scenario.A [("type", Py.VStr "join")]))
       alice_and_bob).
Proof.
  destruct (X12_join_is_validated Scenario.A
              (ev_msg (Scenario.ev Scenario.A [("type", Py.VStr "join")]))
              alice_and_bob "alice") as (H & _ & _); [by vm_compute|done|].
  apply H. left. by vm_compute.
Defined.

(** X13. The limits of the read loop: a line longer than 256 KiB makes the
    reader queue an error for its client and end; when the event queue is
    full, a well-formed line is dropped, the reader queues an error for its
    client and goes on, and the event queue is as it was; when the stream
    reader's own limit is overrun the reader ends and queues nothing. *)
Theorem X13_reader_limits (c : cid) (σ : ChatServer) :
  (forall nbytes body,
     MAX_LINE_BYTES < nbytes ->
     sends_then c (text_event "error" "Message is too long" (clock σ (ticks σ)))
       (ret Return) (tick σ) (_read_loop_turn c (Line nbytes body) σ))
  /\ (forall nbytes m,
        nbytes <= MAX_LINE_BYTES -> is_Some (m !! "type") ->
        (events_maxsize <= length (_events σ))%nat ->
        sends_then c
          (text_event "error" "Server overloaded (events queue)" (clock σ (ticks σ)))
          (ret Continue) (tick σ) (_read_loop_turn c (Line nbytes (Object m)) σ))
  /\ _read_loop_turn c Overrun σ = Ret Return σ.
Proof.
  split; [|split; [|done]].
  - intros nbytes body Hlen. unfold _read_loop_turn.
    assert ((MAX_LINE_BYTES <? nbytes) = true) as -> by lia.
    apply (put_text_sends_then c "error" "Message is too long"
             (fun _ => ret Return) σ).
  - intros nbytes m Hlen Hty Hfull. unfold _read_loop_turn.
    assert ((MAX_LINE_BYTES <? nbytes) = false) as -> by lia.
    rewrite bool_decide_eq_true_2 by done.
    unfold bind at 1, try_except, events_put_nowait.
    assert ((events_maxsize <=? length (_events σ))%nat = true) as ->
      by (by apply Nat.leb_le).
    simpl res_catch.
    apply (put_text_sends_then c "error" "Server overloaded (events queue)"
             (fun _ => ret Continue) σ).
Qed.

Lemma X13_reader_limits_witness :
  sends_then Scenario.A
    (text_event "error" "Message is too long"
       (clock Scenario.start (ticks Scenario.start)))
    (ret Return) (tick Scenario.start)
    (_read_loop_turn Scenario.A (Line (MAX_LINE_BYTES + 1) NotJson) Scenario.start).
Proof.
  destruct (X13_reader_limits Scenario.A Scenario.start) as (H & _ & _).
  apply H. lia.
Defined.

(** ** The dispatcher while it waits *)

Lemma cleanup_events c σ : _events (_cleanup_client c σ) = _events σ.
Proof.
  unfold _cleanup_client, release_name.
  match goal with
  | |- context [Client.name (obj ?s c)] => destruct (Client.name (obj s c))
  end.
  - destruct (_ && _); simpl;
      destruct (Client.room (obj σ c)) as [r|]; try done;
      by destruct (Py.is_empty r).
  - destruct (Client.room (obj σ c)) as [r|]; try done.
    by destruct (Py.is_empty r).
Qed.

(** X15. One full queue holds up every connection: an event whose answer
    goes to a connection with a full queue suspends the dispatcher, and
    while the dispatcher is suspended no step of the server takes an event
    off the event queue; the events of all connections wait until the
    queue the dispatcher waits for has room, when the dispatcher goes on
    with the event it was handling. *)
Theorem X15_full_queue_holds_up_dispatcher (σ : ChatServer) (c : cid)
    (k : ChatServer -> res unit) (cfg' : ChatServer * task) :
  step (σ, Parked c k) cfg' ->
  (cfg'.2 = Parked c k /\ exists evs, _events cfg'.1 = _events σ ++ evs)
  \/ (full σ c = false /\ cfg' = settle (k σ)).
Proof.
  inversion 1; subst; simpl.
  - by right.
  - left. split; [done|]. by eexists.
  - left. split; [done|]. exists []. by rewrite app_nil_r.
  - left. split; [done|]. exists []. by rewrite app_nil_r.
  - left. split; [done|]. exists []. by rewrite app_nil_r, cleanup_events.
Qed.

Lemma X15_full_queue_holds_up_dispatcher_witness :
  (exists k, dispatch (Scenario.list_rooms Scenario.B) bob_swamped
             = Park Scenario.B (tick bob_swamped) k)
  /\ forall k,
       (with_obj Scenario.A pop bob_swamped, Parked Scenario.B k).2
         = Parked Scenario.B k
       /\ exists evs,
            _events (with_obj Scenario.A pop bob_swamped, Parked Scenario.B k).1
              = _events bob_swamped ++ evs.
Proof.
  split; [eexists; vm_compute; reflexivity|].
  intros k.
  destruct (X15_full_queue_holds_up_dispatcher bob_swamped Scenario.B k
              (with_obj Scenario.A pop bob_swamped, Parked Scenario.B k))
    as [H|[H _]].
  - apply step_write.
  - exact H.
  - exfalso. revert H. by vm_compute.
Defined.

(** ** The first [hello] of a connection *)

Lemma put_text_room c ty text σ :
  full σ c = false ->
  put_text c ty text σ
    = Ret tt (with_obj c (push (text_event ty text (clock σ (ticks σ)))) (tick σ)).
Proof.
  intros H. unfold put_text. rewrite bind_utc_ts. unfold put.
  change (full (tick σ) c) with (full σ c). by rewrite H.
Qed.

Lemma full_false_iff σ c :
  full σ c = false <-> (length (Client.out_q (obj σ c)) < Client.maxsize)%nat.
Proof. unfold full. by rewrite Nat.leb_gt. Qed.

(** X14. A connection that has no name and no room, and whose queue has
    room for two objects, says [hello] with a valid name no one holds: the
    handler returns at once; the name is bound to the connection; the
    connection is a member of the default room, which is created if it did
    not exist; its queue has the login [info] and the joined-room [info]
    added, in this order; each other member of the default room is offered
    the joined notice; nothing else changes. *)
Theorem X14_first_hello (c : cid) (m : msg) (σ : ChatServer) :
  Client.name (obj σ c) = None -> Client.room (obj σ c) = None ->
  valid_name (requested_name m) = true ->
  _clients_by_name σ !! requested_name m = None ->
  (length (Client.out_q (obj σ c)) + 2 <= Client.maxsize)%nat ->
  exists σ',
    _handle_hello c m σ = Ret tt σ'
    /\ _clients_by_name σ' = <[requested_name m := c]> (_clients_by_name σ)
    /\ _rooms σ' = <[DEFAULT_ROOM := members σ DEFAULT_ROOM ∪ {[c]}]> (_rooms σ)
    /\ _files σ' = _files σ
    /\ obj σ' c =
         Client.mk (Some (requested_name m)) (Some DEFAULT_ROOM)
           (Client.out_q (obj σ c)
            ++ [text_event "info"
                  ("You are logged in as " +:+ requested_name m
                     +:+ ". Use join to pick a room.") (clock σ (ticks σ));
                text_event "info" ("You joined room " +:+ DEFAULT_ROOM)
                  (clock σ (S (ticks σ)))])
    /\ forall x, x <> c ->
         obj σ' x =
           if bool_decide (x ∈ members σ DEFAULT_ROOM)
           then (if full σ x then obj σ x
                 else push (joined_notice (Some (requested_name m)) DEFAULT_ROOM
                              (clock σ (S (S (ticks σ))))) (obj σ x))
           else obj σ x.
Proof.
  intros Hn Hr Hv Hfree Hlen.
  set (name := requested_name m) in *.
  assert (held_by_other σ name c = false) as Hh.
  { pose proof Hfree as H'. unfold held_by_other.
    unfold cid in H' |- *. by rewrite H'. }
  rewrite handle_hello_ok by done. fold name.
  assert (rename c name σ
          = with_names (<[name := c]>) (with_obj c (set_name (Some name)) σ)) as ->.
  { unfold rename, release_name. by rewrite Hn. }
  set (τ0 := with_names (<[name := c]>) (with_obj c (set_name (Some name)) σ)).
  assert (obj τ0 c = Client.mk (Some name) None (Client.out_q (obj σ c))) as O0.
  { unfold τ0. change (obj (with_names ?f ?s) c) with (obj s c).
    rewrite obj_with_obj, decide_True by done. unfold set_name. by rewrite Hr. }
  assert (forall x, x <> c -> obj τ0 x = obj σ x) as O0'.
  { intros x Hx. unfold τ0. change (obj (with_names ?f ?s) x) with (obj s x).
    by rewrite obj_with_obj, decide_False. }
  unfold bind at 1.
  rewrite put_text_room by (apply full_false_iff; rewrite O0; simpl; lia).
  simpl res_bind.
  set (p1 := text_event "info"
               ("You are logged in as " +:+ name +:+ ". Use join to pick a room.")
               (clock σ (ticks σ))).
  set (τ1 := with_obj c (push p1) (tick τ0)).
  assert (obj τ1 c = Client.mk (Some name) None (Client.out_q (obj σ c) ++ [p1]))
    as O1.
  { unfold τ1. rewrite obj_with_obj, decide_True by done.
    change (obj (tick τ0) c) with (obj τ0 c). by rewrite O0. }
  unfold auto_join. rewrite bind_gets, O1.
  change (Py.truthy_opt _) with false. cbv iota.
  rewrite join_room_other by (rewrite O1; done).
  rewrite leave_skip by (by rewrite O1).
  set (τ2 := enter DEFAULT_ROOM c τ1).
  assert (obj τ2 c = Client.mk (Some name) (Some DEFAULT_ROOM)
                       (Client.out_q (obj σ c) ++ [p1])) as O2.
  { unfold τ2. rewrite enter_obj, decide_True by done. by rewrite O1. }
  unfold bind at 1.
  rewrite put_text_room
    by (apply full_false_iff; rewrite O2; simpl; rewrite length_app; simpl; lia).
  simpl res_bind.
  set (p2 := text_event "info" ("You joined room " +:+ DEFAULT_ROOM)
               (clock σ (S (ticks σ)))).
  set (τ3 := with_obj c (push p2) (tick τ2)).
  destruct (announce_spec DEFAULT_ROOM c τ3) as (σ' & E & (_&R&N&F&_) & O).
  exists σ'. split; [exact E|].
  split; [exact N|]. split.
  { rewrite R. unfold τ3, τ2, enter, add_member. simpl. reflexivity. }
  split; [exact F|]. split.
  - rewrite O. rewrite bool_decide_eq_false_2 by (by intros [_ ?]).
    unfold τ3. rewrite obj_with_obj, decide_True by done.
    change (obj (tick τ2) c) with (obj τ2 c). rewrite O2.
    unfold push. simpl. by rewrite <- app_assoc.
  - intros x Hx. rewrite O.
    assert (obj τ3 x = obj σ x) as Ox.
    { unfold τ3. rewrite obj_with_obj, decide_False by done.
      change (obj (tick τ2) x) with (obj τ2 x).
      unfold τ2. rewrite enter_obj, decide_False by done.
      unfold τ1. rewrite obj_with_obj, decide_False by done.
      change (obj (tick τ0) x) with (obj τ0 x). by apply O0'. }
    assert (members τ3 DEFAULT_ROOM = members σ DEFAULT_ROOM ∪ {[c]}) as Mx.
    { unfold members, τ3, τ2, enter, add_member. simpl.
      by rewrite lookup_insert_eq. }
    assert (full τ3 x = full σ x) as Fx by (unfold full; by rewrite Ox).
    assert (Client.name (obj τ3 c) = Some name) as Nc.
    { unfold τ3. rewrite obj_with_obj, decide_True by done.
      change (obj (tick τ2) c) with (obj τ2 c). by rewrite O2. }
    rewrite Mx, Fx, Ox, Nc.
    case_bd; try reflexivity; exfalso; set_solver.
Qed.

Lemma X14_first_hello_witness :
  exists σ',
    _handle_hello Scenario.A (ev_msg (Scenario.hello Scenario.A "alice"))
      Scenario.start = Ret tt σ'
    /\ _clients_by_name σ'
         = <[requested_name (ev_msg (Scenario.hello Scenario.A "alice")) := Scenario.A]>
             (_clients_by_name Scenario.start)
    /\ _rooms σ'
         = <[DEFAULT_ROOM := members Scenario.start DEFAULT_ROOM ∪ {[Scenario.A]}]>
             (_rooms Scenario.start).
Proof.
  destruct (X14_first_hello Scenario.A (ev_msg (Scenario.hello Scenario.A "alice"))
              Scenario.start) as (σ' & E & N & R & _);
    [by vm_compute|by vm_compute|by vm_compute|by vm_compute
    |vm_compute; lia|].
  by exists σ'.
Defined.

(** ** A full queue and the dispatcher *)

Lemma parked_stays σ c k cfg' :
  full σ c = true -> step (σ, Parked c k) cfg' ->
  cfg'.2 = Parked c k /\ exists evs, _events cfg'.1 = _events σ ++ evs.
Proof.
  intros F. inversion 1; subst; simpl.
  - congruence.
  - split; [done|]. by eexists.
  - split; [done|]. exists []. by rewrite app_nil_r.
  - split; [done|]. exists []. by rewrite app_nil_r.
  - split; [done|]. exists []. by rewrite app_nil_r, cleanup_events.
Qed.

Lemma is_parked_on_true c d :
  is_parked_on c d = true -> exists k, d = Parked c k.
Proof.
  destruct d as [|c' k|e]; simpl; try done.
  intros H. apply Nat.eqb_eq in H as ->. by exists k.
Qed.

Lemma pm_to_swamped_reachable :
  reachable Scenario.clk Scenario.uuid pm_to_swamped.
Proof.
  unfold reachable, pm_to_swamped.
  eapply rtc_r;
    [|apply (step_dispatch pm_queued (Scenario.pm Scenario.A "bob" "x")
               [Scenario.say Scenario.A "hi"]); by vm_compute].
  unfold pm_queued.
  eapply rtc_r; [|apply step_event; vm_compute; lia].
  eapply rtc_r; [|apply step_event; vm_compute; lia].
  apply bob_swamped_reachable.
Qed.

(** C6. The code fails the claim: the handling of an event does not
    complete, and the loop does not go on to the next event, while the
    answer waits for room in a full queue.  [bob] reads nothing and its
    queue holds 200 objects; [alice] sends [bob] a [pm] and then a [msg].
    The server reaches the configuration in which the dispatcher has taken
    the [pm] and waits on the queue of [bob]: [alice] has not been sent the
    confirmation of the [pm], and as long as the queue of [bob] stays full,
    whatever the readers, the writers and the connection handlers do, the
    cleanup of [bob] included, the dispatcher waits and the [msg] of
    [alice] stays at the head of the event queue.  The error that answers
    an event of unknown type from [bob] waits in the same way. *)
Theorem C6_full_queue_stalls_dispatcher :
  reachable Scenario.clk Scenario.uuid pm_to_swamped
  /\ full pm_to_swamped.1 Scenario.B = true
  /\ Client.out_q (obj pm_to_swamped.1 Scenario.A)
       = Client.out_q (obj bob_swamped Scenario.A)
  /\ (forall cfg,
        rtc (step_while_full Scenario.B) pm_to_swamped cfg ->
        (exists k, cfg.2 = Parked Scenario.B k)
        /\ exists evs, _events cfg.1 = Scenario.say Scenario.A "hi" :: evs)
  /\ (exists k, (settle (dispatch unknown_from_bob bob_swamped)).2
                = Parked Scenario.B k).
Proof.
  split; [apply pm_to_swamped_reachable|].
  split; [by vm_compute|]. split; [by vm_compute|].
  split; [|apply is_parked_on_true; by vm_compute].
  intros cfg H.
  cut ((exists k, cfg.2 = Parked Scenario.B k)
       /\ (exists evs, _events cfg.1 = Scenario.say Scenario.A "hi" :: evs)
       /\ full cfg.1 Scenario.B = true); [tauto|].
  eapply (rtc_ind_r
            (fun cfg =>
               (exists k, cfg.2 = Parked Scenario.B k)
               /\ (exists evs, _events cfg.1 = Scenario.say Scenario.A "hi" :: evs)
               /\ full cfg.1 Scenario.B = true)); [| |exact H].
  - split; [apply is_parked_on_true; by vm_compute|].
    split; [exists []; by vm_compute|by vm_compute].
  - intros [σ d] z _ [Hstep Hfull] ((k & Hk) & (evs & Hevs) & F).
    simpl in Hk, Hevs, F. subst d.
    destruct (parked_stays σ Scenario.B k z F Hstep) as [P (evs' & E)].
    split; [by exists k|]. split; [|exact Hfull].
    exists (evs ++ evs'). by rewrite E, Hevs.
Qed.
